(** * FDC3 cross-platform bus: the routing engine of [Fdc3Impl] and [Fdc3Bus]

    A shallow embedding of the TypeScript sources [utils.ts] (argument
    validation, platform connection) and [index.ts] (the [Fdc3Impl] desktop
    agent and the [Fdc3Bus] factory), together with the properties of the
    routing engine that are stated about them.

    JavaScript values are a small inductive type; remote capability calls
    ([discoverMethods], [invoke], [register], [onMethodRegistered],
    [connect]) are the events of a finite interaction tree [Prog]; an
    [async] function is a [Prog] whose [Throw] leaf is the rejection of the
    promise it returns, and every [await] is one [Vis] node.

    The file has three parts: the embedding of the sources ([Js],
    [Interop], [Utils], [Fdc3Impl], [Fdc3Bus]); the vocabulary of the
    properties, with the concrete desktops they are tried on; the
    properties and their proofs. *)

From Stdlib Require Import String Ascii ZArith List Lia DecimalString DecimalPos DecimalZ.
From stdpp Require Import base strings list gmap.

Set Warnings "-register-all".
Local Open Scope string_scope.
Local Open Scope list_scope.

(** ** JavaScript values *)

Module Js.

(** The values that cross the public surface.  Numbers are the
    integer-valued ones; a string is a sequence of code units below 256; an
    object is the list of its own enumerable string-keyed properties in the
    order in which the engine enumerates them (insertion order for keys
    that are not array indices); [JFun] is a callable, identified by a
    number and carrying no data properties of its own. *)
Inductive JsValue : Type :=
| JUndefined
| JNull
| JBool (b : bool)
| JNum (z : Z)
| JStr (s : string)
| JArr (items : list JsValue)
| JObj (props : list (string * JsValue))
| JFun (id : nat).

(** [!v] is [negb (truthy v)]. *)
Definition truthy (v : JsValue) : bool :=
  match v with
  | JUndefined | JNull => false
  | JBool b => b
  | JNum z => negb (z =? 0)%Z
  | JStr s => negb (String.eqb s "")
  | JArr _ | JObj _ | JFun _ => true
  end.

Definition typeof (v : JsValue) : string :=
  match v with
  | JUndefined => "undefined"
  | JNull | JArr _ | JObj _ => "object"
  | JBool _ => "boolean"
  | JNum _ => "number"
  | JStr _ => "string"
  | JFun _ => "function"
  end.

Fixpoint lookup_prop (key : string) (props : list (string * JsValue)) : JsValue :=
  match props with
  | [] => JUndefined
  | (k, v) :: rest => if String.eqb k key then v else lookup_prop key rest
  end.

(** [v.key] for a value [v] that is neither [undefined] nor [null], and a
    key that is not an array index, [length] or a built-in of a primitive. *)
Definition get (v : JsValue) (key : string) : JsValue :=
  match v with
  | JObj props => lookup_prop key props
  | _ => JUndefined
  end.

(** [v === s] for a string [s]. *)
Definition is_string (v : JsValue) (s : string) : bool :=
  match v with
  | JStr s' => String.eqb s' s
  | _ => false
  end.

(** Exceptions and rejection reasons are error objects with a string
    [message]; a [TypeError] is raised by the engine itself, and its
    message is the engine's. *)
Inductive JsError : Type :=
| Error (message : string)
| TypeError (message : string).

Definition message (e : JsError) : string :=
  match e with
  | Error m | TypeError m => m
  end.

(** [m || d] on strings. *)
Definition or_default (m d : string) : string :=
  if String.eqb m "" then d else m.

(** The outcome of synchronous code. *)
Inductive Completion (A : Type) : Type :=
| Normal (a : A)
| Abrupt (e : JsError).
Arguments Normal {A} a.
Arguments Abrupt {A} e.

(** The state of a settled promise. *)
Inductive Settled (A : Type) : Type :=
| Resolved (a : A)
| Rejected (e : JsError).
Arguments Resolved {A} a.
Arguments Rejected {A} e.

(** The double quote, for the messages that embed one. *)
Definition dq : string := String "034"%char EmptyString.

(** *** JSON.stringify

    [QuoteJSONString]: the two-character escapes, [\u00xx] for the other
    control characters, every other code unit as it is. *)
Definition hex_digit (n : nat) : ascii :=
  match n with
  | 0 => "0" | 1 => "1" | 2 => "2" | 3 => "3" | 4 => "4" | 5 => "5"
  | 6 => "6" | 7 => "7" | 8 => "8" | 9 => "9" | 10 => "a" | 11 => "b"
  | 12 => "c" | 13 => "d" | 14 => "e" | _ => "f"
  end%char.

Definition quote_char (c : ascii) : string :=
  let n := nat_of_ascii c in
  if (n =? 8)%nat then "\b"
  else if (n =? 9)%nat then "\t"
  else if (n =? 10)%nat then "\n"
  else if (n =? 12)%nat then "\f"
  else if (n =? 13)%nat then "\r"
  else if (n =? 34)%nat then "\" +:+ dq
  else if (n =? 92)%nat then "\\"
  else if (n <? 32)%nat then
    "\u00" +:+ String (hex_digit (n / 16)) (String (hex_digit (n mod 16)) "")
  else String c "".

Fixpoint quote_chars (s : string) : string :=
  match s with
  | "" => ""
  | String c rest => quote_char c +:+ quote_chars rest
  end.

Definition QuoteJSONString (s : string) : string :=
  dq +:+ quote_chars s +:+ dq.

(** [Number::toString] of an integer-valued number. *)
Definition number_to_string (z : Z) : string :=
  NilZero.string_of_int (Z.to_int z).

(** [JSON.stringify v] with no replacer and no indentation, for values
    none of which has a [toJSON] method: [None] is the result [undefined].
    A property whose value serialises to [undefined] is left out of an
    object and written [null] in an array; the members of an object come in
    property order. *)
Fixpoint stringify (v : JsValue) : option string :=
  match v with
  | JUndefined | JFun _ => None
  | JNull => Some "null"
  | JBool b => Some (if b then "true" else "false")
  | JNum z => Some (number_to_string z)
  | JStr s => Some (QuoteJSONString s)
  | JArr items =>
      Some ("[" +:+ String.concat ","
                     (map (fun x => default "null" (stringify x)) items) +:+ "]")
  | JObj props =>
      Some ("{" +:+ String.concat ","
                     ((fix members (ps : list (string * JsValue)) : list string :=
                         match ps with
                         | [] => []
                         | (k, x) :: rest =>
                             match stringify x with
                             | Some s => (QuoteJSONString k +:+ ":" +:+ s) :: members rest
                             | None => members rest
                             end
                         end) props) +:+ "}")
  end.

End Js.
Import Js.

(** ** The interop platform boundary

    Modelled from the spec: the declarations of [interfaces/client-api.ts]
    ([Method], [Platform], [InteropPeer], [InteropPlatform],
    [MethodImplementation], [Application]) are not among the sources; the
    records below follow the data model of the specification and the fields
    the code reads.  A field the code tests before reading it
    ([method.intent], [method.peer]) is optional. *)

Module Interop.

Record InteropPeerDescriptor : Type := { applicationName : string }.

Record Intent : Type := { intent_name : string; intent_context : JsValue }.

Record Method : Type := {
  method_name : string;
  method_intent : option (list Intent);
  method_peer : option InteropPeerDescriptor
}.

(** The connected peer of one platform: the object whose [discoverMethods],
    [invoke], [register] and [onMethodRegistered] the engine calls. *)
Record InteropPeer : Type := {
  peer_id : nat;
  isConnected : bool;
  connectionStatus : string
}.

Record Platform : Type := {
  name : string;
  version : string;
  online : bool;
  status : string;
  config : string;
  platformApi : InteropPeer
}.

(** A platform connection descriptor; [application] is
    [config && config.application]. *)
Record InteropPlatform : Type := {
  type : string;
  descriptor_version : string;
  application : option string
}.

(** What a registered method does when a peer invokes it: run the callbacks
    of a channel of the local registry, or a callable of the embedder. *)
Inductive OnInvoke : Type :=
| ExecuteChannel (channel : string)
| Callable (id : nat).

Record MethodImplementation : Type := {
  implementation_name : string;
  onInvoke : OnInvoke
}.

(** The hook [addIntentListener] hands to [onMethodRegistered]: for every
    declared intent of the registered method that is named [hook_intent],
    run the callbacks of [hook_channel] with its declared context. *)
Record RegisteredHook : Type := { hook_intent : JsValue; hook_channel : string }.

(** The first argument of [invoke]: a method name or a discovered method. *)
Inductive InvokeTarget : Type :=
| ByName (full_name : string)
| ByMethod (method : Method).

Record InvokeResult : Type := { result : JsValue }.

(** The remote capability calls, indexed by what the caller gets back. *)
Inductive remoteE : Type -> Type :=
| DiscoverMethods (api : InteropPeer) : remoteE (Settled (list Method))
| Invoke (api : InteropPeer) (target : InvokeTarget) (args : JsValue)
    : remoteE (Settled InvokeResult)
| Register (api : InteropPeer) (method : MethodImplementation) : remoteE unit
| OnMethodRegistered (api : InteropPeer) (hook : RegisteredHook) : remoteE unit
| Connect (platform : InteropPlatform) (applicationName : string)
    (methods : list MethodImplementation) : remoteE (Settled InteropPeer).

(** A program over the remote calls: it returns, throws (an [async]
    function rejects), or issues a call and goes on with the answer. *)
Inductive Prog (A : Type) : Type :=
| Ret (a : A)
| Throw (e : JsError)
| Vis {X : Type} (call : remoteE X) (k : X -> Prog A).
Arguments Ret {A} a.
Arguments Throw {A} e.
Arguments Vis {A X} call k.

Fixpoint bind {A B : Type} (p : Prog A) (f : A -> Prog B) : Prog B :=
  match p with
  | Ret a => f a
  | Throw e => Throw e
  | Vis call k => Vis call (fun x => bind (k x) f)
  end.

(** [try { p } catch (error) { handler error }] *)
Fixpoint try_catch {A : Type} (p : Prog A) (handler : JsError -> Prog A) : Prog A :=
  match p with
  | Ret a => Ret a
  | Throw e => handler e
  | Vis call k => Vis call (fun x => try_catch (k x) handler)
  end.

(** [await call]: a rejection is thrown at the [await]. *)
Definition await {X : Type} (call : remoteE (Settled X)) : Prog X :=
  Vis call (fun s => match s with Resolved x => Ret x | Rejected e => Throw e end).

(** A call that returns at once. *)
Definition perform {X : Type} (call : remoteE X) : Prog X := Vis call Ret.

Definition lift {A : Type} (c : Completion A) : Prog A :=
  match c with
  | Normal a => Ret a
  | Abrupt e => Throw e
  end.

(** [for (const x of xs) body], the body updating the variables [s]. *)
Fixpoint for_each {A S : Type} (xs : list A) (body : A -> S -> Prog S) (s : S) : Prog S :=
  match xs with
  | [] => Ret s
  | x :: rest => bind (body x s) (for_each rest body)
  end.

(** [for (const x of xs) body] where the body may [return r] ([Some r]) or
    fall through to the next element ([None]). *)
Fixpoint for_of {A R : Type} (xs : list A) (body : A -> Prog (option R)) : Prog (option R) :=
  match xs with
  | [] => Ret None
  | x :: rest =>
      bind (body x) (fun r => match r with Some v => Ret (Some v) | None => for_of rest body end)
  end.

(** *** Running a program against the platforms

    The remote side answers each call; its answer may depend on every call
    issued before.  [run] gives the outcome and the calls issued, oldest
    first. *)
Definition Call : Type := { X : Type & remoteE X }.
Definition log {X : Type} (call : remoteE X) : Call := existT X call.
Definition Remote : Type := forall X : Type, list Call -> remoteE X -> X.

Fixpoint run {A : Type} (remote : Remote) (p : Prog A) (issued : list Call)
  : Settled A * list Call :=
  match p with
  | Ret a => (Resolved a, issued)
  | Throw e => (Rejected e, issued)
  | Vis call k => run remote (k (remote _ issued call)) (issued ++ [log call])
  end.

End Interop.
Import Interop.

Declare Scope prog_scope.
Delimit Scope prog_scope with prog.
Notation "x <- p ;; q" := (bind p (fun x => q))
  (at level 100, p at next level, right associativity) : prog_scope.
Notation "p ;; q" := (bind p (fun _ => q))
  (at level 100, right associativity) : prog_scope.
Local Open Scope prog_scope.

(** ** utils.ts: argument validation *)

Module Utils.

Definition validateContext (context : JsValue) : Completion unit :=
  if negb (truthy context) then Normal tt
  else if negb (String.eqb (typeof context) "object") then
    Abrupt (Error ("Context must be of type " +:+ dq +:+ "object" +:+ dq))
  else if negb (truthy (get context "type")) then
    Abrupt (Error "Context type is mandatory parameter")
  else if negb (String.eqb (typeof (get context "type")) "string") then
    Abrupt (Error ("Context type must be of type " +:+ dq +:+ "string" +:+ dq))
  else if truthy (get context "name")
          && negb (String.eqb (typeof (get context "name")) "string") then
    Abrupt (Error ("Context name must be of type " +:+ dq +:+ "string" +:+ dq))
  else Normal tt.

Definition validateIntent (intent : JsValue) : Completion unit :=
  if negb (truthy intent) then Abrupt (Error "Intent is mandatory parameter")
  else if negb (String.eqb (typeof intent) "string") then
    Abrupt (Error ("Intent must be of type " +:+ dq +:+ "string" +:+ dq))
  else Normal tt.

Definition validateOpenParams (app context : JsValue) : Completion unit :=
  if negb (truthy app) then Abrupt (Error "App is mandatory parameter")
  else if negb (String.eqb (typeof app) "string") then
    Abrupt (Error ("App must be of type " +:+ dq +:+ "string" +:+ dq))
  else
    match validateContext context with
    | Normal tt => Normal tt
    | Abrupt error => Abrupt (Error (message error))
    end.

Definition validateIntentAndContextParams (intent context : JsValue) : Completion unit :=
  match validateIntent intent with
  | Abrupt e => Abrupt e
  | Normal tt => validateContext context
  end.

Definition validateRaiseIntent (intent context target : JsValue) : Completion unit :=
  match validateIntentAndContextParams intent context with
  | Abrupt e => Abrupt e
  | Normal tt =>
      if truthy target && negb (String.eqb (typeof target) "string") then
        Abrupt (Error ("Target must be of type " +:+ dq +:+ "string" +:+ dq))
      else Normal tt
  end.

Definition validateAddIntentListener (intent handler : JsValue) : Completion unit :=
  match validateIntent intent with
  | Abrupt e => Abrupt e
  | Normal tt =>
      if negb (truthy handler) then Abrupt (Error "Handler is mandatory parameter")
      else if negb (String.eqb (typeof handler) "function") then
        Abrupt (Error ("Handler must be of type " +:+ dq +:+ "function" +:+ dq))
      else Normal tt
  end.

(** The application name a connection is made under:
    [config && config.application ? config.application : `Fdc3.${type}.Impl`]. *)
Definition connection_name (interopPlatform : InteropPlatform) : string :=
  match application interopPlatform with
  | Some configured =>
      if negb (String.eqb configured "") then configured
      else "Fdc3." +:+ type interopPlatform +:+ ".Impl"
  | None => "Fdc3." +:+ type interopPlatform +:+ ".Impl"
  end.

(** [connectUntilReady]: every tick of the 5-second interval issues one
    [connect]; a rejected attempt is dropped, the first one that resolves
    clears the interval and resolves the promise.  [ticks] bounds the ticks
    observed: [None] is a promise still pending after that many.  Every
    attempt is taken to settle before the next tick. *)
Fixpoint connectUntilReady (ticks : nat) (interopPlatform : InteropPlatform)
    (methods : list MethodImplementation) : Prog (option InteropPeer) :=
  match ticks with
  | O => Ret None
  | S ticks' =>
      let applicationName : string := connection_name interopPlatform in
      Vis (Connect interopPlatform applicationName methods)
          (fun attempt =>
             match attempt with
             | Resolved interopPeer => Ret (Some interopPeer)
             | Rejected _ => connectUntilReady ticks' interopPlatform methods
             end)
  end.

(** The timers of [setInterval] calls made one after the other with the
    same delay: at every tick they fire in the order in which they were
    started.  One tick of the tasks they drive: every task that waits at a
    call issues it and goes on with the answer; a task that has returned or
    thrown is left as it is. *)
Fixpoint tick {A : Type} (tasks : list (Prog A)) : Prog (list (Prog A)) :=
  match tasks with
  | [] => Ret []
  | task :: rest =>
      match task with
      | Vis call k => Vis call (fun x => later <- tick rest ;; Ret (k x :: later))
      | _ => later <- tick rest ;; Ret (task :: later)
      end
  end.

Fixpoint ticking {A : Type} (ticks : nat) (tasks : list (Prog A)) : Prog (list (Prog A)) :=
  match ticks with
  | O => Ret tasks
  | S ticks' => tasks' <- tick tasks ;; ticking ticks' tasks'
  end.

(** [Promise.all] over promises as they stand when the ticks observed have
    gone by; a promise that has not returned a value by then is pending.
    The result is rejected when a promise is, pending ([None]) when one of
    them is, and resolved with the values in the order of the promises
    otherwise. *)
Fixpoint promise_all {A : Type} (promises : list (Prog (option A))) : Prog (option (list A)) :=
  match promises with
  | [] => Ret (Some [])
  | promise :: rest =>
      match promise with
      | Throw e => Throw e
      | Ret (Some a) => others <- promise_all rest ;; Ret (option_map (cons a) others)
      | _ => promise_all rest ;; Ret None
      end
  end.

(** [Promise.all(interopPlatforms.map(connectUntilReady))]: [map] starts
    every timer before the first of them fires, so the connection attempts
    of the platforms alternate, tick by tick, in the order of the
    descriptors. *)
Definition connect_all (ticks : nat) (interopPlatforms : list InteropPlatform)
    (methods : list MethodImplementation) : Prog (option (list InteropPeer)) :=
  let interopPlatformsConnectionPromises :=
    map (fun interopPlatform => connectUntilReady ticks interopPlatform methods)
        interopPlatforms in
  settled <- ticking ticks interopPlatformsConnectionPromises ;;
  promise_all settled.

(** [interopPeers.map((interopPeer, index) => ...)], the name and version
    read at [index] from the descriptors. *)
Fixpoint to_platforms (interopPlatforms : list InteropPlatform)
    (interopPeers : list InteropPeer) : list Platform :=
  match interopPlatforms, interopPeers with
  | interopPlatform :: descriptors, interopPeer :: peers =>
      {| name := type interopPlatform;
         version := descriptor_version interopPlatform;
         online := isConnected interopPeer;
         status := connectionStatus interopPeer;
         config := "";
         platformApi := interopPeer |} :: to_platforms descriptors peers
  | _, _ => []
  end.

Definition interopPlatformsToPlatforms (ticks : nat)
    (interopPlatforms : list InteropPlatform) (methods : list MethodImplementation)
  : Prog (option (list Platform)) :=
  interopPeers <- connect_all ticks interopPlatforms methods ;;
  Ret (option_map (to_platforms interopPlatforms) interopPeers).

End Utils.


(** ** index.ts: the desktop agent *)

Module Fdc3Impl.

Record IntentMetadata : Type := { intent_metadata_name : string; displayName : string }.
Record AppMetadata : Type := { app_name : string }.
Record AppIntent : Type := { intent : IntentMetadata; apps : list AppMetadata }.

(** Modelled from the spec: the [callback-registry] package is not among
    the sources.  The local callback registry maps a channel to the
    callbacks registered on it; [add] returns the handle that removes the
    one registration it made. *)
Record CallbackRegistry : Type := {
  callbacks : list (nat * (string * JsValue));
  next_key : nat
}.

Definition registry_add (channel : string) (callback : JsValue) (registry : CallbackRegistry)
  : nat * CallbackRegistry :=
  (next_key registry,
   {| callbacks := callbacks registry ++ [(next_key registry, (channel, callback))];
      next_key := S (next_key registry) |}).

Definition registry_remove (key : nat) (registry : CallbackRegistry) : CallbackRegistry :=
  {| callbacks := List.filter (fun entry => negb (Nat.eqb (fst entry) key)) (callbacks registry);
     next_key := next_key registry |}.

(** A [Listener]: [unsubscribe ()] removes the registration [unsubscribe_key]. *)
Record Listener : Type := { unsubscribe_key : nat }.

Definition unsubscribe (listener : Listener) (registry : CallbackRegistry) : CallbackRegistry :=
  registry_remove (unsubscribe_key listener) registry.

(** The string held by a value whose [typeof] is ["string"]. *)
Definition string_of (v : JsValue) : string :=
  match v with
  | JStr s => s
  | _ => ""
  end.

(** [method.peer.applicationName] *)
Definition owner (method : Method) : Prog AppMetadata :=
  match method_peer method with
  | Some peer => Ret {| app_name := applicationName peer |}
  | None => Throw (TypeError "Cannot read property 'applicationName' of undefined")
  end.

(** [method.intent && method.intent.length > 0 ? method.intent : []] *)
Definition declared_intents (method : Method) : list Intent :=
  match method_intent method with
  | Some intents => intents
  | None => []
  end.

(** *** findIntent *)

Definition same_json (a b : JsValue) : bool :=
  bool_decide (stringify a = stringify b).

Definition intent_matches (intent context : JsValue) (methodIntent : Intent) : bool :=
  is_string intent (intent_name methodIntent)
  && (negb (truthy context) || same_json context (intent_context methodIntent)).

Definition push_app (appIntent : AppIntent) (app : AppMetadata) : AppIntent :=
  {| intent := intent appIntent; apps := apps appIntent ++ [app] |}.

Definition findIntent (intent context : JsValue) (platforms : list Platform) : Prog AppIntent :=
  lift (Utils.validateIntentAndContextParams intent context) ;;
  let appIntent : AppIntent :=
    {| intent := {| intent_metadata_name := string_of intent; displayName := string_of intent |};
       apps := [] |} in
  for_each platforms (fun platform appIntent =>
    methods <- await (DiscoverMethods (platformApi platform)) ;;
    for_each methods (fun method appIntent =>
      for_each (declared_intents method) (fun methodIntent appIntent =>
        if intent_matches intent context methodIntent then
          app <- owner method ;; Ret (push_app appIntent app)
        else Ret appIntent) appIntent) appIntent) appIntent.

(** *** findIntentsByContext *)

Definition named (intentName : string) (appIntent : AppIntent) : bool :=
  String.eqb (intent_metadata_name (intent appIntent)) intentName.

(** [intent.apps.push(app)] on the entry [appIntents.find(...)] returned:
    the first one with that name, updated in place. *)
Fixpoint push_to_found (intentName : string) (app : AppMetadata) (appIntents : list AppIntent)
  : list AppIntent :=
  match appIntents with
  | [] => []
  | appIntent :: rest =>
      if named intentName appIntent then push_app appIntent app :: rest
      else appIntent :: push_to_found intentName app rest
  end.

Definition record_match (intentName : string) (app : AppMetadata) (appIntents : list AppIntent)
  : list AppIntent :=
  match List.find (named intentName) appIntents with
  | Some _ => push_to_found intentName app appIntents
  | None =>
      appIntents ++ [ {| intent := {| intent_metadata_name := intentName;
                                      displayName := intentName |};
                         apps := [app] |} ]
  end.

Definition findIntentsByContext (context : JsValue) (platforms : list Platform)
  : Prog (list AppIntent) :=
  lift (Utils.validateContext context) ;;
  for_each platforms (fun platform appIntents =>
    methods <- await (DiscoverMethods (platformApi platform)) ;;
    for_each methods (fun method appIntents =>
      for_each (declared_intents method) (fun methodIntent appIntents =>
        if same_json (intent_context methodIntent) context then
          app <- owner method ;;
          Ret (record_match (intent_name methodIntent) app appIntents)
        else Ret appIntents) appIntents) appIntents) [].

(** *** broadcast *)

Definition is_context_listener (platform : Platform) (method : Method) : bool :=
  String.eqb (method_name method) ("Fdc3." +:+ name platform +:+ ".ContextListener").

(** The body of the [async] callback [forEach] runs for one platform. *)
Definition deliver (context : JsValue) (platform : Platform) : Prog unit :=
  try_catch
    (methods <- await (DiscoverMethods (platformApi platform)) ;;
     let contextListenerMethods := List.filter (is_context_listener platform) methods in
     for_each contextListenerMethods (fun method _ =>
       await (Invoke (platformApi platform) (ByMethod method) context) ;; Ret tt) tt)
    (fun _ => Ret tt).

(** [broadcast] returns once [forEach] has started one detached task per
    platform; the tasks are what it returns here. *)
Definition broadcast (context : JsValue) (platforms : list Platform)
  : Completion (list (Prog unit)) :=
  if negb (truthy context) then Abrupt (Error "Context is mandatory parameter")
  else
    match Utils.validateContext context with
    | Abrupt e => Abrupt e
    | Normal tt => Normal (map (deliver context) platforms)
    end.

(** *** raiseIntent *)

(** The callback of [methods.filter]: it returns the method at the first
    declared intent that passes, and [undefined] when none does. *)
Fixpoint serves (intent target : JsValue) (method : Method) (intents : list Intent) : bool :=
  match intents with
  | [] => false
  | methodIntent :: rest =>
      if is_string intent (intent_name methodIntent) then
        if truthy target then
          match method_peer method with
          | Some peer =>
              if is_string target (applicationName peer) then true
              else serves intent target method rest
          | None => serves intent target method rest
          end
        else true
      else serves intent target method rest
  end.

Definition with_intent (intent target : JsValue) (method : Method) : bool :=
  serves intent target method (declared_intents method).

Definition raiseIntent (intent context target : JsValue) (platforms : list Platform)
  : Prog JsValue :=
  lift (Utils.validateRaiseIntent intent context target) ;;
  returned <- for_of platforms (fun platform =>
    methods <- await (DiscoverMethods (platformApi platform)) ;;
    let methodsWithIntent := List.filter (with_intent intent target) methods in
    match methodsWithIntent with
    | [] =>
        Throw (Error ("There is no method with intent " +:+ dq +:+ string_of intent +:+ dq))
    | _ :: _ :: _ =>
        Throw (Error ("There are multiple applications with method with intent "
                        +:+ dq +:+ string_of intent +:+ dq))
    | [method] =>
        invokeResult <- await (Invoke (platformApi platform) (ByMethod method) context) ;;
        Ret (Some (result invokeResult))
    end) ;;
  Ret (default JUndefined returned).

(** *** addIntentListener, addContextListener

    Both are synchronous: a [Throw] is an exception thrown to the caller.
    The registry is the module-level [registry], passed in and out. *)

Definition addIntentListener (intent handler : JsValue) (platforms : list Platform)
    (registry : CallbackRegistry) : Prog (Listener * CallbackRegistry) :=
  lift (Utils.validateAddIntentListener intent handler) ;;
  let '(key, registry) := registry_add "add-intent" handler registry in
  for_each platforms (fun platform _ =>
    perform (OnMethodRegistered (platformApi platform)
               {| hook_intent := intent; hook_channel := "add-intent" |})) tt ;;
  Ret ({| unsubscribe_key := key |}, registry).

Definition addContextListener (handler : JsValue) (platforms : list Platform)
    (registry : CallbackRegistry) : Prog (Listener * CallbackRegistry) :=
  if negb (truthy handler) then Throw (Error "Handler is mandatory parameter")
  else if negb (String.eqb (typeof handler) "function") then
    Throw (Error ("Handler must be of type " +:+ dq +:+ "function" +:+ dq))
  else
    let '(key, registry) := registry_add "add-context" handler registry in
    for_each platforms (fun platform _ =>
      let method : MethodImplementation :=
        {| implementation_name := "Fdc3." +:+ name platform +:+ ".ContextListener";
           onInvoke := ExecuteChannel "add-context" |} in
      perform (Register (platformApi platform) method)) tt ;;
    Ret ({| unsubscribe_key := key |}, registry).

(** *** The callbacks behind the listeners *)

(** Modelled from the spec: [registry.execute(channel, argument)] calls
    every callback registered on the channel with the argument, in the
    order of registration; the calls are listed as callback and argument. *)
Definition registry_execute (channel : string) (argument : JsValue)
    (registry : CallbackRegistry) : list (JsValue * JsValue) :=
  map (fun entry => (snd (snd entry), argument))
      (List.filter (fun entry => String.eqb (fst (snd entry)) channel) (callbacks registry)).

(** The callback [addIntentListener] hands to [onMethodRegistered], run
    for a method the platform reports: one [execute] per declared intent
    named as the hook's intent, with the declared context. *)
Definition on_method_registered (hook : RegisteredHook) (method : Method)
    (registry : CallbackRegistry) : list (JsValue * JsValue) :=
  flat_map (fun methodIntent =>
              if is_string (hook_intent hook) (intent_name methodIntent)
              then registry_execute (hook_channel hook) (intent_context methodIntent) registry
              else [])
           (declared_intents method).

(** *** open *)

(** [s.split(sep)] for a one-character separator. *)
Fixpoint split (sep : ascii) (s : string) : list string :=
  match s with
  | "" => [""]
  | String c rest =>
      if Ascii.eqb c sep then "" :: split sep rest
      else
        match split sep rest with
        | first :: others => String c first :: others
        | [] => [String c ""]
        end
  end.

(** [null] is [None]. *)
Definition getPlatformName (app : string) : option string :=
  let splitAppName := split ":" app in
  if (1 <? length splitAppName)%nat then List.last (map Some splitAppName) None else None.

Definition getApplicationName (app : string) : string :=
  let splitAppName := split ":" app in
  if (1 <? length splitAppName)%nat then String.concat ":" (removelast splitAppName)
  else app.

(** The truth value of a [string | null]. *)
Definition given (platformName : option string) : bool :=
  match platformName with
  | Some s => negb (String.eqb s "")
  | None => false
  end.

Definition getUniquePlatform (platformName : string) (platforms : list Platform)
  : Completion Platform :=
  let fdc3Platforms :=
    List.filter (fun fdc3Platform => String.eqb (name fdc3Platform) platformName) platforms in
  match fdc3Platforms with
  | [] => Abrupt (Error ("There is no platform named " +:+ dq +:+ platformName +:+ dq))
  | _ :: _ :: _ =>
      Abrupt (Error ("There are multiple platforms named " +:+ dq +:+ platformName +:+ dq))
  | [platform] => Normal platform
  end.

Definition platformHasMethod (platform : Platform) (platformMethods : list Method)
    (methodName : string) : bool :=
  let methodFullName := "Fdc3." +:+ name platform +:+ "." +:+ methodName in
  (0 <? length (List.filter (fun method => String.eqb (method_name method) methodFullName)
                            platformMethods))%nat.

(** [platformApplications.filter(application => application.name === app)]
    on a result that is typed [any]. *)
Fixpoint named_applications (app : string) (applications : list JsValue)
  : Completion (list JsValue) :=
  match applications with
  | [] => Normal []
  | application :: rest =>
      match application with
      | JUndefined | JNull => Abrupt (TypeError "Cannot read property 'name' of undefined")
      | _ =>
          match named_applications app rest with
          | Abrupt e => Abrupt e
          | Normal kept =>
              Normal (if is_string (get application "name") app then application :: kept
                      else kept)
          end
      end
  end.

Definition filter_applications (app : string) (platformApplications : JsValue)
  : Completion (list JsValue) :=
  match platformApplications with
  | JArr applications => named_applications app applications
  | _ => Abrupt (TypeError "platformApplications.filter is not a function")
  end.

Definition platformHasProvidedApp (platform : Platform) (app : string) : Prog bool :=
  let listApplicationsMethodName := "Fdc3." +:+ name platform +:+ ".ListApplications" in
  listed <- try_catch
    (listApplicationsInvocation <-
       await (Invoke (platformApi platform) (ByName listApplicationsMethodName) JUndefined) ;;
     Ret (Some (result listApplicationsInvocation)))
    (fun _ => Ret None) ;;
  match listed with
  | None => Ret false
  | Some platformApplications =>
      providedAppList <- lift (filter_applications app platformApplications) ;;
      if (1 <? length providedAppList)%nat then
        Throw (Error ("There are multiple applications named '" +:+ app +:+ "'."))
      else Ret (length providedAppList =? 1)%nat
  end.

(** The platforms that expose [methodName], each asked again for its
    methods. *)
Definition platforms_supporting (methodName : string) (platforms : list Platform)
  : Prog (list Platform) :=
  for_each platforms (fun platform supporting =>
    platformMethods <- await (DiscoverMethods (platformApi platform)) ;;
    if platformHasMethod platform platformMethods methodName then Ret (supporting ++ [platform])
    else Ret supporting) [].

Definition platforms_with_app (appName : string) (platforms : list Platform)
  : Prog (list Platform) :=
  for_each platforms (fun platform withApp =>
    platformHasProvidedApp <- platformHasProvidedApp platform appName ;;
    if platformHasProvidedApp : bool then Ret (withApp ++ [platform]) else Ret withApp) [].

(** [defaultErrorMessage] is the field [open] has just assigned; [None] is
    the [undefined] that element 0 of an empty array is. *)
Definition getPlatform (defaultErrorMessage : string) (appName : string)
    (platformName : option string) (platforms : list Platform) : Prog (option Platform) :=
  if given platformName then
    try_catch
      (platform <- lift (getUniquePlatform (default "" platformName) platforms) ;;
       Ret (Some platform))
      (fun error => Throw (Error (or_default (message error) defaultErrorMessage)))
  else
    platformsSupportingListApplicationsMethod <-
      platforms_supporting "ListApplications" platforms ;;
    platformsWithProvidedApp <-
      platforms_with_app appName platformsSupportingListApplicationsMethod ;;
    match platformsWithProvidedApp with
    | [] =>
        Throw (Error ("There are no platforms with application named '" +:+ appName +:+ "'."))
    | _ :: _ :: _ =>
        Throw (Error ("There are multiple platforms with application named '"
                        +:+ appName +:+ "'."))
    | [_] =>
        platformsSupportingStartApplicationMethod <-
          platforms_supporting "StartApplication" platformsWithProvidedApp ;;
        Ret (head platformsSupportingStartApplicationMethod)
    end.

(** [this.defaultErrorMessage] is a field of the engine, which line 40 of
    [open] assigns and the handlers of lines 45 and 54 read.  [open] is a
    call that no other call of [open] on the same engine overlaps: the
    handlers read what line 40 assigned.  [open_overlapped] below is the
    call in general. *)
Definition open (app context : JsValue) (platforms : list Platform) : Prog JsValue :=
  lift (Utils.validateOpenParams app context) ;;
  let platformName := getPlatformName (string_of app) in
  let appName :=
    if given platformName then getApplicationName (string_of app) else string_of app in
  let defaultErrorMessage := "Unable to start application named " +:+ dq +:+ appName +:+ dq in
  platform <- try_catch
    (if given platformName then getPlatform defaultErrorMessage appName platformName platforms
     else getPlatform defaultErrorMessage (string_of app) None platforms)
    (fun error => Throw (Error (or_default (message error) defaultErrorMessage))) ;;
  let args := JObj [("application", JStr appName); ("context", context)] in
  match platform with
  | None => Throw (TypeError "Cannot read property 'name' of undefined")
  | Some platform =>
      let methodName := "Fdc3." +:+ name platform +:+ ".StartApplication" in
      try_catch
        (startInvokeResult <- await (Invoke (platformApi platform) (ByName methodName) args) ;;
         Ret (result startInvokeResult))
        (fun _ => Throw (Error defaultErrorMessage))
  end.

(** The calls of [open] on one engine share the field: a handler runs after
    an await, and a call of [open] that started in the meantime has
    assigned the field again.  [Overlap] gives, for each handler, the
    application name of the call of [open] that assigned the field last
    before the handler reads it, when that is not the call that reads;
    [None] when it is.  The read of line 233 in [getPlatform] is made
    before the first await of the call, and gets what line 40 assigned. *)
Inductive Handler : Type := GetPlatformFailed | StartFailed.

Definition Overlap : Type := Handler -> option string.

Definition assigned_last (overlap : Overlap) (handler : Handler) (appName : string) : string :=
  default appName (overlap handler).

Definition open_overlapped (overlap : Overlap) (app context : JsValue)
    (platforms : list Platform) : Prog JsValue :=
  lift (Utils.validateOpenParams app context) ;;
  let platformName := getPlatformName (string_of app) in
  let appName :=
    if given platformName then getApplicationName (string_of app) else string_of app in
  let defaultErrorMessage (assigned : string) :=
    "Unable to start application named " +:+ dq +:+ assigned +:+ dq in
  platform <- try_catch
    (if given platformName
     then getPlatform (defaultErrorMessage appName) appName platformName platforms
     else getPlatform (defaultErrorMessage appName) (string_of app) None platforms)
    (fun error =>
       Throw (Error (or_default (message error)
                       (defaultErrorMessage (assigned_last overlap GetPlatformFailed appName))))) ;;
  let args := JObj [("application", JStr appName); ("context", context)] in
  match platform with
  | None => Throw (TypeError "Cannot read property 'name' of undefined")
  | Some platform =>
      let methodName := "Fdc3." +:+ name platform +:+ ".StartApplication" in
      try_catch
        (startInvokeResult <- await (Invoke (platformApi platform) (ByName methodName) args) ;;
         Ret (result startInvokeResult))
        (fun _ => Throw (Error (defaultErrorMessage (assigned_last overlap StartFailed appName))))
  end.

End Fdc3Impl.

(** ** Fdc3Bus *)

(** The engine [new Fdc3Impl(platforms)] is its platform list.  [None] is a
    promise still pending when [ticks] ticks of every connection timer have
    gone by. *)
Definition Fdc3Bus (ticks : nat) (interopPlatforms : list InteropPlatform)
    (methods : list MethodImplementation) : Prog (option (list Platform)) :=
  let interopPlatformNames : list string := map type interopPlatforms in
  let interopPlatformNamesSet : gset string := list_to_set interopPlatformNames in
  if negb (length interopPlatformNames =? size interopPlatformNamesSet)%nat then
    Throw (Error "Multiple platforms have the same type.")
  else
    platforms <- Utils.interopPlatformsToPlatforms ticks interopPlatforms methods ;;
    Ret platforms.

Import Fdc3Impl.

(** * The vocabulary of the properties

    Concrete desktops, and the notions the statements below are written
    with. *)

(** ** Concrete desktops

    A remote side whose answers do not depend on the calls issued before:
    each peer, found by its [peer_id], answers [discoverMethods] with a
    fixed outcome and [invoke] by a fixed function; [register] and
    [onMethodRegistered] return; a connection attempt is answered from the
    attempts made so far. *)

Record Desk : Type := {
  desk_methods : Settled (list Method);
  desk_invoke : InvokeTarget -> JsValue -> Settled InvokeResult
}.

Definition is_connect (platformType : string) (call : Call) : bool :=
  match projT2 call with
  | Connect interopPlatform _ _ => String.eqb (type interopPlatform) platformType
  | _ => false
  end.

Definition remote_of (desks : nat -> Desk)
    (connect : InteropPlatform -> nat -> Settled InteropPeer) : Remote :=
  fun X issued call =>
    match call in remoteE X return X with
    | DiscoverMethods api => desk_methods (desks (peer_id api))
    | Invoke api target args => desk_invoke (desks (peer_id api)) target args
    | Register _ _ => tt
    | OnMethodRegistered _ _ => tt
    | Connect interopPlatform _ _ =>
        connect interopPlatform
                (length (List.filter (is_connect (type interopPlatform)) issued))
    end.

Definition peer (id : nat) : InteropPeer :=
  {| peer_id := id; isConnected := true; connectionStatus := "connected" |}.

Definition platform (platformName : string) (id : nat) : Platform :=
  {| name := platformName; version := "1"; online := true; status := "connected";
     config := ""; platformApi := peer id |}.

Definition method (methodName : string) (intents : list Intent) (app : string) : Method :=
  {| method_name := methodName; method_intent := Some intents;
     method_peer := Some {| applicationName := app |} |}.

Definition unreachable : Settled InteropPeer := Rejected (Error "unreachable").
Definition no_invoke : InvokeTarget -> JsValue -> Settled InvokeResult :=
  fun _ _ => Rejected (Error "no such method").
Definition echo : InvokeTarget -> JsValue -> Settled InvokeResult :=
  fun _ args => Resolved {| result := args |}.

(** ** Validation comes first *)

(** An argument that must be a string and is missing or is not one; a
    handler that is missing or is not callable. *)
Definition bad_string (v : JsValue) : bool :=
  negb (truthy v) || negb (String.eqb (typeof v) "string").

Definition bad_handler (handler : JsValue) : bool :=
  negb (truthy handler) || negb (String.eqb (typeof handler) "function").

(** A context that is given (truthy) and is not an object, or has no
    string [type], or has a [name] that is given and is not a string. *)
Definition malformed_context (context : JsValue) : bool :=
  truthy context
  && (negb (String.eqb (typeof context) "object")
      || negb (truthy (get context "type"))
      || negb (String.eqb (typeof (get context "type")) "string")
      || (truthy (get context "name")
          && negb (String.eqb (typeof (get context "name")) "string"))).

(** A target that is given and is not a string. *)
Definition malformed_target (target : JsValue) : bool :=
  truthy target && negb (String.eqb (typeof target) "string").

(** The program fails at its root: nothing is called before the error. *)
Definition fails_at_once {A : Type} (p : Prog A) : Prop :=
  exists m : string, p = Throw (Error m).

Definition empty_registry : CallbackRegistry := {| callbacks := []; next_key := 0 |}.

(** One platform that exposes nothing. *)
Definition bare_desks (id : nat) : Desk :=
  {| desk_methods := Resolved []; desk_invoke := no_invoke |}.
Definition bare : Remote := remote_of bare_desks (fun _ _ => unreachable).

(** ** raiseIntent *)

Definition instrument : JsValue :=
  JObj [("type", JStr "fdc3.instrument"); ("name", JStr "IBM")].

Definition viewChart (context : JsValue) : Intent :=
  {| intent_name := "ViewChart"; intent_context := context |}.

Definition chart_method : Method := method "Fdc3.B.ViewChart" [viewChart instrument] "charts".

(** Platform 0 exposes nothing; platform 1 exposes one method that serves
    [ViewChart] and answers an invocation with its argument. *)
Definition chart_desks (id : nat) : Desk :=
  match id with
  | 1 => {| desk_methods := Resolved [chart_method]; desk_invoke := echo |}
  | _ => {| desk_methods := Resolved []; desk_invoke := no_invoke |}
  end.

Definition chart_remote : Remote := remote_of chart_desks (fun _ _ => unreachable).

(** ** Fdc3Bus *)

(** The attempt to connect [interopPlatform]. *)
Definition attempt (interopPlatform : InteropPlatform) (methods : list MethodImplementation)
  : remoteE (Settled InteropPeer) :=
  Connect interopPlatform (Utils.connection_name interopPlatform) methods.

(** The attempts made so far to connect a platform of the type of
    [interopPlatform]. *)
Definition attempts_on (interopPlatform : InteropPlatform) (issued : list Call) : nat :=
  length (List.filter (is_connect (type interopPlatform)) issued).

(** The platform accepts a connection by its [ticks]-th attempt at the
    latest, whatever else has been called. *)
Definition connects_within (remote : Remote) (ticks : nat)
    (methods : list MethodImplementation) (interopPlatform : InteropPlatform) : Prop :=
  0 < ticks /\
  forall issued : list Call,
    ticks <= S (attempts_on interopPlatform issued) ->
    exists interopPeer : InteropPeer,
      remote _ issued (attempt interopPlatform methods) = Resolved interopPeer.

(** Among the calls issued there is an attempt to connect the platform that
    was answered with [interopPeer]. *)
Definition connected (remote : Remote) (methods : list MethodImplementation)
    (issued : list Call) (interopPlatform : InteropPlatform) (interopPeer : InteropPeer)
  : Prop :=
  exists before after : list Call,
    issued = before ++ log (attempt interopPlatform methods) :: after /\
    remote _ before (attempt interopPlatform methods) = Resolved interopPeer.

(** One turn of a task: from the call it waits at to the next. *)
Definition advance {A : Type} (remote : Remote) (task : Prog A) (issued : list Call)
  : Prog A * list Call :=
  match task with
  | Vis call k => (k (remote _ issued call), issued ++ [log call])
  | _ => (task, issued)
  end.

(** Where the connection of a platform stands after [round] ticks, when the
    platform connects within [ticks]: connected, or still trying with the
    ticks that are left. *)
Definition connecting (remote : Remote) (ticks : nat) (methods : list MethodImplementation)
    (round : nat) (issued : list Call) (interopPlatform : InteropPlatform)
    (task : Prog (option InteropPeer)) : Prop :=
  connects_within remote ticks methods interopPlatform /\
  ((exists interopPeer,
       task = Ret (Some interopPeer) /\
       connected remote methods issued interopPlatform interopPeer)
   \/ (round < ticks /\
       task = Utils.connectUntilReady (ticks - round) interopPlatform methods /\
       round <= attempts_on interopPlatform issued)).

(** Where it stands whatever the platform answers: still a timer, or
    connected. *)
Definition timer_of (remote : Remote) (methods : list MethodImplementation)
    (issued : list Call) (interopPlatform : InteropPlatform)
    (task : Prog (option InteropPeer)) : Prop :=
  (exists ticks, task = Utils.connectUntilReady ticks interopPlatform methods)
  \/ (exists interopPeer,
         task = Ret (Some interopPeer) /\
         connected remote methods issued interopPlatform interopPeer).

Definition descriptor (platformType : string) : InteropPlatform :=
  {| type := platformType; descriptor_version := "1"; application := None |}.

(** Platform [A] refuses its first two connection attempts; every other
    platform accepts the first. *)
Definition slow_connect (interopPlatform : InteropPlatform) (attempts : nat)
  : Settled InteropPeer :=
  if String.eqb (type interopPlatform) "A" then
    if (attempts <? 2)%nat then unreachable else Resolved (peer 0)
  else Resolved (peer 1).

Definition slow : Remote := remote_of bare_desks slow_connect.

(** ** findIntent and findIntentsByContext: what the scan collects *)

(** One round of discovery, platform by platform. *)
Fixpoint discover_all (platforms : list Platform) : Prog (list (list Method)) :=
  match platforms with
  | [] => Ret []
  | platform :: rest =>
      methods <- await (DiscoverMethods (platformApi platform)) ;;
      others <- discover_all rest ;;
      Ret (methods :: others)
  end.

(** The declared intent entries of the methods, each with its method, in
    method order and, within a method, in declaration order. *)
Definition entries (methods : list Method) : list (Method * Intent) :=
  flat_map (fun method => map (pair method) (declared_intents method)) methods.

(** The entries that pass [keep], each with the application that owns its
    method. *)
Definition hit_of (keep : Intent -> bool) (entry : Method * Intent)
  : list (Intent * AppMetadata) :=
  if keep (snd entry) then
    match method_peer (fst entry) with
    | Some peer => [(snd entry, {| app_name := applicationName peer |})]
    | None => []
    end
  else [].

Definition hits (keep : Intent -> bool) (methods : list Method) : list (Intent * AppMetadata) :=
  flat_map (hit_of keep) (entries methods).

(** Every entry that passes [keep] belongs to a method that names its
    peer. *)
Definition owned (keep : Intent -> bool) (methods : list Method) : Prop :=
  Forall (fun entry => keep (snd entry) = true -> method_peer (fst entry) <> None)
         (entries methods).

(** The three nested loops that [findIntent] and [findIntentsByContext]
    share, over the variables [s] they update: the step for one declared
    intent, for one method, and the whole scan. *)
Definition scan_intent {S : Type} (keep : Intent -> bool) (add : Intent -> AppMetadata -> S -> S)
    (method : Method) (methodIntent : Intent) (s : S) : Prog S :=
  if keep methodIntent then app <- owner method ;; Ret (add methodIntent app s)
  else Ret s.

Definition scan_method {S : Type} (keep : Intent -> bool) (add : Intent -> AppMetadata -> S -> S)
    (method : Method) (s : S) : Prog S :=
  for_each (declared_intents method) (scan_intent keep add method) s.

Definition scan {S : Type} (keep : Intent -> bool) (add : Intent -> AppMetadata -> S -> S)
    (platforms : list Platform) (s : S) : Prog S :=
  for_each platforms (fun platform s =>
    methods <- await (DiscoverMethods (platformApi platform)) ;;
    for_each methods (scan_method keep add) s) s.

(** One step of the fold: the update [add] makes for one hit. *)
Definition add_hit {S : Type} (add : Intent -> AppMetadata -> S -> S) (s : S)
    (hit : Intent * AppMetadata) : S :=
  add (fst hit) (snd hit) s.

(** The entries named [intentName]. *)
Definition named_intent (intentName : string) (methodIntent : Intent) : bool :=
  String.eqb intentName (intent_name methodIntent).

(** Platform 0 exposes two methods of two applications for [ViewChart] and
    one for [ViewNews]; platform 1 exposes a method of the first
    application that declares [ViewChart] twice. *)
Definition two_chart_desks (id : nat) : Desk :=
  match id with
  | 0 => {| desk_methods :=
              Resolved [method "chart" [viewChart instrument] "charts";
                        method "news" [{| intent_name := "ViewNews";
                                          intent_context := instrument |}] "news";
                        method "plot" [viewChart JUndefined] "plots"];
            desk_invoke := echo |}
  | _ => {| desk_methods :=
              Resolved [method "chart" [viewChart instrument; viewChart JNull] "charts"];
            desk_invoke := echo |}
  end.

Definition two_chart_remote : Remote := remote_of two_chart_desks (fun _ _ => unreachable).

(** ** findIntentsByContext: grouping by intent name *)

(** The names of a sequence in the order in which each is first seen. *)
Fixpoint first_seen (names : list string) : list string :=
  match names with
  | [] => []
  | x :: rest => x :: List.filter (fun y => negb (String.eqb y x)) (first_seen rest)
  end.

(** The [AppIntent] of an intent name and its applications. *)
Definition app_intent (intentName : string) (applications : list AppMetadata) : AppIntent :=
  {| intent := {| intent_metadata_name := intentName; displayName := intentName |};
     apps := applications |}.

(** Grouping as the specification words it: one entry per intent name, in
    first-seen order, listing the applications of the matches with that
    name in the order of the matches. *)
Definition group_by_intent (found : list (string * AppMetadata)) : list AppIntent :=
  map (fun intentName =>
         app_intent intentName
           (map snd (List.filter (fun hit => String.eqb (fst hit) intentName) found)))
      (first_seen (map fst found)).

(** The applications listed under [x] once [app] has been recorded under
    [intentName]. *)
Definition updated (intentName : string) (app : AppMetadata)
    (old : string -> list AppMetadata) (x : string) : list AppMetadata :=
  old x ++ (if String.eqb intentName x then [app] else []).

(** A hit as the name of its intent and its application. *)
Definition named_hit (hit : Intent * AppMetadata) : string * AppMetadata :=
  (intent_name (fst hit), snd hit).

(** The declared intents whose context serialises as [context] does. *)
Definition for_context (context : JsValue) (methodIntent : Intent) : bool :=
  same_json (intent_context methodIntent) context.

Definition contact : JsValue := JObj [("type", JStr "fdc3.contact"); ("name", JStr "Ada")].

(** Platform [A] offers [Call]; platform [B] offers [Call] and [Chat]; all
    three for the same context. *)
Definition call_desks (id : nat) : Desk :=
  match id with
  | 0 => {| desk_methods :=
              Resolved [method "call" [{| intent_name := "Call"; intent_context := contact |}]
                               "phone"];
            desk_invoke := echo |}
  | _ => {| desk_methods :=
              Resolved [method "chat" [{| intent_name := "Chat"; intent_context := contact |}]
                               "messenger";
                        method "call" [{| intent_name := "Call"; intent_context := contact |}]
                               "messenger"];
            desk_invoke := echo |}
  end.

Definition call_remote : Remote := remote_of call_desks (fun _ _ => unreachable).

(** ** open *)

(** A remote side is steady when its answers do not depend on the calls
    issued before. *)
Definition steady (remote : Remote) : Prop :=
  forall (X : Type) (issued issued' : list Call) (call : remoteE X),
    remote X issued call = remote X issued' call.

(** The two invocations [open] makes on a platform. *)
Definition listApplications (platform : Platform) : remoteE (Settled InvokeResult) :=
  Invoke (platformApi platform) (ByName ("Fdc3." +:+ name platform +:+ ".ListApplications"))
         JUndefined.

Definition startApplication (platform : Platform) (appName : string) (context : JsValue)
  : remoteE (Settled InvokeResult) :=
  Invoke (platformApi platform) (ByName ("Fdc3." +:+ name platform +:+ ".StartApplication"))
         (JObj [("application", JStr appName); ("context", context)]).

(** The platform's discovery resolves with methods among which is its
    [methodName] capability. *)
Definition exposes (remote : Remote) (methodName : string) (platform : Platform) : bool :=
  match remote _ [] (DiscoverMethods (platformApi platform)) with
  | Resolved platformMethods => platformHasMethod platform platformMethods methodName
  | Rejected _ => false
  end.

(** The platform's [ListApplications] resolves with a list in which exactly
    one application is named [app]. *)
Definition lists (remote : Remote) (app : string) (platform : Platform) : bool :=
  match remote _ [] (listApplications platform) with
  | Resolved listing =>
      match filter_applications app (result listing) with
      | Normal [_] => true
      | _ => false
      end
  | Rejected _ => false
  end.

(** A candidate platform (one with the [ListApplications] capability) that
    lists an application named [app]. *)
Definition offers (remote : Remote) (app : string) (platform : Platform) : bool :=
  exposes remote "ListApplications" platform && lists remote app platform.

(** The platform's discovery resolves. *)
Definition discoverable (remote : Remote) (platform : Platform) : Prop :=
  exists platformMethods : list Method,
    remote _ [] (DiscoverMethods (platformApi platform)) = Resolved platformMethods.

(** Whatever [ListApplications] resolves with on the platform is a list of
    applications in which at most one is named [app]. *)
Definition lists_at_most_once (remote : Remote) (app : string) (platform : Platform) : Prop :=
  forall listing : InvokeResult,
    remote _ [] (listApplications platform) = Resolved listing ->
    exists named : list JsValue,
      filter_applications app (result listing) = Normal named /\ length named <= 1.

(** The calls the resolution of an unqualified name issues: one discovery
    per platform, then one [ListApplications] per platform that has the
    capability. *)
Definition resolution_calls (remote : Remote) (platforms : list Platform) : list Call :=
  map (fun platform => log (DiscoverMethods (platformApi platform))) platforms
  ++ map (fun platform => log (listApplications platform))
         (List.filter (exposes remote "ListApplications") platforms).

Definition named_application (applicationName : string) : JsValue :=
  JObj [("name", JStr applicationName)].

Definition launcher_invoke (listName startName : string) (applications : list JsValue)
  : InvokeTarget -> JsValue -> Settled InvokeResult :=
  fun target args =>
    match target with
    | ByName full_name =>
        if String.eqb full_name listName then Resolved {| result := JArr applications |}
        else if String.eqb full_name startName then
          Resolved {| result := JObj [("started", args)] |}
        else Rejected (Error "no such method")
    | ByMethod _ => Rejected (Error "no such method")
    end.

(** Platform [A] lists an editor and a chart application and can start
    applications; platform [B] lists a chart application and cannot;
    platform [C] has no capability at all. *)
Definition launcher_desks (id : nat) : Desk :=
  match id with
  | 0 => {| desk_methods :=
              Resolved [method "Fdc3.A.ListApplications" [] "A";
                        method "Fdc3.A.StartApplication" [] "A"];
            desk_invoke :=
              launcher_invoke "Fdc3.A.ListApplications" "Fdc3.A.StartApplication"
                [named_application "editor"; named_application "charts"] |}
  | 1 => {| desk_methods := Resolved [method "Fdc3.B.ListApplications" [] "B"];
            desk_invoke :=
              launcher_invoke "Fdc3.B.ListApplications" "Fdc3.B.StartApplication"
                [named_application "charts"] |}
  | _ => {| desk_methods := Resolved []; desk_invoke := no_invoke |}
  end.

Definition launcher : Remote := remote_of launcher_desks (fun _ _ => unreachable).

Definition three_platforms : list Platform := [platform "A" 0; platform "B" 1; platform "C" 2].

(** A platform that can list and start applications and lists two
    applications named editor. *)
Definition twice_desks (id : nat) : Desk :=
  {| desk_methods :=
       Resolved [method "Fdc3.A.ListApplications" [] "A";
                 method "Fdc3.A.StartApplication" [] "A"];
     desk_invoke :=
       launcher_invoke "Fdc3.A.ListApplications" "Fdc3.A.StartApplication"
         [named_application "editor"; named_application "editor"] |}.

Definition twice : Remote := remote_of twice_desks (fun _ _ => unreachable).

(** A platform that lists an editor and declares the start capability, but
    rejects its invocation. *)
Definition stalled_desks (id : nat) : Desk :=
  {| desk_methods :=
       Resolved [method "Fdc3.A.ListApplications" [] "A";
                 method "Fdc3.A.StartApplication" [] "A"];
     desk_invoke :=
       launcher_invoke "Fdc3.A.ListApplications" "" [named_application "editor"] |}.

Definition stalled : Remote := remote_of stalled_desks (fun _ _ => unreachable).

(** A platform whose discovery is rejected. *)
Definition down_desks (id : nat) : Desk :=
  {| desk_methods := Rejected (Error "platform is down"); desk_invoke := no_invoke |}.

Definition down : Remote := remote_of down_desks (fun _ _ => unreachable).

(** ** broadcast: detached tasks

    The tasks [broadcast] starts run interleaved: a turn of task [i] takes
    it from one remote call to the next.  A schedule is the sequence of the
    turns; the calls are recorded in the order in which they are answered. *)

Definition resume (remote : Remote) (task : Prog unit) (issued : list Call)
  : Prog unit * list Call :=
  match task with
  | Vis call k => (k (remote _ issued call), issued ++ [log call])
  | _ => (task, issued)
  end.

Fixpoint interleave (remote : Remote) (schedule : list nat) (pool : list (Prog unit))
    (issued : list Call) : list (Prog unit) * list Call :=
  match schedule with
  | [] => (pool, issued)
  | i :: later =>
      match pool !! i with
      | Some task =>
          let '(task', issued') := resume remote task issued in
          interleave remote later (<[i := task']> pool) issued'
      | None => interleave remote later pool issued
      end
  end.

(** A program that cannot end in [Throw], whatever it is answered. *)
Inductive never_throws {A : Type} : Prog A -> Prop :=
| never_throws_ret (a : A) : never_throws (Ret a)
| never_throws_vis (X : Type) (call : remoteE X) (k : X -> Prog A) :
    (forall x : X, never_throws (k x)) -> never_throws (Vis call k).

(** The rest of a delivery: the context-listener methods still to invoke. *)
Definition deliver_to (context : JsValue) (platform : Platform)
    (contextListenerMethods : list Method) : Prog unit :=
  try_catch
    (for_each contextListenerMethods (fun method _ =>
       await (Invoke (platformApi platform) (ByMethod method) context) ;; Ret tt) tt)
    (fun _ => Ret tt).

Definition context_listeners (platform : Platform) (methods : list Method) : list Method :=
  List.filter (is_context_listener platform) methods.

Definition delivered (context : JsValue) (platform : Platform) (issued : list Call)
    (method : Method) : Prop :=
  In (log (Invoke (platformApi platform) (ByMethod method) context)) issued.

(** The platform answers every discovery with [methods] and resolves every
    invocation of one of its context listeners, whatever was called before. *)
Definition reachable (remote : Remote) (context : JsValue) (platform : Platform)
    (methods : list Method) : Prop :=
  (forall issued, remote _ issued (DiscoverMethods (platformApi platform)) = Resolved methods) /\
  (forall issued method,
      In method (context_listeners platform methods) ->
      exists answer,
        remote _ issued (Invoke (platformApi platform) (ByMethod method) context)
        = Resolved answer).

(** The turns task [i] gets in a schedule. *)
Definition turns (i : nat) (schedule : list nat) : nat :=
  length (List.filter (Nat.eqb i) schedule).

(** Where task [i], the delivery to [platform], stands: not started, or
    through the listeners [done] with [rest] to go; [left] is the number of
    turns it still needs. *)
Definition at_stage (context : JsValue) (i : nat) (platform : Platform) (methods : list Method)
    (pool : list (Prog unit)) (issued : list Call) (left : nat) : Prop :=
  (pool !! i = Some (deliver context platform)
   /\ left = S (length (context_listeners platform methods)))
  \/ (exists done rest : list Method,
         context_listeners platform methods = done ++ rest
         /\ pool !! i = Some (deliver_to context platform rest)
         /\ Forall (delivered context platform issued) done
         /\ left = length rest).

(** Three platforms with one context listener each; the discovery of the
    second is rejected. *)
Definition listener (platformName : string) : Method :=
  method ("Fdc3." +:+ platformName +:+ ".ContextListener") [] platformName.

Definition listening_desks (id : nat) : Desk :=
  match id with
  | 0 => {| desk_methods := Resolved [listener "A"; method "Fdc3.A.Other" [] "A"];
            desk_invoke := echo |}
  | 1 => {| desk_methods := Rejected (Error "platform is down"); desk_invoke := no_invoke |}
  | _ => {| desk_methods := Resolved [listener "C"]; desk_invoke := echo |}
  end.

Definition listening : Remote := remote_of listening_desks (fun _ _ => unreachable).

Local Open Scope char_scope.

(** ** JSON.stringify tells JSON data apart *)

(** The values JSON can express: no [undefined] and no callable, at any
    depth. *)
Fixpoint json_data (v : JsValue) : bool :=
  match v with
  | JUndefined | JFun _ => false
  | JNull | JBool _ | JNum _ | JStr _ => true
  | JArr items => forallb json_data items
  | JObj props => forallb (fun prop => let '(_, x) := prop in json_data x) props
  end.

(** The serialisation of JSON data, as a total function. *)
Fixpoint text (v : JsValue) : string :=
  match v with
  | JUndefined | JFun _ | JNull => "null"
  | JBool b => if b then "true" else "false"
  | JNum z => number_to_string z
  | JStr s => QuoteJSONString s
  | JArr items => "[" +:+ String.concat "," (map text items) +:+ "]"
  | JObj props =>
      "{" +:+ String.concat ","
                (map (fun prop => let '(k, x) := prop in
                                  QuoteJSONString k +:+ ":" +:+ text x) props) +:+ "}"
  end.

(** *** Strings: cancellation and spans *)

Fixpoint every (P : ascii -> bool) (s : string) : bool :=
  match s with
  | EmptyString => true
  | String c rest => P c && every P rest
  end.

(** [r] is empty or starts with a character outside [P]. *)
Definition stops (P : ascii -> bool) (r : string) : bool :=
  match r with
  | EmptyString => true
  | String c _ => negb (P c)
  end.

(** *** What may follow a value inside a text: nothing, or [,], []], [}] *)

Definition delimiter (c : ascii) : bool :=
  Ascii.eqb c "," || Ascii.eqb c "]" || Ascii.eqb c "}".

Definition delimited (r : string) : bool :=
  match r with
  | EmptyString => true
  | String c _ => delimiter c
  end.

(** *** Numbers *)

Definition number_char (c : ascii) : bool :=
  existsb (Ascii.eqb c) ["-"; "0"; "1"; "2"; "3"; "4"; "5"; "6"; "7"; "8"; "9"].

(** *** Strings *)

Definition unhex (c : ascii) : option nat :=
  (fix find (digits : list ascii) (n : nat) : option nat :=
     match digits with
     | [] => None
     | d :: rest => if Ascii.eqb c d then Some n else find rest (S n)
     end)
    ["0"; "1"; "2"; "3"; "4"; "5"; "6"; "7"; "8"; "9"; "a"; "b"; "c"; "d"; "e"; "f"] 0%nat.

(** Reading back what [quote_char] wrote. *)
Definition unquote_char (s : string) : option (ascii * string) :=
  match s with
  | String "\" (String "b" r) => Some ("008", r)
  | String "\" (String "t" r) => Some ("009", r)
  | String "\" (String "n" r) => Some ("010", r)
  | String "\" (String "f" r) => Some ("012", r)
  | String "\" (String "r" r) => Some ("013", r)
  | String "\" (String "034" r) => Some ("034", r)
  | String "\" (String "\" r) => Some ("\", r)
  | String "\" (String "u" (String "0" (String "0" (String high (String low r))))) =>
      match unhex high, unhex low with
      | Some h, Some l => Some (ascii_of_nat (16 * h + l), r)
      | _, _ => None
      end
  | String "\" _ => None
  | String "034" _ => None
  | String c r => Some (c, r)
  | EmptyString => None
  end.

(** *** Sequences: elements joined by commas, then a closing bracket *)

Definition joined (parts : list string) (rest : string) : string :=
  (String.concat "," parts +:+ rest)%string.

(** What follows the first element. *)
Definition after (parts : list string) (rest : string) : string :=
  match parts with
  | [] => rest
  | _ :: _ => String "," (joined parts rest)
  end.

(** No other element starts like [x] and goes on differently. *)
Definition unambiguous {A : Type} (write : A -> string) (ok : A -> Prop) (x : A) : Prop :=
  forall (y : A) (r r' : string),
    ok y -> delimited r = true -> delimited r' = true ->
    (write x +:+ r = write y +:+ r')%string -> x = y /\ r = r'.

Definition opens {A : Type} (write : A -> string) (x : A) : Prop :=
  exists c s, write x = String c s /\ delimiter c = false.

(** *** Values *)

(** The constructor of a value, and the constructor a first character
    announces. *)
Definition kind (v : JsValue) : nat :=
  match v with
  | JUndefined => 0 | JNull => 1 | JBool _ => 2 | JNum _ => 3
  | JStr _ => 4 | JArr _ => 5 | JObj _ => 6 | JFun _ => 7
  end.

Definition announces (c : ascii) : option nat :=
  if Ascii.eqb c "n" then Some 1%nat
  else if Ascii.eqb c "t" || Ascii.eqb c "f" then Some 2%nat
  else if number_char c then Some 3%nat
  else if Ascii.eqb c "034" then Some 4%nat
  else if Ascii.eqb c "[" then Some 5%nat
  else if Ascii.eqb c "{" then Some 6%nat
  else None.

Definition write_member (prop : string * JsValue) : string :=
  (let '(k, x) := prop in QuoteJSONString k +:+ ":" +:+ text x)%string.

Definition data_member (prop : string * JsValue) : Prop := json_data (snd prop) = true.

Local Close Scope char_scope.

(** ** findIntent with a context *)

(** The instrument with its two keys the other way round. *)
Definition reordered_instrument : JsValue :=
  JObj [("name", JStr "IBM"); ("type", JStr "fdc3.instrument")].

Definition another_instrument : JsValue :=
  JObj [("type", JStr "fdc3.instrument"); ("name", JStr "AAPL")].

(** Platform 0 exposes three methods for [ViewChart]: one declared for the
    instrument, one for the instrument with its keys in the other order,
    one for another instrument. *)
Definition context_desks (id : nat) : Desk :=
  {| desk_methods :=
       Resolved [method "a" [viewChart instrument] "exact";
                 method "b" [viewChart reordered_instrument] "reordered";
                 method "c" [viewChart another_instrument] "other"];
     desk_invoke := echo |}.

Definition context_remote : Remote := remote_of context_desks (fun _ _ => unreachable).

(** ** Application names and platform qualifiers *)

(** A name with no colon in it. *)
Fixpoint colon_free (s : string) : bool :=
  match s with
  | "" => true
  | String c rest => negb (Ascii.eqb c ":") && colon_free rest
  end.

(** The platforms named [platformName]. *)
Definition named_platforms (platformName : string) (platforms : list Platform) : list Platform :=
  List.filter (fun fdc3Platform => String.eqb (name fdc3Platform) platformName) platforms.

(** The error [open] falls back on: its [defaultErrorMessage]. *)
Definition unable_to_start (appName : string) : JsError :=
  Error ("Unable to start application named " +:+ dq +:+ appName +:+ dq).

(** No other call of [open] assigns the field while this one runs. *)
Definition alone : Overlap := fun _ => None.

(** A call of [open] for the application [appName] starts while this one
    awaits the platform's answer to the invocation. *)
Definition overtaken_by (appName : string) : Overlap :=
  fun handler => match handler with StartFailed => Some appName | GetPlatformFailed => None end.

(** ** Calls and outcomes *)

(** Whether a promise was resolved. *)
Definition resolves {A : Type} (s : Settled A) : bool :=
  match s with
  | Resolved _ => true
  | Rejected _ => false
  end.

(** The invocation of a discovered method with a context. *)
Definition invocation (context : JsValue) (platform : Platform) (method : Method) : Call :=
  log (Invoke (platformApi platform) (ByMethod method) context).

(** The methods up to and including the first one that [accepts] turns
    down. *)
Fixpoint through_first_failure (accepts : Method -> bool) (methods : list Method)
  : list Method :=
  match methods with
  | [] => []
  | method :: rest =>
      if accepts method then method :: through_first_failure accepts rest else [method]
  end.

(** The name of the intent of an [AppIntent]. *)
Definition intent_of (appIntent : AppIntent) : string :=
  intent_metadata_name (intent appIntent).

(** Every method names the peer that registered it. *)
Definition peers_known (methods : list Method) : Prop :=
  Forall (fun method => method_peer method <> None) methods.

(** ** What Fdc3Bus builds *)

(** Where a timer stands when the platform [stuck] turns every attempt down. *)
Definition waiting_on (methods : list MethodImplementation) (stuck : InteropPlatform)
    (interopPlatform : InteropPlatform) (task : Prog (option InteropPeer)) : Prop :=
  never_throws task /\
  (interopPlatform = stuck ->
   exists ticks, task = Utils.connectUntilReady ticks stuck methods).

(** What [to_platforms] makes of a descriptor and the peer of its connection. *)
Definition built_from (interopPlatform : InteropPlatform) (platform : Platform) : Prop :=
  name platform = type interopPlatform /\
  version platform = descriptor_version interopPlatform /\
  online platform = isConnected (platformApi platform) /\
  status platform = connectionStatus (platformApi platform) /\
  config platform = "".

(** ** Listeners *)

(** The method [addContextListener] registers on a platform. *)
Definition context_listener_implementation (platform : Platform) : MethodImplementation :=
  {| implementation_name := "Fdc3." +:+ name platform +:+ ".ContextListener";
     onInvoke := ExecuteChannel "add-context" |}.

(** The hook [addIntentListener] installs on every platform. *)
Definition intent_hook (intent : JsValue) : RegisteredHook :=
  {| hook_intent := intent; hook_channel := "add-intent" |}.

(** ** The members of a serialised object *)

(** The members [JSON.stringify] writes for the properties of an object:
    a property whose value has no serialisation is left out. *)
Fixpoint members (props : list (string * JsValue)) : list string :=
  match props with
  | [] => []
  | (k, x) :: rest =>
      match stringify x with
      | Some s => (QuoteJSONString k +:+ ":" +:+ s) :: members rest
      | None => members rest
      end
  end.

(** ** More desktops *)

(** A platform with three context listeners, of the applications one, two
    and three; the listener of two rejects its invocation. *)
Definition moody_invoke : InvokeTarget -> JsValue -> Settled InvokeResult :=
  fun target args =>
    match target with
    | ByMethod {| method_peer := Some {| applicationName := "two" |} |} =>
        Rejected (Error "busy")
    | _ => Resolved {| result := args |}
    end.

Definition moody_listeners : list Method :=
  [method "Fdc3.A.ContextListener" [] "one"; method "Fdc3.A.ContextListener" [] "two";
   method "Fdc3.A.ContextListener" [] "three"].

Definition moody_desks (id : nat) : Desk :=
  {| desk_methods := Resolved moody_listeners; desk_invoke := moody_invoke |}.

Definition moody : Remote := remote_of moody_desks (fun _ _ => unreachable).

(** Platform [B] turns every connection attempt down. *)
Definition deaf_connect (interopPlatform : InteropPlatform) (attempts : nat)
  : Settled InteropPeer :=
  if String.eqb (type interopPlatform) "B" then unreachable else Resolved (peer 0).

Definition deaf : Remote := remote_of bare_desks deaf_connect.

(** A remote side that accepts a connection attempt only when the call just
    before it was an attempt on the same platform. *)
Definition wary : Remote :=
  fun X issued call =>
    match call in remoteE X return X with
    | DiscoverMethods api => desk_methods (bare_desks (peer_id api))
    | Invoke api target args => desk_invoke (bare_desks (peer_id api)) target args
    | Register _ _ => tt
    | OnMethodRegistered _ _ => tt
    | Connect interopPlatform _ _ =>
        match last issued with
        | Some previous =>
            if is_connect (type interopPlatform) previous then Resolved (peer 0)
            else unreachable
        | None => unreachable
        end
    end.

(** * Properties *)

(** ** Running programs: the equations of [run] *)

Section Running.

Context (remote : Remote).

Lemma run_bind {A B : Type} (p : Prog A) (f : A -> Prog B) (issued : list Call) :
  run remote (bind p f) issued =
  match run remote p issued with
  | (Resolved a, issued') => run remote (f a) issued'
  | (Rejected e, issued') => (Rejected e, issued')
  end.
Proof.
  revert issued. induction p as [a | e | X call k IH]; intros issued; simpl; auto.
Qed.

Lemma run_try_catch {A : Type} (p : Prog A) (handler : JsError -> Prog A)
    (issued : list Call) :
  run remote (try_catch p handler) issued =
  match run remote p issued with
  | (Resolved a, issued') => (Resolved a, issued')
  | (Rejected e, issued') => run remote (handler e) issued'
  end.
Proof.
  revert issued. induction p as [a | e | X call k IH]; intros issued; simpl; auto.
Qed.

Lemma run_await {X : Type} (call : remoteE (Settled X)) (issued : list Call) :
  run remote (await call) issued =
  (remote _ issued call, issued ++ [log call]).
Proof.
  unfold await. simpl. destruct (remote _ issued call); reflexivity.
Qed.

Lemma run_lift {A : Type} (c : Completion A) (issued : list Call) :
  run remote (lift c) issued =
  (match c with Normal a => Resolved a | Abrupt e => Rejected e end, issued).
Proof. destruct c; reflexivity. Qed.

(** The calls issued so far are never retracted. *)
Lemma run_extends {A : Type} (p : Prog A) (issued : list Call) :
  exists calls, snd (run remote p issued) = issued ++ calls.
Proof.
  revert issued. induction p as [a | e | X call k IH]; intros issued; simpl.
  - exists []. now rewrite app_nil_r.
  - exists []. now rewrite app_nil_r.
  - destruct (IH (remote _ issued call) (issued ++ [log call])) as [calls ->].
    exists (log call :: calls). now rewrite <- app_assoc.
Qed.

End Running.

(** ** Validation comes first *)

Lemma validateContext_malformed (context : JsValue) :
  malformed_context context = true ->
  exists m, Utils.validateContext context = Abrupt (Error m).
Proof.
  unfold malformed_context, Utils.validateContext. intros H.
  destruct (truthy context); simpl in *; [| discriminate].
  destruct (String.eqb (typeof context) "object"); simpl in *; [| eauto].
  destruct (truthy (get context "type")); simpl in *; [| eauto].
  destruct (String.eqb (typeof (get context "type")) "string"); simpl in *; [| eauto].
  rewrite H. simpl. eauto.
Qed.

Lemma validateContext_well_formed (context : JsValue) :
  malformed_context context = false -> Utils.validateContext context = Normal tt.
Proof.
  unfold malformed_context, Utils.validateContext. intros H.
  destruct (truthy context); simpl in *; [| reflexivity].
  destruct (String.eqb (typeof context) "object"); simpl in *; [| discriminate].
  destruct (truthy (get context "type")); simpl in *; [| discriminate].
  destruct (String.eqb (typeof (get context "type")) "string"); simpl in *; [| discriminate].
  rewrite H. reflexivity.
Qed.

Lemma validateIntent_bad (intent : JsValue) :
  bad_string intent = true -> exists m, Utils.validateIntent intent = Abrupt (Error m).
Proof.
  unfold bad_string, Utils.validateIntent. intros H.
  destruct (truthy intent); simpl in *; [| eauto].
  rewrite H. eauto.
Qed.

Lemma validateIntent_good (intent : JsValue) :
  bad_string intent = false -> Utils.validateIntent intent = Normal tt.
Proof.
  unfold bad_string, Utils.validateIntent. intros H.
  destruct (truthy intent); simpl in *; [| discriminate].
  rewrite H. reflexivity.
Qed.

Lemma validateIntentAndContextParams_bad (intent context : JsValue) :
  bad_string intent || malformed_context context = true ->
  exists m, Utils.validateIntentAndContextParams intent context = Abrupt (Error m).
Proof.
  unfold Utils.validateIntentAndContextParams. intros H.
  destruct (bad_string intent) eqn:Hi.
  - destruct (validateIntent_bad intent Hi) as [m ->]. eauto.
  - rewrite (validateIntent_good intent Hi). simpl in H.
    apply validateContext_malformed. exact H.
Qed.

Lemma validateOpenParams_bad (app context : JsValue) :
  bad_string app || malformed_context context = true ->
  exists m, Utils.validateOpenParams app context = Abrupt (Error m).
Proof.
  unfold Utils.validateOpenParams, bad_string. intros H.
  destruct (truthy app); simpl in *; [| eauto].
  destruct (String.eqb (typeof app) "string"); simpl in *; [| eauto].
  destruct (validateContext_malformed context H) as [m ->]. eauto.
Qed.

Lemma validateRaiseIntent_bad (intent context target : JsValue) :
  bad_string intent || malformed_context context || malformed_target target = true ->
  exists m, Utils.validateRaiseIntent intent context target = Abrupt (Error m).
Proof.
  unfold Utils.validateRaiseIntent. intros H.
  destruct (bad_string intent || malformed_context context) eqn:Hic.
  - destruct (validateIntentAndContextParams_bad intent context Hic) as [m ->]. eauto.
  - simpl in H. unfold malformed_target in H.
    apply orb_false_elim in Hic as [Hi Hc].
    unfold Utils.validateIntentAndContextParams.
    rewrite (validateIntent_good intent Hi), (validateContext_well_formed context Hc), H.
    eauto.
Qed.

Lemma validateAddIntentListener_bad (intent handler : JsValue) :
  bad_string intent || bad_handler handler = true ->
  exists m, Utils.validateAddIntentListener intent handler = Abrupt (Error m).
Proof.
  unfold Utils.validateAddIntentListener. intros H.
  destruct (bad_string intent) eqn:Hi.
  - destruct (validateIntent_bad intent Hi) as [m ->]. eauto.
  - rewrite (validateIntent_good intent Hi). simpl in H. unfold bad_handler in H.
    destruct (truthy handler); simpl in *; [| eauto].
    rewrite H. eauto.
Qed.

(** C9 (as amended): whenever an argument fails the validators — [app] or
    [intent] missing or not a string, [handler] missing or not a function,
    a context that is given and is not an object, lacks a string [type] or
    has a non-string [name], a target that is given and is not a string —
    each of [open], [findIntent], [findIntentsByContext], [raiseIntent],
    [addIntentListener] and [addContextListener] fails with a validation
    error at the root of its program, before any remote call is issued (for
    the four [async] operations the failure is the rejection of the
    returned promise, for the two listener operations a thrown exception). *)
Theorem validation_fails_before_any_remote_call
    (app intent context handler target : JsValue) (platforms : list Platform)
    (registry : CallbackRegistry) :
  (bad_string app || malformed_context context = true ->
   fails_at_once (open app context platforms)) /\
  (bad_string intent || malformed_context context = true ->
   fails_at_once (findIntent intent context platforms)) /\
  (malformed_context context = true ->
   fails_at_once (findIntentsByContext context platforms)) /\
  (bad_string intent || malformed_context context || malformed_target target = true ->
   fails_at_once (raiseIntent intent context target platforms)) /\
  (bad_string intent || bad_handler handler = true ->
   fails_at_once (addIntentListener intent handler platforms registry)) /\
  (bad_handler handler = true ->
   fails_at_once (addContextListener handler platforms registry)).
Proof.
  unfold fails_at_once. repeat split; intros H.
  - destruct (validateOpenParams_bad app context H) as [m Hm].
    exists m. unfold open. rewrite Hm. reflexivity.
  - destruct (validateIntentAndContextParams_bad intent context H) as [m Hm].
    exists m. unfold findIntent. rewrite Hm. reflexivity.
  - destruct (validateContext_malformed context H) as [m Hm].
    exists m. unfold findIntentsByContext. rewrite Hm. reflexivity.
  - destruct (validateRaiseIntent_bad intent context target H) as [m Hm].
    exists m. unfold raiseIntent. rewrite Hm. reflexivity.
  - destruct (validateAddIntentListener_bad intent handler H) as [m Hm].
    exists m. unfold addIntentListener. rewrite Hm. reflexivity.
  - unfold addContextListener, bad_handler in *.
    destruct (truthy handler); simpl in *; [| eauto].
    rewrite H. eauto.
Qed.

Lemma validation_fails_before_any_remote_call_witness :
  fails_at_once (open (JNum 7) JUndefined [platform "A" 0]) /\
  fails_at_once (findIntent (JStr "ViewChart") (JObj [("name", JStr "IBM")]) [platform "A" 0]) /\
  fails_at_once (findIntentsByContext (JStr "fdc3.instrument") [platform "A" 0]) /\
  fails_at_once (raiseIntent (JStr "ViewChart") JUndefined (JNum 7) [platform "A" 0]) /\
  fails_at_once (addIntentListener (JStr "ViewChart") JUndefined [platform "A" 0] empty_registry) /\
  fails_at_once (addContextListener (JStr "handler") [platform "A" 0] empty_registry).
Proof.
  pose proof (validation_fails_before_any_remote_call
                (JNum 7) (JStr "ViewChart") (JObj [("name", JStr "IBM")])
                JUndefined (JNum 7) [platform "A" 0] empty_registry) as [_ [H2 _]].
  pose proof (validation_fails_before_any_remote_call
                (JNum 7) (JStr "ViewChart") (JStr "fdc3.instrument")
                (JStr "handler") (JNum 7) [platform "A" 0] empty_registry) as [_ [_ [H3 [_ [_ H6]]]]].
  pose proof (validation_fails_before_any_remote_call
                (JNum 7) (JStr "ViewChart") JUndefined
                JUndefined (JNum 7) [platform "A" 0] empty_registry) as [H1 [_ [_ [H4 [H5 _]]]]].
  repeat split.
  - apply H1. reflexivity.
  - apply H2. reflexivity.
  - apply H3. reflexivity.
  - apply H4. reflexivity.
  - apply H5. reflexivity.
  - apply H6. reflexivity.
Defined.

(** C9, counterexample: three calls with an argument that is missing or
    of the wrong type, none of which fails validation; each goes on to call
    [discoverMethods].  [findIntentsByContext] is called without its
    context; [findIntent] with the boolean [false] for a context;
    [raiseIntent] with the number 0 for a target. *)
Lemma validation_lets_falsy_arguments_through :
  (~ fails_at_once (findIntentsByContext JUndefined [platform "A" 0])
   /\ run bare (findIntentsByContext JUndefined [platform "A" 0]) []
      = (Resolved [], [log (DiscoverMethods (peer 0))]))
  /\ (~ fails_at_once (findIntent (JStr "ViewChart") (JBool false) [platform "A" 0])
      /\ run bare (findIntent (JStr "ViewChart") (JBool false) [platform "A" 0]) []
         = (Resolved (app_intent "ViewChart" []), [log (DiscoverMethods (peer 0))]))
  /\ (~ fails_at_once (raiseIntent (JStr "ViewChart") instrument (JNum 0) [platform "A" 0])
      /\ run bare (raiseIntent (JStr "ViewChart") instrument (JNum 0) [platform "A" 0]) []
         = (Rejected (Error ("There is no method with intent " +:+ dq +:+ "ViewChart" +:+ dq)),
            [log (DiscoverMethods (peer 0))])).
Proof.
  repeat split; try reflexivity; intros [m Hm]; discriminate Hm.
Qed.

(** C10: with no platform, a call of [raiseIntent] that passes validation
    is the program that returns [undefined]: it resolves with no value and
    issues no remote call, whatever the remote side. *)
Theorem raiseIntent_without_platforms
    (intent context target : JsValue) (remote : Remote) (issued : list Call) :
  Utils.validateRaiseIntent intent context target = Normal tt ->
  raiseIntent intent context target [] = Ret JUndefined /\
  run remote (raiseIntent intent context target []) issued = (Resolved JUndefined, issued).
Proof.
  intros Hvalid. unfold raiseIntent. rewrite Hvalid. split; reflexivity.
Qed.

Lemma raiseIntent_without_platforms_witness :
  raiseIntent (JStr "ViewChart") (JObj [("type", JStr "fdc3.instrument")]) (JStr "charts") []
  = Ret JUndefined /\
  run bare (raiseIntent (JStr "ViewChart") (JObj [("type", JStr "fdc3.instrument")])
                        (JStr "charts") []) []
  = (Resolved JUndefined, []).
Proof.
  apply (raiseIntent_without_platforms
           (JStr "ViewChart") (JObj [("type", JStr "fdc3.instrument")]) (JStr "charts")
           bare []).
  reflexivity.
Defined.

(** ** raiseIntent *)

Lemma for_of_cons {A R : Type} (x : A) (rest : list A) (body : A -> Prog (option R)) :
  for_of (x :: rest) body =
  bind (body x) (fun r => match r with Some v => Ret (Some v) | None => for_of rest body end).
Proof. reflexivity. Qed.

Lemma for_each_cons {A S : Type} (x : A) (rest : list A) (body : A -> S -> Prog S) (s : S) :
  for_each (x :: rest) body s = bind (body x s) (for_each rest body).
Proof. reflexivity. Qed.

(** What one iteration of the loop of [raiseIntent] does: it never falls
    through to the next platform. *)
Lemma raiseIntent_first_platform_decides (remote : Remote)
    (intent context target : JsValue) (first : Platform) (rest : list Platform)
    (issued : list Call) :
  run remote (raiseIntent intent context target (first :: rest)) issued =
  run remote (raiseIntent intent context target [first]) issued.
Proof.
  unfold raiseIntent. rewrite !run_bind.
  destruct (run remote (lift (Utils.validateRaiseIntent intent context target)) issued)
    as [[[] | e] issued1]; [| reflexivity].
  rewrite !for_of_cons, !run_bind, !run_await.
  destruct (remote _ issued1 (DiscoverMethods (platformApi first))) as [methods | e];
    [| reflexivity].
  destruct (List.filter (with_intent intent target) methods) as [| method [| another more]];
    [reflexivity | | reflexivity].
  rewrite !run_bind, !run_await.
  destruct (remote _ _ (Invoke (platformApi first) (ByMethod method) context));
    reflexivity.
Qed.

(** The methods [raiseIntent] keeps: those with a declared intent named
    [intent] and, when a target is given, owned by the application
    [target]. *)
Lemma with_intent_spec (intentName : string) (target : JsValue) (method : Method) :
  with_intent (JStr intentName) target method = true <->
  (exists methodIntent, In methodIntent (declared_intents method)
                        /\ intent_name methodIntent = intentName)
  /\ (truthy target = true ->
      exists peer, method_peer method = Some peer /\ is_string target (applicationName peer) = true).
Proof.
  unfold with_intent. induction (declared_intents method) as [| methodIntent rest IH].
  - cbn [serves]. split; [discriminate |]. intros [(x & [] & _) _].
  - cbn [serves is_string In].
    destruct (String.eqb_spec intentName (intent_name methodIntent)) as [Hname | Hname].
    + destruct (truthy target) eqn:Hgiven.
      * destruct (method_peer method) as [peer |] eqn:Hpeer.
        -- destruct (is_string target (applicationName peer)) eqn:Htarget.
           ++ split; [| reflexivity]. intros _. split; [eauto |]. eauto.
           ++ rewrite IH. split.
              ** intros [_ Htargeted]. destruct (Htargeted eq_refl) as (p & Hp & Hmatch).
                 inversion Hp; subst. congruence.
              ** intros [_ Htargeted]. destruct (Htargeted eq_refl) as (p & Hp & Hmatch).
                 inversion Hp; subst. congruence.
        -- rewrite IH. split.
           ++ intros [_ Htargeted]. destruct (Htargeted eq_refl) as (p & Hp & _). discriminate.
           ++ intros [_ Htargeted]. destruct (Htargeted eq_refl) as (p & Hp & _). discriminate.
      * split; [| reflexivity]. intros _. split; [eauto | discriminate].
    + rewrite IH. split.
      * intros [(x & Hin & Hx) Htargeted]. split; [eauto | exact Htargeted].
      * intros [(x & [Hfirst | Hin] & Hx) Htargeted]; [congruence |].
        split; [eauto | exact Htargeted].
Qed.

(** What [raiseIntent] does on a platform list that is not empty, when the
    discovery of the first platform resolves: the cardinality policy is
    applied to the methods of the first platform alone. *)
Lemma raiseIntent_cardinality (remote : Remote) (intent context target : JsValue)
    (first : Platform) (rest : list Platform) (issued : list Call) (methods : list Method) :
  Utils.validateRaiseIntent intent context target = Normal tt ->
  remote _ issued (DiscoverMethods (platformApi first)) = Resolved methods ->
  run remote (raiseIntent intent context target (first :: rest)) issued
  = match List.filter (with_intent intent target) methods with
    | [] =>
        (Rejected (Error ("There is no method with intent "
                            +:+ dq +:+ string_of intent +:+ dq)),
         issued ++ [log (DiscoverMethods (platformApi first))])
    | [method] =>
        (match remote _ (issued ++ [log (DiscoverMethods (platformApi first))])
                      (Invoke (platformApi first) (ByMethod method) context) with
         | Resolved invokeResult => Resolved (result invokeResult)
         | Rejected e => Rejected e
         end,
         issued ++ [log (DiscoverMethods (platformApi first));
                    log (Invoke (platformApi first) (ByMethod method) context)])
    | _ :: _ :: _ =>
        (Rejected (Error ("There are multiple applications with method with intent "
                            +:+ dq +:+ string_of intent +:+ dq)),
         issued ++ [log (DiscoverMethods (platformApi first))])
    end.
Proof.
  intros Hvalid Hdiscovery. unfold raiseIntent. rewrite Hvalid. cbn [lift bind].
  rewrite run_bind, for_of_cons, !run_bind, run_await, Hdiscovery.
  destruct (List.filter (with_intent intent target) methods) as [| method [| another more]];
    [reflexivity | | reflexivity].
  rewrite run_bind, run_await, <- app_assoc.
  destruct (remote _ _ (Invoke (platformApi first) (ByMethod method) context));
    reflexivity.
Qed.

(** C1: [raiseIntent] where the first platform has no method for the
    intent and the second has exactly one.  The loop body throws on the
    empty list of the first platform, so the call is rejected with "no
    method" after a single [discoverMethods]; the second platform, which
    alone would have served the intent, is never asked. *)
Theorem raiseIntent_gives_up_at_first_platform :
  List.filter (with_intent (JStr "ViewChart") JUndefined) [chart_method] = [chart_method] /\
  run chart_remote
      (raiseIntent (JStr "ViewChart") instrument JUndefined [platform "A" 0; platform "B" 1]) []
  = (Rejected (Error ("There is no method with intent " +:+ dq +:+ "ViewChart" +:+ dq)),
     [log (DiscoverMethods (peer 0))]) /\
  run chart_remote (raiseIntent (JStr "ViewChart") instrument JUndefined [platform "B" 1]) []
  = (Resolved instrument,
     [log (DiscoverMethods (peer 1));
      log (Invoke (peer 1) (ByMethod chart_method) instrument)]).
Proof. repeat split; reflexivity. Qed.

(** ** Fdc3Bus *)

Lemma size_list_to_set_le (names : list string) :
  size (list_to_set names : gset string) <= length names.
Proof.
  induction names as [| x names IH].
  - rewrite list_to_set_nil, size_empty. simpl. lia.
  - rewrite list_to_set_cons. cbn [length].
    destruct (decide (x ∈ (list_to_set names : gset string))) as [Hin | Hout].
    + assert ({[x]} ∪ list_to_set names = (list_to_set names : gset string)) as ->
        by (apply subseteq_union_1_L, singleton_subseteq_l, Hin).
      lia.
    + rewrite size_union by (apply disjoint_singleton_l, Hout).
      rewrite size_singleton. lia.
Qed.

Lemma duplicate_types_detected (names : list string) :
  (length names =? size (list_to_set names : gset string))%nat = true <-> NoDup names.
Proof.
  rewrite Nat.eqb_eq. split.
  - induction names as [| x names IH]; intros Hsize.
    + constructor.
    + rewrite list_to_set_cons in Hsize. cbn [length] in Hsize.
      destruct (decide (x ∈ (list_to_set names : gset string))) as [Hin | Hout].
      * assert ({[x]} ∪ list_to_set names = (list_to_set names : gset string)) as Hsame
          by (apply subseteq_union_1_L, singleton_subseteq_l, Hin).
        rewrite Hsame in Hsize. pose proof (size_list_to_set_le names). lia.
      * rewrite size_union in Hsize by (apply disjoint_singleton_l, Hout).
        rewrite size_singleton in Hsize.
        constructor.
        -- rewrite elem_of_list_to_set in Hout. exact Hout.
        -- apply IH. lia.
  - intros Hnodup. symmetry. apply size_list_to_set. exact Hnodup.
Qed.

(** *** Timers that tick together *)

Lemma advance_extends {A : Type} (remote : Remote) (task : Prog A) (issued : list Call) :
  exists calls, snd (advance remote task issued) = issued ++ calls.
Proof.
  destruct task as [a | e | X call k]; cbn [advance snd].
  - exists []. now rewrite app_nil_r.
  - exists []. now rewrite app_nil_r.
  - exists [log call]. reflexivity.
Qed.

Lemma advance_never_throws {A : Type} (remote : Remote) (task : Prog A) (issued : list Call) :
  never_throws task -> never_throws (fst (advance remote task issued)).
Proof.
  intros Htask. destruct Htask as [a | X call k Hk]; cbn [advance fst].
  - constructor.
  - apply Hk.
Qed.

Section Ticking.

Context {A I : Type} (remote : Remote).
Context (stage : nat -> list Call -> I -> Prog A -> Prop).
Context (Hlater : forall round issued more i task,
            stage round issued i task -> stage round (issued ++ more) i task).
Context (Hturn : forall round issued i task,
            stage round issued i task ->
            stage (S round) (snd (advance remote task issued)) i
                  (fst (advance remote task issued))).

Lemma run_tick (round : nat) (indices : list I) (tasks : list (Prog A)) (issued : list Call) :
  Forall2 (stage round issued) indices tasks ->
  exists (tasks' : list (Prog A)) (calls : list Call),
    run remote (Utils.tick tasks) issued = (Resolved tasks', issued ++ calls) /\
    Forall2 (stage (S round) (issued ++ calls)) indices tasks'.
Proof.
  revert indices issued.
  induction tasks as [| task rest IH]; intros indices issued Hstage.
  - inversion Hstage; subst. exists [], []. rewrite app_nil_r. split; [reflexivity | constructor].
  - inversion Hstage as [| i ? others ? Hfirst Hrest]; subst.
    pose proof (Hturn round issued i task Hfirst) as Hturned.
    assert (Hnext : forall made, Forall2 (stage round (issued ++ made)) others rest).
    { intros made. eapply Forall2_impl; [exact Hrest |]. intros j t Hj. apply Hlater. exact Hj. }
    destruct task as [a | e | X call k]; cbn [advance fst snd] in Hturned; cbn [Utils.tick].
    + destruct (IH others issued Hrest) as (later & calls & Hrun & Hstaged).
      exists (Ret a :: later), calls. rewrite run_bind, Hrun. split; [reflexivity |].
      constructor; [apply Hlater; exact Hturned | exact Hstaged].
    + destruct (IH others issued Hrest) as (later & calls & Hrun & Hstaged).
      exists (Throw e :: later), calls. rewrite run_bind, Hrun. split; [reflexivity |].
      constructor; [apply Hlater; exact Hturned | exact Hstaged].
    + destruct (IH others (issued ++ [log call]) (Hnext [log call]))
        as (later & calls & Hrun & Hstaged).
      exists (k (remote _ issued call) :: later), (log call :: calls).
      cbn [run]. rewrite run_bind, Hrun.
      change (issued ++ log call :: calls) with (issued ++ [log call] ++ calls).
      rewrite app_assoc. split; [reflexivity |].
      constructor; [apply Hlater; exact Hturned | exact Hstaged].
Qed.

Lemma run_ticking (ticks round : nat) (indices : list I) (tasks : list (Prog A))
    (issued : list Call) :
  Forall2 (stage round issued) indices tasks ->
  exists (tasks' : list (Prog A)) (calls : list Call),
    run remote (Utils.ticking ticks tasks) issued = (Resolved tasks', issued ++ calls) /\
    Forall2 (stage (ticks + round) (issued ++ calls)) indices tasks'.
Proof.
  revert round tasks issued.
  induction ticks as [| ticks IH]; intros round tasks issued Hstage.
  - exists tasks, []. rewrite app_nil_r. split; [reflexivity | exact Hstage].
  - destruct (run_tick round indices tasks issued Hstage) as (tasks1 & calls1 & Hrun1 & Hstage1).
    destruct (IH (S round) tasks1 (issued ++ calls1) Hstage1)
      as (tasks2 & calls2 & Hrun2 & Hstage2).
    exists tasks2, (calls1 ++ calls2). rewrite app_assoc.
    cbn [Utils.ticking]. rewrite run_bind, Hrun1, Hrun2.
    replace (S ticks + round) with (ticks + S round) by lia.
    split; [reflexivity | exact Hstage2].
Qed.

End Ticking.

(** *** Promise.all *)

Lemma promise_all_settles {A : Type} (promises : list (Prog (option A))) :
  (exists outcome, Utils.promise_all promises = Ret outcome)
  \/ (exists e, Utils.promise_all promises = Throw e).
Proof.
  induction promises as [| promise rest IH]; cbn [Utils.promise_all]; [left; eauto |].
  destruct promise as [[a |] | e | X call k]; [| | right; eauto |];
    destruct IH as [[outcome ->] | [e ->]]; cbn [bind]; eauto.
Qed.

Lemma promise_all_never_throws {A : Type} (promises : list (Prog (option A))) :
  Forall never_throws promises -> exists outcome, Utils.promise_all promises = Ret outcome.
Proof.
  induction 1 as [| promise rest Hpromise Hrest [outcome IH]]; cbn [Utils.promise_all]; [eauto |].
  destruct Hpromise as [[a |] | X call k Hk]; rewrite IH; cbn [bind]; eauto.
Qed.

Lemma run_promise_all {A : Type} (remote : Remote) (promises : list (Prog (option A)))
    (issued issued' : list Call) (outcome : Settled (option (list A))) :
  run remote (Utils.promise_all promises) issued = (outcome, issued') ->
  issued' = issued /\
  match outcome with
  | Resolved value => Utils.promise_all promises = Ret value
  | Rejected e => Utils.promise_all promises = Throw e
  end.
Proof.
  destruct (promise_all_settles promises) as [[value ->] | [e ->]];
    cbn [run]; intros H; inversion H; subst; auto.
Qed.

(** *** Connecting *)

Section Connecting.

Context (remote : Remote) (methods : list MethodImplementation).

Lemma connected_later (issued more : list Call) (interopPlatform : InteropPlatform)
    (interopPeer : InteropPeer) :
  connected remote methods issued interopPlatform interopPeer ->
  connected remote methods (issued ++ more) interopPlatform interopPeer.
Proof.
  intros (before & after & -> & Hreply).
  exists before, (after ++ more). split; [| exact Hreply].
  rewrite <- app_assoc. reflexivity.
Qed.

Lemma attempts_on_later (interopPlatform : InteropPlatform) (issued more : list Call) :
  attempts_on interopPlatform issued <= attempts_on interopPlatform (issued ++ more).
Proof. unfold attempts_on. rewrite List.filter_app, length_app. lia. Qed.

Lemma attempts_on_attempt (interopPlatform : InteropPlatform) (issued : list Call) :
  attempts_on interopPlatform (issued ++ [log (attempt interopPlatform methods)])
  = S (attempts_on interopPlatform issued).
Proof.
  unfold attempts_on, attempt. rewrite List.filter_app, length_app.
  cbn [List.filter is_connect projT2 log]. rewrite String.eqb_refl. cbn [length]. lia.
Qed.

Lemma connecting_later (ticks round : nat) (issued more : list Call)
    (interopPlatform : InteropPlatform) (task : Prog (option InteropPeer)) :
  connecting remote ticks methods round issued interopPlatform task ->
  connecting remote ticks methods round (issued ++ more) interopPlatform task.
Proof.
  intros [Hwithin [(interopPeer & Htask & Hconnected) | (Hround & Htask & Hattempts)]];
    (split; [exact Hwithin |]).
  - left. exists interopPeer. split; [exact Htask | apply connected_later; exact Hconnected].
  - right. split; [exact Hround |]. split; [exact Htask |].
    pose proof (attempts_on_later interopPlatform issued more). lia.
Qed.

Lemma connecting_turn (ticks round : nat) (issued : list Call)
    (interopPlatform : InteropPlatform) (task : Prog (option InteropPeer)) :
  connecting remote ticks methods round issued interopPlatform task ->
  connecting remote ticks methods (S round) (snd (advance remote task issued)) interopPlatform
             (fst (advance remote task issued)).
Proof.
  intros [Hwithin [(interopPeer & -> & Hconnected) | (Hround & -> & Hattempts)]];
    (split; [exact Hwithin |]).
  - left. exists interopPeer. split; [reflexivity | exact Hconnected].
  - destruct (ticks - round) as [| left] eqn:Hleft; [lia |].
    cbn [Utils.connectUntilReady advance fst snd]. fold (attempt interopPlatform methods).
    destruct (remote _ issued (attempt interopPlatform methods)) as [interopPeer | e] eqn:Hanswer.
    + left. exists interopPeer. split; [reflexivity |].
      exists issued, []. split; [reflexivity | exact Hanswer].
    + right. destruct Hwithin as [_ Hwithin].
      assert (Hmore : S round < ticks).
      { destruct (Nat.lt_ge_cases (S round) ticks) as [Hlt | Hge]; [exact Hlt |].
        destruct (Hwithin issued) as [interopPeer Hresolved]; [lia | congruence]. }
      split; [exact Hmore |]. split.
      * f_equal. lia.
      * rewrite attempts_on_attempt. lia.
Qed.

(** Once every platform is connected, [Promise.all] resolves with the
    peers. *)
Lemma promise_all_connected (ticks : nat) (issued : list Call)
    (interopPlatforms : list InteropPlatform) (tasks : list (Prog (option InteropPeer))) :
  Forall2 (connecting remote ticks methods ticks issued) interopPlatforms tasks ->
  exists interopPeers : list InteropPeer,
    Utils.promise_all tasks = Ret (Some interopPeers) /\
    Forall2 (connected remote methods issued) interopPlatforms interopPeers.
Proof.
  induction 1 as [| interopPlatform task rest others Hfirst Hrest (interopPeers & IH & Hall)].
  - exists []. split; [reflexivity | constructor].
  - destruct Hfirst as [_ [(interopPeer & -> & Hconnected) | (Hround & _)]]; [| lia].
    exists (interopPeer :: interopPeers). cbn [Utils.promise_all]. rewrite IH.
    split; [reflexivity | constructor; assumption].
Qed.

Lemma connect_all_connects (ticks : nat) (interopPlatforms : list InteropPlatform)
    (issued : list Call) :
  Forall (connects_within remote ticks methods) interopPlatforms ->
  exists (interopPeers : list InteropPeer) (issued' : list Call),
    run remote (Utils.connect_all ticks interopPlatforms methods) issued
    = (Resolved (Some interopPeers), issued') /\
    Forall2 (connected remote methods issued') interopPlatforms interopPeers.
Proof.
  intros Hall. unfold Utils.connect_all.
  assert (Hstart : Forall2 (connecting remote ticks methods 0 issued) interopPlatforms
                     (map (fun interopPlatform =>
                             Utils.connectUntilReady ticks interopPlatform methods)
                          interopPlatforms)).
  { induction Hall as [| interopPlatform rest Hfirst Hrest IH]; cbn [map]; constructor;
      [| exact IH].
    split; [exact Hfirst |]. right. destruct Hfirst as [Hticks _].
    rewrite Nat.sub_0_r. split; [exact Hticks |]. split; [reflexivity | lia]. }
  destruct (run_ticking remote (connecting remote ticks methods)
              (connecting_later ticks) (connecting_turn ticks)
              ticks 0 _ _ issued Hstart) as (tasks & calls & Hrun & Hend).
  rewrite Nat.add_0_r in Hend.
  destruct (promise_all_connected ticks _ _ _ Hend) as (interopPeers & Hpromise & Hconnected).
  exists interopPeers, (issued ++ calls). rewrite run_bind, Hrun, Hpromise.
  split; [reflexivity | exact Hconnected].
Qed.

End Connecting.

Lemma to_platforms_names (interopPlatforms : list InteropPlatform)
    (interopPeers : list InteropPeer) :
  length interopPlatforms = length interopPeers ->
  map name (Utils.to_platforms interopPlatforms interopPeers) = map type interopPlatforms /\
  map platformApi (Utils.to_platforms interopPlatforms interopPeers) = interopPeers.
Proof.
  revert interopPeers.
  induction interopPlatforms as [| interopPlatform rest IH]; intros [| interopPeer peers] Hlen;
    simpl in *; try discriminate; auto.
  destruct (IH peers) as [Hnames Hapis]; [lia |].
  rewrite Hnames, Hapis. auto.
Qed.

(** C8: when two descriptors share a type, [Fdc3Bus] is the program that
    fails with "Multiple platforms have the same type." at its root, so no
    connection is attempted; when all types are distinct and every platform
    accepts a connection by its [ticks]-th attempt at the latest, whatever
    else is called in between, it resolves with an engine that has one
    platform per descriptor, in order, named by the descriptor's type and
    holding the peer its connection resolved with. *)
Theorem Fdc3Bus_rejects_duplicate_types_else_connects_all
    (ticks : nat) (interopPlatforms : list InteropPlatform)
    (methods : list MethodImplementation) :
  (~ NoDup (map type interopPlatforms) ->
   Fdc3Bus ticks interopPlatforms methods
   = Throw (Error "Multiple platforms have the same type.")) /\
  (NoDup (map type interopPlatforms) ->
   forall (remote : Remote) (issued : list Call),
     Forall (connects_within remote ticks methods) interopPlatforms ->
     exists (platforms : list Platform) (issued' : list Call),
       run remote (Fdc3Bus ticks interopPlatforms methods) issued
       = (Resolved (Some platforms), issued') /\
       map name platforms = map type interopPlatforms /\
       Forall2 (connected remote methods issued') interopPlatforms
               (map platformApi platforms)).
Proof.
  unfold Fdc3Bus. split.
  - intros Hdup.
    destruct (length (map type interopPlatforms)
              =? size (list_to_set (map type interopPlatforms) : gset string))%nat eqn:Hsize.
    + apply duplicate_types_detected in Hsize. contradiction.
    + reflexivity.
  - intros Hnodup remote issued Hall.
    apply duplicate_types_detected in Hnodup. rewrite Hnodup. cbn [negb].
    destruct (connect_all_connects remote methods ticks interopPlatforms issued Hall)
      as (interopPeers & issued' & Hrun & Hconnected).
    exists (Utils.to_platforms interopPlatforms interopPeers), issued'.
    destruct (to_platforms_names interopPlatforms interopPeers) as [Hnames Hapis].
    { eapply Forall2_length. exact Hconnected. }
    split; [| split].
    + unfold Utils.interopPlatformsToPlatforms. rewrite !run_bind, Hrun. reflexivity.
    + exact Hnames.
    + rewrite Hapis. exact Hconnected.
Qed.

Lemma slow_connects_within (platformType : string) :
  connects_within slow 3 [] (descriptor platformType).
Proof.
  split; [lia |]. intros issued Hattempts.
  unfold slow, remote_of, attempt, slow_connect. cbn [type descriptor].
  unfold attempts_on in Hattempts. cbn [type descriptor] in Hattempts.
  destruct (String.eqb platformType "A"); [| eauto].
  destruct (length (List.filter (is_connect platformType) issued) <? 2)%nat eqn:Hfew;
    [| eauto].
  apply Nat.ltb_lt in Hfew. lia.
Qed.

Example Fdc3Bus_retries_until_connected :
  run slow (Fdc3Bus 3 [descriptor "A"; descriptor "B"] []) []
  = (Resolved (Some [platform "A" 0; platform "B" 1]),
     [log (attempt (descriptor "A") []); log (attempt (descriptor "B") []);
      log (attempt (descriptor "A") []); log (attempt (descriptor "A") [])]).
Proof. vm_compute. reflexivity. Qed.

(** The attempts of the platforms alternate: while [B] turns every attempt
    down, [A] and [C] are connected at the first tick and only [B] is tried
    again. *)
Example Fdc3Bus_attempts_alternate :
  run deaf (Fdc3Bus 5 [descriptor "A"; descriptor "B"; descriptor "C"] []) []
  = (Resolved None,
     [log (attempt (descriptor "A") []); log (attempt (descriptor "B") []);
      log (attempt (descriptor "C") []); log (attempt (descriptor "B") []);
      log (attempt (descriptor "B") []); log (attempt (descriptor "B") []);
      log (attempt (descriptor "B") [])]).
Proof. vm_compute. reflexivity. Qed.

(** A platform that would accept the second of two attempts in a row is
    connected on its own, and never when the attempts on another platform
    come in between. *)
Example Fdc3Bus_interleaved_attempts :
  run wary (Fdc3Bus 2 [descriptor "A"] []) []
  = (Resolved (Some [platform "A" 0]),
     [log (attempt (descriptor "A") []); log (attempt (descriptor "A") [])]) /\
  run wary (Fdc3Bus 4 [descriptor "A"; descriptor "B"] []) []
  = (Resolved None,
     [log (attempt (descriptor "A") []); log (attempt (descriptor "B") []);
      log (attempt (descriptor "A") []); log (attempt (descriptor "B") []);
      log (attempt (descriptor "A") []); log (attempt (descriptor "B") []);
      log (attempt (descriptor "A") []); log (attempt (descriptor "B") [])]).
Proof. split; vm_compute; reflexivity. Qed.

Lemma Fdc3Bus_rejects_duplicate_types_else_connects_all_witness :
  Fdc3Bus 3 [descriptor "A"; descriptor "A"] []
  = Throw (Error "Multiple platforms have the same type.") /\
  exists (platforms : list Platform) (issued' : list Call),
    run slow (Fdc3Bus 3 [descriptor "A"; descriptor "B"] []) []
    = (Resolved (Some platforms), issued') /\
    map name platforms = ["A"; "B"] /\
    Forall2 (connected slow [] issued') [descriptor "A"; descriptor "B"]
            (map platformApi platforms).
Proof.
  split.
  - apply (Fdc3Bus_rejects_duplicate_types_else_connects_all
             3 [descriptor "A"; descriptor "A"] []).
    apply (bool_decide_unpack _). vm_compute. exact I.
  - apply (Fdc3Bus_rejects_duplicate_types_else_connects_all
             3 [descriptor "A"; descriptor "B"] []).
    + apply (bool_decide_unpack _). vm_compute. exact I.
    + repeat constructor; apply slow_connects_within.
Defined.

(** ** findIntent and findIntentsByContext: what the scan collects *)

Lemma findIntent_scan (intent context : JsValue) (platforms : list Platform) :
  findIntent intent context platforms =
  (lift (Utils.validateIntentAndContextParams intent context) ;;
   scan (intent_matches intent context) (fun _ app appIntent => push_app appIntent app)
        platforms
        {| intent := {| intent_metadata_name := string_of intent;
                        displayName := string_of intent |};
           apps := [] |}).
Proof. reflexivity. Qed.

Lemma findIntentsByContext_scan (context : JsValue) (platforms : list Platform) :
  findIntentsByContext context platforms =
  (lift (Utils.validateContext context) ;;
   scan (fun methodIntent => same_json (intent_context methodIntent) context)
        (fun methodIntent app appIntents =>
           record_match (intent_name methodIntent) app appIntents)
        platforms []).
Proof. reflexivity. Qed.

Section Scanning.

Context {S : Type} (keep : Intent -> bool) (add : Intent -> AppMetadata -> S -> S).

Lemma owned_app (methods more : list Method) :
  owned keep (methods ++ more) <-> owned keep methods /\ owned keep more.
Proof.
  unfold owned, entries. rewrite flat_map_app. apply Forall_app.
Qed.

Lemma hits_app (methods more : list Method) :
  hits keep (methods ++ more) = hits keep methods ++ hits keep more.
Proof.
  unfold hits, entries. rewrite !flat_map_app. reflexivity.
Qed.

Lemma hits_single (method : Method) :
  hits keep [method] = flat_map (hit_of keep) (map (pair method) (declared_intents method)).
Proof. unfold hits, entries. cbn [flat_map]. rewrite app_nil_r. reflexivity. Qed.

(** The innermost loop, over the declared intents of one method. *)
Lemma scan_intents (method : Method) (intents : list Intent) (s : S) :
  Forall (fun methodIntent => keep methodIntent = true -> method_peer method <> None) intents ->
  for_each intents (scan_intent keep add method) s
  = Ret (fold_left (add_hit add) (flat_map (hit_of keep) (map (pair method) intents)) s).
Proof.
  revert s. induction intents as [| methodIntent rest IH]; intros s Howned.
  - reflexivity.
  - inversion Howned as [| ? ? Hfirst Hrest]; subst.
    rewrite for_each_cons. cbn [map flat_map]. rewrite fold_left_app.
    unfold scan_intent at 1. unfold hit_of at 2. cbn [fst snd].
    destruct (keep methodIntent) eqn:Hkeep.
    + unfold owner. destruct (method_peer method) as [peer |] eqn:Hpeer.
      * cbn [bind fold_left]. apply IH. exact Hrest.
      * exfalso. apply Hfirst; reflexivity.
    + cbn [bind fold_left]. apply IH. exact Hrest.
Qed.

(** The loop over the methods one platform discovered. *)
Lemma scan_methods (methods : list Method) (s : S) :
  owned keep methods ->
  for_each methods (scan_method keep add) s
  = Ret (fold_left (add_hit add) (hits keep methods) s).
Proof.
  revert s. induction methods as [| method rest IH]; intros s Howned.
  - reflexivity.
  - change (method :: rest) with ([method] ++ rest) in Howned.
    apply owned_app in Howned as [Hfirst Hrest].
    change (method :: rest) with ([method] ++ rest) at 2.
    rewrite hits_app, fold_left_app, for_each_cons.
    unfold scan_method at 1. rewrite scan_intents.
    + cbn [bind]. rewrite IH by exact Hrest. rewrite hits_single. reflexivity.
    + unfold owned, entries in Hfirst. cbn [flat_map] in Hfirst.
      rewrite app_nil_r in Hfirst. rewrite Forall_map in Hfirst. exact Hfirst.
Qed.

(** The whole scan: when every discovery resolves and the entries kept are
    owned, the scan issues exactly the discoveries and folds [add] over the
    hits, in platform, method and declaration order. *)
Lemma run_scan (remote : Remote) (platforms : list Platform) (s : S)
    (issued issued' : list Call) (discovered : list (list Method)) :
  run remote (discover_all platforms) issued = (Resolved discovered, issued') ->
  owned keep (concat discovered) ->
  run remote (scan keep add platforms s) issued
  = (Resolved (fold_left (add_hit add) (hits keep (concat discovered)) s), issued').
Proof.
  unfold scan.
  revert s issued discovered.
  induction platforms as [| platform rest IH]; intros s issued discovered Hrun Howned.
  - simpl in Hrun. inversion Hrun; subst. reflexivity.
  - cbn [discover_all] in Hrun. rewrite run_bind, run_await in Hrun.
    rewrite for_each_cons, run_bind, run_bind, run_await.
    destruct (remote _ issued (DiscoverMethods (platformApi platform))) as [methods | e];
      [| discriminate].
    rewrite run_bind in Hrun.
    destruct (run remote (discover_all rest) (issued ++ [log (DiscoverMethods (platformApi platform))]))
      as [[others | e] issued1] eqn:Hrest; [| discriminate].
    simpl in Hrun. inversion Hrun; subst. clear Hrun.
    cbn [concat] in Howned |- *. apply owned_app in Howned as [Hfirst Hothers].
    rewrite scan_methods by exact Hfirst. cbn [run].
    rewrite (IH _ _ _ Hrest Hothers), hits_app, fold_left_app. reflexivity.
Qed.

End Scanning.

Lemma hit_of_ext (keep keep' : Intent -> bool) (entry : Method * Intent) :
  (forall methodIntent, keep methodIntent = keep' methodIntent) ->
  hit_of keep entry = hit_of keep' entry.
Proof. intros Hsame. unfold hit_of. rewrite Hsame. reflexivity. Qed.

Lemma hits_ext (keep keep' : Intent -> bool) (methods : list Method) :
  (forall methodIntent, keep methodIntent = keep' methodIntent) ->
  hits keep methods = hits keep' methods.
Proof.
  intros Hsame. unfold hits.
  induction (entries methods) as [| entry rest IH]; [reflexivity |].
  cbn [flat_map]. rewrite IH, (hit_of_ext keep keep' entry Hsame). reflexivity.
Qed.

Lemma owned_ext (keep keep' : Intent -> bool) (methods : list Method) :
  (forall methodIntent, keep methodIntent = keep' methodIntent) ->
  owned keep methods -> owned keep' methods.
Proof.
  intros Hsame Howned. unfold owned in *. eapply Forall_impl; [exact Howned |].
  intros entry Hentry Hkept. apply Hentry. rewrite Hsame. exact Hkept.
Qed.

(** [findIntent] only ever appends to [apps]. *)
Lemma fold_push_app (found : list (Intent * AppMetadata)) (appIntent : AppIntent) :
  fold_left (add_hit (fun _ app appIntent => push_app appIntent app)) found appIntent
  = {| intent := intent appIntent; apps := apps appIntent ++ map snd found |}.
Proof.
  revert appIntent. induction found as [| hit rest IH]; intros appIntent.
  - cbn [fold_left map]. rewrite app_nil_r. destruct appIntent; reflexivity.
  - cbn [fold_left map]. rewrite IH. unfold add_hit, push_app. cbn [intent apps].
    rewrite <- app_assoc. reflexivity.
Qed.

Lemma intent_matches_without_context (intentName : string) (methodIntent : Intent) :
  intent_matches (JStr intentName) JUndefined methodIntent
  = named_intent intentName methodIntent.
Proof.
  unfold intent_matches, named_intent. cbn [is_string truthy negb orb].
  apply andb_true_r.
Qed.

(** C3: [findIntent(intent)] with no context, when every platform's
    discovery resolves: the call issues exactly those discoveries and
    resolves with one [AppIntent], named by the intent, whose [apps] are the
    owning applications of the declared intent entries named [intent], one
    per entry, in platform order, then method order, then declaration
    order; nothing is deduplicated. *)
Theorem findIntent_without_context_lists_every_entry
    (remote : Remote) (intentName : string) (platforms : list Platform)
    (issued issued' : list Call) (discovered : list (list Method)) :
  intentName <> "" ->
  run remote (discover_all platforms) issued = (Resolved discovered, issued') ->
  owned (named_intent intentName) (concat discovered) ->
  run remote (findIntent (JStr intentName) JUndefined platforms) issued
  = (Resolved {| intent := {| intent_metadata_name := intentName;
                              displayName := intentName |};
                 apps := map snd (hits (named_intent intentName) (concat discovered)) |},
     issued').
Proof.
  intros Hname Hdiscovered Howned.
  rewrite findIntent_scan, run_bind.
  assert (Utils.validateIntentAndContextParams (JStr intentName) JUndefined = Normal tt)
    as ->.
  { unfold Utils.validateIntentAndContextParams, Utils.validateIntent.
    cbn [truthy typeof]. apply String.eqb_neq in Hname. rewrite Hname. reflexivity. }
  cbn [lift run].
  rewrite (run_scan _ _ remote platforms _ issued issued' discovered Hdiscovered).
  - rewrite fold_push_app. cbn [intent apps app string_of].
    rewrite (hits_ext _ (named_intent intentName)); [reflexivity |].
    apply intent_matches_without_context.
  - apply (owned_ext (named_intent intentName)); [| exact Howned].
    intros methodIntent. symmetry. apply intent_matches_without_context.
Qed.

Lemma findIntent_without_context_lists_every_entry_witness :
  run two_chart_remote (findIntent (JStr "ViewChart") JUndefined [platform "A" 0; platform "B" 1]) []
  = (Resolved {| intent := {| intent_metadata_name := "ViewChart"; displayName := "ViewChart" |};
                 apps := [ {| app_name := "charts" |}; {| app_name := "plots" |};
                           {| app_name := "charts" |}; {| app_name := "charts" |} ] |},
     [log (DiscoverMethods (peer 0)); log (DiscoverMethods (peer 1))]).
Proof.
  apply (findIntent_without_context_lists_every_entry
           two_chart_remote "ViewChart" [platform "A" 0; platform "B" 1] []
           [log (DiscoverMethods (peer 0)); log (DiscoverMethods (peer 1))]
           [ [method "chart" [viewChart instrument] "charts";
              method "news" [{| intent_name := "ViewNews"; intent_context := instrument |}] "news";
              method "plot" [viewChart JUndefined] "plots"];
             [method "chart" [viewChart instrument; viewChart JNull] "charts"] ]).
  - discriminate.
  - reflexivity.
  - unfold owned. cbn. repeat constructor; discriminate.
Defined.

(** ** findIntentsByContext: grouping by intent name *)

Lemma first_seen_In (x : string) (names : list string) :
  In x (first_seen names) <-> In x names.
Proof.
  induction names as [| y rest IH]; [reflexivity |].
  cbn [first_seen In]. rewrite List.filter_In, IH.
  destruct (String.eqb_spec x y) as [-> | Hne].
  - tauto.
  - split; [tauto |]. intros [Heq | Hin]; [congruence | right; auto].
Qed.

Lemma first_seen_snoc (names : list string) (x : string) :
  first_seen (names ++ [x])
  = if existsb (String.eqb x) names then first_seen names else first_seen names ++ [x].
Proof.
  induction names as [| y rest IH]; [reflexivity |].
  cbn [app first_seen existsb]. rewrite IH.
  destruct (String.eqb_spec x y) as [-> | Hne]; cbn [orb].
  - destruct (existsb (String.eqb y) rest); [reflexivity |].
    rewrite List.filter_app. cbn [List.filter]. rewrite String.eqb_refl. cbn [negb].
    rewrite app_nil_r. reflexivity.
  - destruct (existsb (String.eqb x) rest); [reflexivity |].
    rewrite List.filter_app. cbn [List.filter].
    apply String.eqb_neq in Hne. rewrite Hne. reflexivity.
Qed.

Lemma first_seen_distinct (x : string) (names : list string) :
  List.filter (String.eqb x) (first_seen names)
  = if existsb (String.eqb x) names then [x] else [].
Proof.
  induction names as [| y rest IH]; [reflexivity |].
  cbn [first_seen existsb List.filter].
  assert (Hfilter : forall l : list string,
             List.filter (String.eqb x) (List.filter (fun z => negb (String.eqb z y)) l)
             = if String.eqb x y then [] else List.filter (String.eqb x) l).
  { induction l as [| z l IHl]; [now destruct (String.eqb x y) |].
    cbn [List.filter].
    destruct (String.eqb_spec z y) as [-> | Hzy]; cbn [negb List.filter].
    - destruct (String.eqb_spec x y) as [-> | Hxy]; [exact IHl | exact IHl].
    - destruct (String.eqb_spec x z) as [-> | Hxz].
      + apply String.eqb_neq in Hzy. rewrite Hzy. rewrite IHl, Hzy. reflexivity.
      + rewrite IHl. reflexivity. }
  rewrite Hfilter, IH.
  destruct (String.eqb_spec x y) as [-> | Hxy]; reflexivity.
Qed.

Section Grouping.

Context (intentName : string) (app : AppMetadata) (old : string -> list AppMetadata).

Lemma find_named (names : list string) :
  List.find (named intentName) (map (fun x => app_intent x (old x)) names)
  = match List.filter (String.eqb intentName) names with
    | [] => None
    | x :: _ => Some (app_intent x (old x))
    end.
Proof.
  induction names as [| x rest IH]; [reflexivity |].
  cbn [map List.find List.filter].
  change (named intentName (app_intent x (old x))) with (String.eqb x intentName).
  rewrite (String.eqb_sym x intentName).
  destruct (String.eqb intentName x); [reflexivity | exact IH].
Qed.

Lemma map_updated_elsewhere (names : list string) :
  List.filter (String.eqb intentName) names = [] ->
  map (fun x => app_intent x (updated intentName app old x)) names = map (fun x => app_intent x (old x)) names.
Proof.
  induction names as [| x rest IH]; [reflexivity |].
  cbn [map List.filter]. unfold updated at 1.
  destruct (String.eqb intentName x); [discriminate |].
  intros Hrest. rewrite app_nil_r, (IH Hrest). reflexivity.
Qed.

Lemma push_to_found_updates (names : list string) :
  length (List.filter (String.eqb intentName) names) <= 1 ->
  push_to_found intentName app (map (fun x => app_intent x (old x)) names)
  = map (fun x => app_intent x (updated intentName app old x)) names.
Proof.
  induction names as [| x rest IH]; [reflexivity |].
  cbn [map List.filter push_to_found].
  change (named intentName (app_intent x (old x))) with (String.eqb x intentName).
  rewrite (String.eqb_sym x intentName). unfold updated at 1.
  destruct (String.eqb intentName x); cbn [length]; intros Hcount.
  - rewrite map_updated_elsewhere.
    + reflexivity.
    + destruct (List.filter (String.eqb intentName) rest); [reflexivity | simpl in Hcount; lia].
  - rewrite app_nil_r, (IH Hcount). reflexivity.
Qed.

End Grouping.

(** Recording one more match is grouping one more match. *)
Lemma record_match_groups (found : list (string * AppMetadata)) (intentName : string)
    (app : AppMetadata) :
  record_match intentName app (group_by_intent found)
  = group_by_intent (found ++ [(intentName, app)]).
Proof.
  unfold record_match, group_by_intent.
  set (old := fun x => map snd (List.filter (fun hit : string * AppMetadata => String.eqb (fst hit) x) found)).
  assert (Hnew : forall x,
             app_intent x (map snd (List.filter (fun hit : string * AppMetadata => String.eqb (fst hit) x)
                                  (found ++ [(intentName, app)])))
             = app_intent x (updated intentName app old x)).
  { intros x. unfold updated, old. rewrite List.filter_app, map_app. cbn [List.filter fst].
    destruct (String.eqb intentName x); reflexivity. }
  rewrite (map_ext _ _ Hnew).
  rewrite find_named, map_app. cbn [map fst]. rewrite first_seen_snoc.
  pose proof (first_seen_distinct intentName (map fst found)) as Hdistinct.
  destruct (existsb (String.eqb intentName) (map fst found)) eqn:Hseen.
  - rewrite Hdistinct. apply push_to_found_updates. rewrite Hdistinct. simpl. lia.
  - rewrite Hdistinct, map_app. cbn [map].
    rewrite (map_updated_elsewhere intentName app old _ Hdistinct).
    assert (Hnone : forall l : list (string * AppMetadata),
               existsb (String.eqb intentName) (map fst l) = false ->
               List.filter (fun hit : string * AppMetadata => String.eqb (fst hit) intentName) l = []).
    { induction l as [| hit l IHl]; [reflexivity |].
      cbn [map existsb List.filter]. rewrite (String.eqb_sym (fst hit) intentName).
      destruct (String.eqb intentName (fst hit)); cbn [orb]; [discriminate | exact IHl]. }
    apply f_equal2; [reflexivity |].
    unfold updated, app_intent, old. rewrite String.eqb_refl, (Hnone found Hseen).
    reflexivity.
Qed.

Lemma fold_record_match (found : list (Intent * AppMetadata)) :
  fold_left (add_hit (fun methodIntent app appIntents =>
                        record_match (intent_name methodIntent) app appIntents))
            found []
  = group_by_intent (map named_hit found).
Proof.
  induction found as [| hit found IH] using rev_ind; [reflexivity |].
  rewrite fold_left_app, map_app, IH. cbn [fold_left map]. unfold add_hit at 1.
  apply record_match_groups.
Qed.

(** No name comes twice in the first-seen order. *)
Lemma first_seen_once (names : list string) : List.NoDup (first_seen names).
Proof.
  induction names as [| x rest IH]; cbn [first_seen]; constructor.
  - rewrite List.filter_In, String.eqb_refl. intros [_ Hx]. discriminate Hx.
  - apply List.NoDup_filter. exact IH.
Qed.

(** C6: [findIntentsByContext(ctx)], when every platform's discovery
    resolves: the matches (the declared intents whose context serialises as
    [ctx] does, in platform, method and declaration order) are grouped by
    intent name; there is one [AppIntent] per name, in the order in which
    the names are first seen, and the applications of the matches with that
    name are appended to it in the order of the matches. *)
Theorem findIntentsByContext_groups_by_intent_name
    (remote : Remote) (context : JsValue) (platforms : list Platform)
    (issued issued' : list Call) (discovered : list (list Method)) :
  Utils.validateContext context = Normal tt ->
  run remote (discover_all platforms) issued = (Resolved discovered, issued') ->
  owned (for_context context) (concat discovered) ->
  run remote (findIntentsByContext context platforms) issued
  = (Resolved (group_by_intent
                 (map named_hit (hits (for_context context) (concat discovered)))),
     issued').
Proof.
  intros Hvalid Hdiscovered Howned.
  rewrite findIntentsByContext_scan, run_bind, Hvalid. cbn [lift run].
  fold (for_context context).
  rewrite (run_scan _ _ remote platforms _ issued issued' discovered Hdiscovered Howned).
  rewrite fold_record_match. reflexivity.
Qed.

Lemma findIntentsByContext_groups_by_intent_name_witness :
  run call_remote (findIntentsByContext contact [platform "A" 0; platform "B" 1]) []
  = (Resolved [ app_intent "Call" [ {| app_name := "phone" |}; {| app_name := "messenger" |} ];
                app_intent "Chat" [ {| app_name := "messenger" |} ] ],
     [log (DiscoverMethods (peer 0)); log (DiscoverMethods (peer 1))]).
Proof.
  apply (findIntentsByContext_groups_by_intent_name
           call_remote contact [platform "A" 0; platform "B" 1] []
           [log (DiscoverMethods (peer 0)); log (DiscoverMethods (peer 1))]
           [ [method "call" [{| intent_name := "Call"; intent_context := contact |}] "phone"];
             [method "chat" [{| intent_name := "Chat"; intent_context := contact |}] "messenger";
              method "call" [{| intent_name := "Call"; intent_context := contact |}]
                     "messenger"] ]).
  - reflexivity.
  - reflexivity.
  - unfold owned. cbn. repeat constructor; discriminate.
Defined.

(** ** open *)

Section Offering.

Context (remote : Remote) (Hsteady : steady remote).

Lemma run_platforms_supporting (methodName : string) (platforms supporting : list Platform)
    (issued : list Call) :
  Forall (discoverable remote) platforms ->
  run remote
      (for_each platforms (fun platform supporting =>
         platformMethods <- await (DiscoverMethods (platformApi platform)) ;;
         if platformHasMethod platform platformMethods methodName
         then Ret (supporting ++ [platform]) else Ret supporting) supporting)
      issued
  = (Resolved (supporting ++ List.filter (exposes remote methodName) platforms),
     issued ++ map (fun platform => log (DiscoverMethods (platformApi platform))) platforms).
Proof.
  revert supporting issued.
  induction platforms as [| platform rest IH]; intros supporting issued Hall.
  - cbn. rewrite !app_nil_r. reflexivity.
  - inversion Hall as [| ? ? [platformMethods Hfirst] Hrest]; subst.
    rewrite for_each_cons, run_bind, run_bind, run_await.
    rewrite (Hsteady _ issued []), Hfirst.
    cbn [List.filter map]. unfold exposes at 1. rewrite Hfirst.
    destruct (platformHasMethod platform platformMethods methodName); cbn [run].
    + rewrite (IH _ _ Hrest), <- !app_assoc. reflexivity.
    + rewrite (IH _ _ Hrest), <- !app_assoc. reflexivity.
Qed.

Lemma run_platformHasProvidedApp (app : string) (platform : Platform) (issued : list Call) :
  lists_at_most_once remote app platform ->
  run remote (platformHasProvidedApp platform app) issued
  = (Resolved (lists remote app platform), issued ++ [log (listApplications platform)]).
Proof.
  intros Hlist. unfold platformHasProvidedApp.
  rewrite run_bind, run_try_catch, run_bind, run_await.
  fold (listApplications platform). unfold lists.
  rewrite (Hsteady _ issued []).
  destruct (remote _ [] (listApplications platform)) as [listing | e] eqn:Hlisting.
  - cbn [run]. destruct (Hlist listing Hlisting) as (named & Hnamed & Hlength).
    rewrite run_bind, run_lift, Hnamed.
    destruct named as [| one [| two more]]; cbn in Hlength |- *;
      [reflexivity | reflexivity | lia].
  - reflexivity.
Qed.

Lemma run_platforms_with_app (app : string) (platforms withApp : list Platform)
    (issued : list Call) :
  Forall (lists_at_most_once remote app) platforms ->
  run remote
      (for_each platforms (fun platform withApp =>
         platformHasProvidedApp <- platformHasProvidedApp platform app ;;
         if platformHasProvidedApp : bool then Ret (withApp ++ [platform]) else Ret withApp)
         withApp)
      issued
  = (Resolved (withApp ++ List.filter (lists remote app) platforms),
     issued ++ map (fun platform => log (listApplications platform)) platforms).
Proof.
  revert withApp issued.
  induction platforms as [| platform rest IH]; intros withApp issued Hall.
  - cbn. rewrite !app_nil_r. reflexivity.
  - inversion Hall as [| ? ? Hfirst Hrest]; subst.
    rewrite for_each_cons, run_bind, run_bind, (run_platformHasProvidedApp _ _ _ Hfirst).
    cbn [List.filter map].
    destruct (lists remote app platform); cbn [run].
    + rewrite (IH _ _ Hrest), <- !app_assoc. reflexivity.
    + rewrite (IH _ _ Hrest), <- !app_assoc. reflexivity.
Qed.

End Offering.

Lemma filter_filter_andb {A : Type} (f g : A -> bool) (l : list A) :
  List.filter f (List.filter g l) = List.filter (fun x => g x && f x) l.
Proof.
  induction l as [| x rest IH]; [reflexivity |].
  cbn [List.filter]. destruct (g x); cbn [andb List.filter].
  - destruct (f x); rewrite IH; reflexivity.
  - exact IH.
Qed.

Lemma Forall_filter_sub {A : Type} (P : A -> Prop) (f : A -> bool) (l : list A) :
  Forall P l -> Forall P (List.filter f l).
Proof.
  induction 1 as [| x rest Hx Hrest IH]; cbn [List.filter]; [constructor |].
  destruct (f x); [constructor; assumption | assumption].
Qed.

(** The resolution of an unqualified name, on a steady remote side whose
    discoveries resolve and whose listings name [app] at most once. *)
Lemma run_getPlatform_unqualified (remote : Remote) (defaultErrorMessage app : string)
    (platforms : list Platform) (issued : list Call) :
  steady remote ->
  Forall (discoverable remote) platforms ->
  Forall (lists_at_most_once remote app) platforms ->
  run remote (getPlatform defaultErrorMessage app None platforms) issued
  = match List.filter (offers remote app) platforms with
    | [] =>
        (Rejected (Error ("There are no platforms with application named '"
                            +:+ app +:+ "'.")),
         issued ++ resolution_calls remote platforms)
    | [platform] =>
        (Resolved (if exposes remote "StartApplication" platform then Some platform
                   else None),
         issued ++ resolution_calls remote platforms
                ++ [log (DiscoverMethods (platformApi platform))])
    | _ :: _ :: _ =>
        (Rejected (Error ("There are multiple platforms with application named '"
                            +:+ app +:+ "'.")),
         issued ++ resolution_calls remote platforms)
    end.
Proof.
  intros Hsteady Hdiscoverable Hlists.
  unfold getPlatform, platforms_supporting, platforms_with_app, resolution_calls.
  cbn [given].
  rewrite run_bind, (run_platforms_supporting remote Hsteady _ _ _ _ Hdiscoverable).
  rewrite run_bind, (run_platforms_with_app remote Hsteady app).
  2: { apply Forall_filter_sub. exact Hlists. }
  cbn [Datatypes.app]. rewrite filter_filter_andb. fold (offers remote app).
  pose proof (Forall_filter_sub _ (offers remote app) _ Hdiscoverable) as Hoffering.
  rewrite <- !app_assoc.
  destruct (List.filter (offers remote app) platforms) as [| platform [| another more]].
  - reflexivity.
  - rewrite run_bind, (run_platforms_supporting remote Hsteady _ _ _ _ Hoffering).
    cbn [Datatypes.app List.filter map head run]. rewrite <- !app_assoc.
    destruct (exposes remote "StartApplication" platform); reflexivity.
  - reflexivity.
Qed.

(** C4 (as amended): [open(app)] with an unqualified name and valid
    arguments, on a steady remote side whose discoveries resolve and whose
    application lists name [app] at most once.  When no candidate platform
    lists [app] the call is rejected with "There are no platforms with
    application named"; when more than one does, with "There are multiple
    platforms with application named"; when exactly one does and it has the
    start-application capability, that capability is invoked last, with
    [{application, context}], and the call resolves with the result of the
    invocation when the invocation resolves. *)
Theorem open_unqualified_resolves_by_cardinality
    (remote : Remote) (app : string) (context : JsValue) (platforms : list Platform)
    (issued : list Call) :
  steady remote ->
  Utils.validateOpenParams (JStr app) context = Normal tt ->
  given (getPlatformName app) = false ->
  Forall (discoverable remote) platforms ->
  Forall (lists_at_most_once remote app) platforms ->
  match List.filter (offers remote app) platforms with
  | [] =>
      run remote (open (JStr app) context platforms) issued
      = (Rejected (Error ("There are no platforms with application named '"
                            +:+ app +:+ "'.")),
         issued ++ resolution_calls remote platforms)
  | [platform] =>
      exposes remote "StartApplication" platform = true ->
      forall started : InvokeResult,
        remote _ [] (startApplication platform app context) = Resolved started ->
        run remote (open (JStr app) context platforms) issued
        = (Resolved (result started),
           issued ++ resolution_calls remote platforms
                  ++ [log (DiscoverMethods (platformApi platform));
                      log (startApplication platform app context)])
  | _ :: _ :: _ =>
      run remote (open (JStr app) context platforms) issued
      = (Rejected (Error ("There are multiple platforms with application named '"
                            +:+ app +:+ "'.")),
         issued ++ resolution_calls remote platforms)
  end.
Proof.
  intros Hsteady Hvalid Hunqualified Hdiscoverable Hlists.
  pose proof (fun defaultErrorMessage =>
                run_getPlatform_unqualified remote defaultErrorMessage app platforms issued
                  Hsteady Hdiscoverable Hlists) as Hresolution.
  unfold open. rewrite Hvalid. cbn [lift bind string_of]. rewrite Hunqualified.
  destruct (List.filter (offers remote app) platforms) as [| platform [| another more]].
  - rewrite run_bind, run_try_catch, Hresolution. cbn [run message].
    unfold or_default. cbn [String.eqb Ascii.eqb Bool.eqb]. reflexivity.
  - intros Hstart started Hstarted.
    rewrite run_bind, run_try_catch, Hresolution, Hstart.
    rewrite run_try_catch, run_bind, run_await. fold (startApplication platform app context).
    rewrite (Hsteady _ _ []), Hstarted. cbn [run]. rewrite <- !app_assoc. reflexivity.
  - rewrite run_bind, run_try_catch, Hresolution. cbn [run message].
    unfold or_default. cbn [String.eqb Ascii.eqb Bool.eqb]. reflexivity.
Qed.

Lemma remote_of_steady (desks : nat -> Desk) (reply : Settled InteropPeer) :
  steady (remote_of desks (fun _ _ => reply)).
Proof. intros X issued issued' call. destruct call; reflexivity. Qed.

Lemma launcher_discoverable : Forall (discoverable launcher) three_platforms.
Proof. repeat constructor; eexists; reflexivity. Qed.

Lemma launcher_lists_at_most_once (app : string) :
  (app = "editor" \/ app = "charts" \/ app = "mail") ->
  Forall (lists_at_most_once launcher app) three_platforms.
Proof.
  intros Happ. repeat constructor; intros listing Hlisting;
    cbn in Hlisting; inversion Hlisting; subst;
    destruct Happ as [-> | [-> | ->]]; eexists; (split; [reflexivity | simpl; lia]).
Qed.

Lemma open_unqualified_resolves_by_cardinality_witness :
  run launcher (open (JStr "editor") instrument three_platforms) []
  = (Resolved (JObj [("started",
                      JObj [("application", JStr "editor"); ("context", instrument)])]),
     [log (DiscoverMethods (peer 0)); log (DiscoverMethods (peer 1));
      log (DiscoverMethods (peer 2));
      log (listApplications (platform "A" 0)); log (listApplications (platform "B" 1));
      log (DiscoverMethods (peer 0));
      log (startApplication (platform "A" 0) "editor" instrument)]) /\
  run launcher (open (JStr "charts") instrument three_platforms) []
  = (Rejected (Error "There are multiple platforms with application named 'charts'."),
     [log (DiscoverMethods (peer 0)); log (DiscoverMethods (peer 1));
      log (DiscoverMethods (peer 2));
      log (listApplications (platform "A" 0)); log (listApplications (platform "B" 1))]) /\
  run launcher (open (JStr "mail") instrument three_platforms) []
  = (Rejected (Error "There are no platforms with application named 'mail'."),
     [log (DiscoverMethods (peer 0)); log (DiscoverMethods (peer 1));
      log (DiscoverMethods (peer 2));
      log (listApplications (platform "A" 0)); log (listApplications (platform "B" 1))]).
Proof.
  split; [| split].
  - exact (open_unqualified_resolves_by_cardinality
             launcher "editor" instrument three_platforms []
             (remote_of_steady launcher_desks unreachable) eq_refl eq_refl
             launcher_discoverable
             (launcher_lists_at_most_once "editor" (or_introl eq_refl))
             eq_refl
             {| result := JObj [("started",
                                 JObj [("application", JStr "editor");
                                       ("context", instrument)])] |}
             eq_refl).
  - exact (open_unqualified_resolves_by_cardinality
             launcher "charts" instrument three_platforms []
             (remote_of_steady launcher_desks unreachable) eq_refl eq_refl
             launcher_discoverable
             (launcher_lists_at_most_once "charts" (or_intror (or_introl eq_refl)))).
  - exact (open_unqualified_resolves_by_cardinality
             launcher "mail" instrument three_platforms []
             (remote_of_steady launcher_desks unreachable) eq_refl eq_refl
             launcher_discoverable
             (launcher_lists_at_most_once "mail" (or_intror (or_intror eq_refl)))).
Defined.

(** C4, counterexample: three calls on a single platform.  The platform
    is a candidate, can start applications and lists an application named
    editor, twice: the guard of [platformHasProvidedApp] rejects the call
    with "There are multiple applications named" and nothing is started.
    The discovery of the platform is rejected: no candidate lists the
    application, and the call is rejected with the message of the
    discovery, not with "There are no platforms".  The platform lists the
    editor once and rejects the invocation of its start capability: the
    capability is invoked and the call is rejected with the default
    message. *)
Lemma open_outside_the_three_cases :
  (exposes twice "ListApplications" (platform "A" 0) = true
   /\ exposes twice "StartApplication" (platform "A" 0) = true
   /\ filter_applications "editor"
        (JArr [named_application "editor"; named_application "editor"])
      = Normal [named_application "editor"; named_application "editor"]
   /\ run twice (open (JStr "editor") instrument [platform "A" 0]) []
      = (Rejected (Error "There are multiple applications named 'editor'."),
         [log (DiscoverMethods (peer 0)); log (listApplications (platform "A" 0))]))
  /\ (List.filter (offers down "editor") [platform "A" 0] = []
      /\ run down (open (JStr "editor") instrument [platform "A" 0]) []
         = (Rejected (Error "platform is down"), [log (DiscoverMethods (peer 0))]))
  /\ (List.filter (offers stalled "editor") [platform "A" 0] = [platform "A" 0]
      /\ run stalled (open (JStr "editor") instrument [platform "A" 0]) []
         = (Rejected (Error ("Unable to start application named "
                               +:+ dq +:+ "editor" +:+ dq)),
            [log (DiscoverMethods (peer 0)); log (listApplications (platform "A" 0));
             log (DiscoverMethods (peer 0));
             log (startApplication (platform "A" 0) "editor" instrument)])).
Proof. repeat split; reflexivity. Qed.

Lemma validateOpenParams_error (app context : JsValue) (e : JsError) :
  Utils.validateOpenParams app context = Abrupt e -> exists m, e = Error m.
Proof.
  unfold Utils.validateOpenParams.
  destruct (negb (truthy app)); [intros H; inversion H; eauto |].
  destruct (negb (String.eqb (typeof app) "string")); [intros H; inversion H; eauto |].
  destruct (Utils.validateContext context) as [[] | error]; intros H; inversion H; eauto.
Qed.

(** Every rejection of [open] carries an [Error] built by [open] itself or
    by validation, except the one raised when the resolution hands back no
    platform. *)
Lemma open_rejections (remote : Remote) (app context : JsValue) (platforms : list Platform)
    (issued issued' : list Call) (e : JsError) :
  run remote (open app context platforms) issued = (Rejected e, issued') ->
  (exists m, e = Error m) \/ e = TypeError "Cannot read property 'name' of undefined".
Proof.
  unfold open. rewrite run_bind, run_lift.
  destruct (Utils.validateOpenParams app context) as [[] | invalid] eqn:Hvalid.
  - rewrite run_bind, run_try_catch.
    match goal with
    | |- context [run remote ?resolution issued] =>
        destruct (run remote resolution issued) as [[[found |] | failure] issued1]
    end; cbn [run].
    + rewrite run_try_catch, run_bind, run_await.
      match goal with
      | |- context [remote ?X ?t ?c] => destruct (remote X t c) as [started | failure]
      end; cbn [run]; intros H; inversion H; subst. eauto.
    + intros H; inversion H; subst. right. reflexivity.
    + intros H; inversion H; subst. eauto.
  - intros H; inversion H; subst. left. eapply validateOpenParams_error. exact Hvalid.
Qed.

(** C5: [open] of an application that exactly one platform lists, when
    that platform has no start-application capability.  The resolution
    hands back element 0 of an empty array; reading its [name] raises the
    engine's [TypeError] outside both [try] blocks, and that is what the
    call is rejected with: neither the default message nor one produced
    during resolution. *)
Theorem open_leaks_type_error_when_platform_cannot_start :
  List.filter (offers launcher "charts") [platform "B" 1; platform "C" 2] = [platform "B" 1] /\
  exposes launcher "StartApplication" (platform "B" 1) = false /\
  run launcher (open (JStr "charts") instrument [platform "B" 1; platform "C" 2]) []
  = (Rejected (TypeError "Cannot read property 'name' of undefined"),
     [log (DiscoverMethods (peer 1)); log (DiscoverMethods (peer 2));
      log (listApplications (platform "B" 1)); log (DiscoverMethods (peer 1))]).
Proof. repeat split; reflexivity. Qed.

(** ** broadcast: detached tasks *)

Lemma try_catch_never_throws {A : Type} (p : Prog A) (handler : JsError -> Prog A) :
  (forall e, never_throws (handler e)) -> never_throws (try_catch p handler).
Proof.
  intros Hhandler. induction p as [a | e | X call k IH]; cbn [try_catch].
  - constructor.
  - apply Hhandler.
  - constructor. exact IH.
Qed.

Lemma deliver_never_throws (context : JsValue) (platform : Platform) :
  never_throws (deliver context platform).
Proof. apply try_catch_never_throws. intros e. constructor. Qed.

Lemma never_throws_run {A : Type} (remote : Remote) (p : Prog A) (issued : list Call) :
  never_throws p -> exists a, fst (run remote p issued) = Resolved a.
Proof.
  intros Hp. revert issued. induction Hp as [a | X call k Hk IH]; intros issued.
  - exists a. reflexivity.
  - cbn [run]. apply IH.
Qed.

Lemma resume_never_throws (remote : Remote) (task : Prog unit) (issued : list Call) :
  never_throws task -> never_throws (fst (resume remote task issued)).
Proof.
  intros Htask. destruct Htask as [a | X call k Hk]; cbn [resume fst].
  - constructor.
  - apply Hk.
Qed.

Lemma interleave_never_throws (remote : Remote) (schedule : list nat)
    (pool : list (Prog unit)) (issued : list Call) :
  Forall never_throws pool ->
  Forall never_throws (fst (interleave remote schedule pool issued)).
Proof.
  revert pool issued. induction schedule as [| i later IH]; intros pool issued Hpool.
  - exact Hpool.
  - cbn [interleave]. destruct (pool !! i) as [task |] eqn:Htask.
    + pose proof (resume_never_throws remote task issued) as Hresumed.
      destruct (resume remote task issued) as [task' issued1].
      apply IH. apply Forall_insert; [exact Hpool |].
      apply Hresumed. eapply Forall_lookup_1; eauto.
    + apply IH. exact Hpool.
Qed.

Lemma resume_extends (remote : Remote) (task : Prog unit) (issued : list Call) :
  exists calls, snd (resume remote task issued) = issued ++ calls.
Proof.
  destruct task as [a | e | X call k]; cbn [resume snd].
  - exists []. now rewrite app_nil_r.
  - exists []. now rewrite app_nil_r.
  - exists [log call]. reflexivity.
Qed.

Section Delivery.

Context (remote : Remote) (context : JsValue) (i : nat) (platform : Platform)
        (methods : list Method).
Context (Hreachable : reachable remote context platform methods).

Lemma delivered_later (issued calls : list Call) (done : list Method) :
  Forall (delivered context platform issued) done ->
  Forall (delivered context platform (issued ++ calls)) done.
Proof.
  intros Hdone. eapply Forall_impl; [exact Hdone |].
  intros method Hin. unfold delivered in *. apply in_or_app. left. exact Hin.
Qed.

Lemma at_stage_turn (pool : list (Prog unit)) (issued : list Call) (left : nat)
    (task : Prog unit) :
  at_stage context i platform methods pool issued left ->
  pool !! i = Some task ->
  at_stage context i platform methods (<[i := fst (resume remote task issued)]> pool)
           (snd (resume remote task issued)) (left - 1).
Proof.
  destruct Hreachable as [Hdiscovery Hinvocations].
  intros [[Hstart ->] | (done & rest & Hsplit & Hloop & Hdone & ->)] Htask.
  - rewrite Hstart in Htask. inversion Htask; subst task. clear Htask.
    right. exists [], (context_listeners platform methods).
    split; [reflexivity |]. split; [| split; [constructor | cbn; lia]].
    rewrite list_lookup_insert_eq by (eapply lookup_lt_Some; exact Hstart).
    cbn [deliver resume fst try_catch bind await]. rewrite Hdiscovery. reflexivity.
  - rewrite Hloop in Htask. inversion Htask; subst task. clear Htask.
    destruct rest as [| method rest].
    + right. exists done, []. cbn [deliver_to for_each try_catch resume fst snd].
      split; [exact Hsplit |]. split; [| split; [exact Hdone | reflexivity]].
      apply list_lookup_insert_eq. eapply lookup_lt_Some. exact Hloop.
    + destruct (Hinvocations issued method) as [answer Hanswer].
      { rewrite Hsplit. apply in_or_app. right. left. reflexivity. }
      right. exists (done ++ [method]), rest.
      split; [rewrite Hsplit, <- app_assoc; reflexivity |].
      cbn [deliver_to for_each try_catch bind await resume fst snd].
      rewrite Hanswer. split; [| split].
      * apply list_lookup_insert_eq. eapply lookup_lt_Some. exact Hloop.
      * apply Forall_app. split.
        -- apply delivered_later. exact Hdone.
        -- constructor; [| constructor]. unfold delivered. apply in_or_app. right.
           left. reflexivity.
      * cbn [length]. lia.
Qed.

Lemma at_stage_other_turn (pool : list (Prog unit)) (issued : list Call) (left : nat)
    (j : nat) (task : Prog unit) :
  j <> i ->
  at_stage context i platform methods pool issued left ->
  at_stage context i platform methods (<[j := fst (resume remote task issued)]> pool)
           (snd (resume remote task issued)) left.
Proof.
  intros Hother Hstage.
  destruct (resume_extends remote task issued) as [calls ->].
  destruct Hstage as [[Hstart ->] | (done & rest & Hsplit & Hloop & Hdone & ->)].
  - left. split; [| reflexivity]. rewrite list_lookup_insert_ne by exact Hother. exact Hstart.
  - right. exists done, rest. split; [exact Hsplit |]. split; [| split; [| reflexivity]].
    + rewrite list_lookup_insert_ne by exact Hother. exact Hloop.
    + apply delivered_later. exact Hdone.
Qed.

Lemma interleave_stage (schedule : list nat) (pool : list (Prog unit))
    (issued : list Call) (left : nat) :
  at_stage context i platform methods pool issued left ->
  at_stage context i platform methods (fst (interleave remote schedule pool issued))
           (snd (interleave remote schedule pool issued))
           (left - turns i schedule).
Proof.
  revert pool issued left.
  induction schedule as [| j later IH]; intros pool issued left Hstage.
  - cbn. rewrite Nat.sub_0_r. exact Hstage.
  - cbn [interleave]. unfold turns. cbn [List.filter].
    destruct (Nat.eqb_spec i j) as [<- | Hother].
    + assert (exists task, pool !! i = Some task) as [task Htask].
      { destruct Hstage as [[Hstart _] | (done & rest & _ & Hloop & _)]; eauto. }
      rewrite Htask.
      pose proof (at_stage_turn pool issued left task Hstage Htask) as Hturn.
      destruct (resume remote task issued) as [task' issued1]. cbn [fst snd] in Hturn.
      apply IH in Hturn. cbn [length]. fold (turns i later).
      replace (left - S (turns i later)) with (left - 1 - turns i later) by lia.
      exact Hturn.
    + fold (turns i later). destruct (pool !! j) as [task |].
      * pose proof (at_stage_other_turn pool issued left j task
                      (fun H => Hother (eq_sym H)) Hstage) as Hturn.
        destruct (resume remote task issued) as [task' issued1]. cbn [fst snd] in Hturn.
        apply IH. exact Hturn.
      * apply IH. exact Hstage.
Qed.

(** However the tasks are interleaved: once the delivery to a reachable
    platform has finished, each of its context listeners has been invoked
    with the context; and it has finished once it has had one turn for the
    discovery and one for each listener. *)
Lemma interleave_delivers (schedule : list nat) (pool : list (Prog unit))
    (issued : list Call) :
  pool !! i = Some (deliver context platform) ->
  (fst (interleave remote schedule pool issued) !! i = Some (Ret tt) ->
   Forall (delivered context platform (snd (interleave remote schedule pool issued)))
          (context_listeners platform methods))
  /\ (S (length (context_listeners platform methods)) <= turns i schedule ->
      fst (interleave remote schedule pool issued) !! i = Some (Ret tt)).
Proof.
  intros Hstart.
  pose proof (interleave_stage schedule pool issued
                (S (length (context_listeners platform methods)))
                (or_introl (conj Hstart eq_refl))) as Hstage.
  split.
  - intros Hfinished.
    destruct Hstage as [[Hstill _] | (done & rest & Hsplit & Hloop & Hdone & _)].
    + rewrite Hstill in Hfinished. discriminate Hfinished.
    + rewrite Hloop in Hfinished. destruct rest as [| method rest].
      * rewrite app_nil_r in Hsplit. rewrite Hsplit. exact Hdone.
      * discriminate Hfinished.
  - intros Hturns.
    destruct Hstage as [[_ Hleft] | (done & rest & _ & Hloop & _ & Hleft)].
    + lia.
    + destruct rest as [| method rest]; [exact Hloop | cbn [length] in Hleft; lia].
Qed.

End Delivery.

Lemma lookup_map {A B : Type} (f : A -> B) (l : list A) (i : nat) :
  map f l !! i = option_map f (l !! i).
Proof.
  revert i. induction l as [| x rest IH]; intros [| i]; cbn; auto.
Qed.

(** C7: [broadcast] of a valid context returns normally, having started
    one delivery per platform.  However the deliveries are interleaved and
    whatever the platforms answer, no delivery ends in a failure: a
    rejected discovery or invocation is swallowed inside its own task.  A
    platform that answers its discovery and the invocations of its context
    listeners is delivered to whatever the other platforms do: its task
    finishes once it has had its turns, and when it has finished every one
    of its context listeners has been invoked with the context. *)
Theorem broadcast_never_fails_and_reaches_every_platform
    (context : JsValue) (platforms : list Platform) :
  truthy context = true ->
  Utils.validateContext context = Normal tt ->
  broadcast context platforms = Normal (map (deliver context) platforms) /\
  forall (remote : Remote) (schedule : list nat) (issued : list Call),
    Forall never_throws
           (fst (interleave remote schedule (map (deliver context) platforms) issued)) /\
    forall (i : nat) (platform : Platform) (methods : list Method),
      platforms !! i = Some platform ->
      reachable remote context platform methods ->
      (fst (interleave remote schedule (map (deliver context) platforms) issued) !! i
       = Some (Ret tt) ->
       Forall (delivered context platform
                 (snd (interleave remote schedule (map (deliver context) platforms) issued)))
              (context_listeners platform methods))
      /\ (S (length (context_listeners platform methods)) <= turns i schedule ->
          fst (interleave remote schedule (map (deliver context) platforms) issued) !! i
          = Some (Ret tt)).
Proof.
  intros Htruthy Hvalid. split.
  - unfold broadcast. rewrite Htruthy, Hvalid. reflexivity.
  - intros remote schedule issued. split.
    + apply interleave_never_throws.
      induction platforms as [| platform rest IH]; constructor.
      * apply deliver_never_throws.
      * exact IH.
    + intros i platform methods Hplatform Hreachable.
      apply (interleave_delivers remote context i platform methods Hreachable).
      rewrite lookup_map, Hplatform. reflexivity.
Qed.

Lemma listening_reachable_A :
  reachable listening contact (platform "A" 0) [listener "A"; method "Fdc3.A.Other" [] "A"].
Proof. split; [reflexivity |]. intros issued method _. eexists. reflexivity. Qed.

Lemma listening_reachable_C :
  reachable listening contact (platform "C" 2) [listener "C"].
Proof. split; [reflexivity |]. intros issued method _. eexists. reflexivity. Qed.

Example broadcast_interleaved :
  interleave listening [2; 1; 0; 1; 0; 2] (map (deliver contact) three_platforms) []
  = ([Ret tt; Ret tt; Ret tt],
     [log (DiscoverMethods (peer 2)); log (DiscoverMethods (peer 1));
      log (DiscoverMethods (peer 0));
      log (Invoke (peer 0) (ByMethod (listener "A")) contact);
      log (Invoke (peer 2) (ByMethod (listener "C")) contact)]).
Proof. reflexivity. Qed.

Lemma broadcast_never_fails_and_reaches_every_platform_witness :
  broadcast contact three_platforms = Normal (map (deliver contact) three_platforms) /\
  Forall never_throws
         (fst (interleave listening [2; 1; 0; 1; 0; 2]
                          (map (deliver contact) three_platforms) [])) /\
  delivered contact (platform "A" 0)
            (snd (interleave listening [2; 1; 0; 1; 0; 2]
                             (map (deliver contact) three_platforms) []))
            (listener "A") /\
  delivered contact (platform "C" 2)
            (snd (interleave listening [2; 1; 0; 1; 0; 2]
                             (map (deliver contact) three_platforms) []))
            (listener "C").
Proof.
  destruct (broadcast_never_fails_and_reaches_every_platform contact three_platforms
              eq_refl eq_refl) as [Hreturns Htasks].
  destruct (Htasks listening [2; 1; 0; 1; 0; 2] []) as [Hsafe Hdelivery].
  split; [exact Hreturns |]. split; [exact Hsafe |]. split.
  - destruct (Hdelivery 0 (platform "A" 0) _ eq_refl listening_reachable_A) as [Hdone _].
    pose proof (Hdone eq_refl) as Hall. inversion Hall; assumption.
  - destruct (Hdelivery 2 (platform "C" 2) _ eq_refl listening_reachable_C) as [Hdone _].
    pose proof (Hdone eq_refl) as Hall. inversion Hall; assumption.
Defined.

(** ** JSON.stringify tells JSON data apart *)

Local Open Scope char_scope.

Lemma JsValue_nested_ind (P : JsValue -> Prop) :
  P JUndefined -> P JNull -> (forall b, P (JBool b)) -> (forall z, P (JNum z)) ->
  (forall s, P (JStr s)) ->
  (forall items, Forall P items -> P (JArr items)) ->
  (forall props, Forall (fun prop => P (snd prop)) props -> P (JObj props)) ->
  (forall id, P (JFun id)) ->
  forall v, P v.
Proof.
  intros Hundefined Hnull Hbool Hnum Hstr Harr Hobj Hfun.
  fix self 1. intros [| | b | z | s | items | props | id].
  - exact Hundefined.
  - exact Hnull.
  - apply Hbool.
  - apply Hnum.
  - apply Hstr.
  - apply Harr. induction items as [| x rest IH]; constructor; [apply self | exact IH].
  - apply Hobj. induction props as [| [k x] rest IH]; constructor; [apply self | exact IH].
  - apply Hfun.
Qed.

Lemma stringify_text (v : JsValue) : json_data v = true -> stringify v = Some (text v).
Proof.
  induction v as [| | b | z | s | items IH | props IH | id] using JsValue_nested_ind;
    cbn [json_data stringify text]; try reflexivity; try discriminate; intros Hdata.
  - assert (map (fun x => default "null"%string (stringify x)) items = map text items) as ->;
      [| reflexivity].
    induction IH as [| x rest Hx Hrest IHrest]; [reflexivity |].
    cbn [forallb] in Hdata. apply andb_prop in Hdata as [Hdata_x Hdata_rest].
    cbn [map]. rewrite (Hx Hdata_x), (IHrest Hdata_rest). reflexivity.
  - match goal with
    | |- Some ("{" +:+ String.concat "," ?members +:+ "}")%string = _ =>
        assert (members
                = map (fun prop : string * JsValue =>
                         let '(k, x) := prop in QuoteJSONString k +:+ ":" +:+ text x)%string
                      props) as ->; [| reflexivity]
    end.
    induction IH as [| [k x] rest Hx Hrest IHrest]; [reflexivity |].
    cbn [forallb] in Hdata. apply andb_prop in Hdata as [Hdata_x Hdata_rest].
    cbn [map snd] in *. rewrite (Hx Hdata_x), (IHrest Hdata_rest). reflexivity.
Qed.

(** *** Strings: cancellation and spans *)

Lemma append_cons (c : ascii) (s t : string) : (String c s +:+ t = String c (s +:+ t))%string.
Proof. reflexivity. Qed.

Lemma append_nil (t : string) : (EmptyString +:+ t = t)%string.
Proof. reflexivity. Qed.

Lemma append_assoc (s t u : string) : ((s +:+ t) +:+ u = s +:+ (t +:+ u))%string.
Proof.
  induction s as [| c s IH]; [reflexivity |].
  rewrite !append_cons, IH. reflexivity.
Qed.

Lemma span_inj (P : ascii -> bool) (s s' r r' : string) :
  every P s = true -> every P s' = true -> stops P r = true -> stops P r' = true ->
  (s +:+ r = s' +:+ r')%string -> s = s' /\ r = r'.
Proof.
  revert s'. induction s as [| c s IH]; intros [| c' s']; cbn [every];
    rewrite ?append_cons, ?append_nil; intros Hs Hs' Hr Hr' Heq.
  - auto.
  - subst r. cbn in Hr. apply andb_prop in Hs' as [Hc _]. rewrite Hc in Hr. discriminate.
  - subst r'. cbn in Hr'. apply andb_prop in Hs as [Hc _]. rewrite Hc in Hr'. discriminate.
  - injection Heq as -> Heq. apply andb_prop in Hs as [_ Hs]. apply andb_prop in Hs' as [_ Hs'].
    destruct (IH s' Hs Hs' Hr Hr' Heq) as [-> ->]. auto.
Qed.

(** *** What may follow a value inside a text: nothing, or [,], []], [}] *)

Lemma delimiter_cases (c : ascii) :
  delimiter c = true -> c = "," \/ c = "]" \/ c = "}".
Proof.
  unfold delimiter. intros H.
  apply orb_prop in H as [H | H]; [apply orb_prop in H as [H | H] |];
    apply Ascii.eqb_eq in H; auto.
Qed.

(** *** Numbers *)

Lemma delimited_stops_number (r : string) :
  delimited r = true -> stops number_char r = true.
Proof.
  destruct r as [| c r]; [reflexivity |]. cbn [delimited stops]. intros H.
  apply delimiter_cases in H as [-> | [-> | ->]]; reflexivity.
Qed.

Lemma string_of_uint_digits (d : Decimal.uint) :
  every number_char (NilEmpty.string_of_uint d) = true.
Proof. induction d; cbn [NilEmpty.string_of_uint every]; try rewrite IHd; reflexivity. Qed.

Lemma number_to_string_chars (z : Z) : every number_char (number_to_string z) = true.
Proof.
  unfold number_to_string, NilZero.string_of_int, NilZero.string_of_uint.
  destruct (Z.to_int z) as [d | d]; destruct d; cbn [every];
    try rewrite string_of_uint_digits; reflexivity.
Qed.

Lemma to_int_not_nil (z : Z) :
  Z.to_int z <> Decimal.Pos Decimal.Nil /\ Z.to_int z <> Decimal.Neg Decimal.Nil.
Proof.
  destruct z as [| p | p]; cbn [Z.to_int]; split; intros H; inversion H as [Hnil];
    exact (DecimalPos.Unsigned.to_uint_nonnil p Hnil).
Qed.

Lemma number_to_string_inj (z z' : Z) :
  number_to_string z = number_to_string z' -> z = z'.
Proof.
  unfold number_to_string. intros H.
  apply (f_equal NilZero.int_of_string) in H.
  destruct (to_int_not_nil z) as [Hpos Hneg]. destruct (to_int_not_nil z') as [Hpos' Hneg'].
  rewrite !NilZero.isi in H by assumption.
  inversion H as [Hint]. apply (f_equal Z.of_int) in Hint.
  rewrite !DecimalZ.of_to in Hint. exact Hint.
Qed.

Lemma number_inj (z z' : Z) (r r' : string) :
  delimited r = true -> delimited r' = true ->
  (number_to_string z +:+ r = number_to_string z' +:+ r')%string -> z = z' /\ r = r'.
Proof.
  intros Hr Hr' Heq.
  destruct (span_inj number_char _ _ _ _ (number_to_string_chars z)
              (number_to_string_chars z') (delimited_stops_number r Hr)
              (delimited_stops_number r' Hr') Heq) as [Hnumber ->].
  split; [apply number_to_string_inj; exact Hnumber | reflexivity].
Qed.

Lemma number_first (z : Z) :
  exists c rest, number_to_string z = String c rest /\ number_char c = true.
Proof.
  pose proof (number_to_string_chars z) as Hchars.
  destruct (number_to_string z) as [| c rest] eqn:Htext.
  - exfalso. unfold number_to_string, NilZero.string_of_int, NilZero.string_of_uint in Htext.
    destruct (to_int_not_nil z) as [Hpos Hneg].
    destruct (Z.to_int z) as [d | d]; destruct d; cbn in Htext; try discriminate; congruence.
  - exists c, rest. cbn [every] in Hchars. apply andb_prop in Hchars as [Hc _]. auto.
Qed.

(** *** Strings *)

Lemma unquote_quote_char (c : ascii) (r : string) :
  unquote_char (quote_char c +:+ r) = Some (c, r).
Proof.
  destruct c as [[] [] [] [] [] [] [] []]; reflexivity.
Qed.

Lemma quote_chars_inj (s s' r r' : string) :
  (quote_chars s +:+ String "034" r = quote_chars s' +:+ String "034" r')%string ->
  s = s' /\ r = r'.
Proof.
  revert s'. induction s as [| c s IH]; intros [| c' s']; cbn [quote_chars]; intros Heq.
  - cbn in Heq. injection Heq as ->. auto.
  - rewrite append_assoc in Heq. apply (f_equal unquote_char) in Heq.
    rewrite unquote_quote_char in Heq. discriminate Heq.
  - rewrite append_assoc in Heq. apply (f_equal unquote_char) in Heq.
    rewrite unquote_quote_char in Heq. discriminate Heq.
  - rewrite !append_assoc in Heq. apply (f_equal unquote_char) in Heq.
    rewrite !unquote_quote_char in Heq. injection Heq as -> Heq.
    destruct (IH s' Heq) as [-> ->]. auto.
Qed.

Lemma QuoteJSONString_inj (s s' r r' : string) :
  (QuoteJSONString s +:+ r = QuoteJSONString s' +:+ r')%string -> s = s' /\ r = r'.
Proof.
  unfold QuoteJSONString, dq. rewrite !append_assoc. cbn [append]. intros Heq.
  injection Heq as Heq. apply quote_chars_inj. exact Heq.
Qed.

(** *** Sequences: elements joined by commas, then a closing bracket *)

Lemma joined_cons (part : string) (parts : list string) (rest : string) :
  joined (part :: parts) rest = (part +:+ after parts rest)%string.
Proof.
  unfold joined, after. destruct parts as [| next parts]; [reflexivity |].
  change (String.concat "," (part :: next :: parts))
    with (part +:+ "," +:+ String.concat "," (next :: parts))%string.
  rewrite !append_assoc. reflexivity.
Qed.

Section Sequences.

Context {A : Type} (write : A -> string) (ok : A -> Prop) (close : ascii).
Context (Hclose : delimiter close = true) (Hcomma : close <> ",").

Lemma after_delimited (parts : list string) (r : string) :
  delimited (after parts (String close r)) = true.
Proof. destruct parts; [exact Hclose | reflexivity]. Qed.

Lemma joined_cons_inj (items : list A) :
  forall (x y : A) (items' : list A) (r r' : string),
    Forall (unambiguous write ok) (x :: items) -> Forall ok (y :: items') ->
    joined (map write (x :: items)) (String close r)
    = joined (map write (y :: items')) (String close r') ->
    x = y /\ items = items' /\ r = r'.
Proof.
  induction items as [| z items IH]; intros x y items' r r' Hitems Hitems' Heq;
    cbn [map] in Heq; rewrite !joined_cons in Heq;
    inversion Hitems as [| ? ? Hx Hrest]; subst;
    inversion Hitems' as [| ? ? Hy Hrest']; subst;
    destruct (Hx y _ _ Hy (after_delimited _ r) (after_delimited _ r') Heq) as [-> Hafter];
    destruct items' as [| z' items']; cbn [map after] in Hafter.
  - injection Hafter as ->. auto.
  - injection Hafter as Hc _. contradiction.
  - injection Hafter as Hc _. symmetry in Hc. contradiction.
  - injection Hafter as Hafter.
    destruct (IH z z' items' r r' Hrest Hrest' Hafter) as (-> & -> & ->). auto.
Qed.

Lemma joined_inj (items items' : list A) (r r' : string) :
  Forall (unambiguous write ok) items -> Forall (opens write) items -> Forall ok items' -> Forall (opens write) items' ->
  joined (map write items) (String close r) = joined (map write items') (String close r') ->
  items = items' /\ r = r'.
Proof.
  intros Hitems Hopens Hitems' Hopens' Heq.
  destruct items as [| x items]; destruct items' as [| y items'].
  - cbn in Heq. injection Heq as ->. auto.
  - exfalso. inversion Hopens' as [| ? ? (c & s & Hwrite & Hc) _]; subst.
    cbn [map] in Heq. rewrite joined_cons, Hwrite in Heq. cbn in Heq.
    injection Heq as <- _. congruence.
  - exfalso. inversion Hopens as [| ? ? (c & s & Hwrite & Hc) _]; subst.
    cbn [map] in Heq. rewrite joined_cons, Hwrite in Heq. cbn in Heq.
    injection Heq as -> _. congruence.
  - destruct (joined_cons_inj items x y items' r r' Hitems Hitems' Heq) as (-> & -> & ->).
    auto.
Qed.

End Sequences.

(** *** Values *)

Lemma number_char_announces (c : ascii) : number_char c = true -> announces c = Some 3%nat.
Proof. destruct c as [[] [] [] [] [] [] [] []]; cbn; intros H; try discriminate H; reflexivity. Qed.

Lemma announced_not_delimiter (c : ascii) (k : nat) :
  announces c = Some k -> delimiter c = false.
Proof. destruct c as [[] [] [] [] [] [] [] []]; cbn; intros H; try discriminate H; reflexivity. Qed.

Lemma text_first (v : JsValue) :
  json_data v = true ->
  exists c s, text v = String c s /\ announces c = Some (kind v).
Proof.
  destruct v as [| | [] | z | s | items | props | id]; cbn [json_data text kind];
    try discriminate; intros _; try (eexists _, _; split; reflexivity).
  destruct (number_first z) as (c & rest & -> & Hc).
  exists c, rest. split; [reflexivity | apply number_char_announces; exact Hc].
Qed.

Lemma text_array (items : list JsValue) (r : string) :
  (text (JArr items) +:+ r)%string = String "[" (joined (map text items) (String "]" r)).
Proof.
  cbn [text]. unfold joined. rewrite !append_assoc, !append_cons, !append_nil. reflexivity.
Qed.

Lemma text_object (props : list (string * JsValue)) (r : string) :
  (text (JObj props) +:+ r)%string
  = String "{" (joined (map write_member props) (String "}" r)).
Proof.
  cbn [text]. unfold joined. rewrite !append_assoc, !append_cons, !append_nil. reflexivity.
Qed.

Lemma forallb_Forall {A : Type} (f : A -> bool) (l : list A) :
  forallb f l = true -> Forall (fun x => f x = true) l.
Proof.
  induction l as [| x rest IH]; cbn [forallb]; intros H; constructor;
    apply andb_prop in H as [Hx Hrest]; auto.
Qed.

(** Inside a text, JSON data is read back in one way only. *)
Lemma text_unambiguous (v : JsValue) :
  json_data v = true -> unambiguous text (fun y => json_data y = true) v.
Proof.
  induction v as [| | b | z | s | items IH | props IH | id] using JsValue_nested_ind;
    intros Hv v' r r' Hv' Hr Hr' Heq; try discriminate Hv.
  all: destruct (text_first _ Hv) as (c & rest & Hc & Hkind).
  all: destruct (text_first _ Hv') as (c' & rest' & Hc' & Hkind').
  all: match goal with
       | |- ?v = _ /\ _ =>
           assert (kind v' = kind v) as Hsame
             by (rewrite Hc, Hc', !append_cons in Heq; injection Heq as -> _; congruence)
       end.
  all: destruct v' as [| | b' | z' | s' | items' | props' | id']; try discriminate Hsame.
  all: clear c c' rest rest' Hc Hc' Hkind Hkind' Hsame.
  - cbn [text] in Heq. apply String.app_inj in Heq. auto.
  - destruct b, b'; cbn [text] in Heq; try discriminate Heq;
      apply String.app_inj in Heq; auto.
  - cbn [text] in Heq. destruct (number_inj z z' r r' Hr Hr' Heq) as [-> ->]. auto.
  - cbn [text] in Heq. destruct (QuoteJSONString_inj s s' r r' Heq) as [-> ->]. auto.
  - rewrite !text_array in Heq. injection Heq as Heq.
    cbn [json_data] in Hv, Hv'.
    apply forallb_Forall in Hv. apply forallb_Forall in Hv'.
    destruct (joined_inj text (fun y => json_data y = true) "]" eq_refl ltac:(discriminate)
                items items' r r') as [-> ->]; auto.
    + clear - IH Hv. induction IH as [| x items Hx _ IHrest]; [constructor |].
      inversion Hv; subst. constructor; auto.
    + eapply Forall_impl; [exact Hv |]. intros x Hx.
      destruct (text_first x Hx) as (c & s & Hc & Hkind).
      exists c, s. split; [exact Hc | eapply announced_not_delimiter; exact Hkind].
    + eapply Forall_impl; [exact Hv' |]. intros x Hx.
      destruct (text_first x Hx) as (c & s & Hc & Hkind).
      exists c, s. split; [exact Hc | eapply announced_not_delimiter; exact Hkind].
  - rewrite !text_object in Heq. injection Heq as Heq.
    cbn [json_data] in Hv, Hv'.
    assert (Forall data_member props) as Hprops.
    { apply forallb_Forall in Hv. eapply Forall_impl; [exact Hv |]. intros [k x] Hx. exact Hx. }
    assert (Forall data_member props') as Hprops'.
    { apply forallb_Forall in Hv'. eapply Forall_impl; [exact Hv' |]. intros [k x] Hx. exact Hx. }
    assert (forall prop : string * JsValue, opens write_member prop) as Hopens.
    { intros [k x]. unfold write_member, QuoteJSONString, dq.
      eexists _, _. rewrite !append_cons. split; reflexivity. }
    destruct (joined_inj write_member data_member "}" eq_refl ltac:(discriminate)
                props props' r r') as [-> ->]; auto.
    + clear - IH Hprops. induction IH as [| [k x] props Hx _ IHrest]; [constructor |].
      inversion Hprops as [| ? ? Hdata Hrest]; subst. constructor; [| auto].
      intros [k' x'] t t' Hdata' Ht Ht' Heq. unfold write_member in Heq.
      unfold data_member in Hdata, Hdata'. cbn [snd] in Hx, Hdata, Hdata'.
      rewrite !append_assoc in Heq.
      destruct (QuoteJSONString_inj _ _ _ _ Heq) as [-> Hvalue].
      rewrite !append_cons, !append_nil in Hvalue. injection Hvalue as Hvalue.
      destruct (Hx Hdata x' t t' Hdata' Ht Ht' Hvalue) as [-> ->]. auto.
    + apply Forall_forall. intros prop _. apply Hopens.
    + apply Forall_forall. intros prop _. apply Hopens.
Qed.

Lemma append_empty (s : string) : (s +:+ EmptyString)%string = s.
Proof. induction s as [| c s IH]; [reflexivity |]. rewrite append_cons, IH. reflexivity. Qed.

(** [JSON.stringify] is one-to-one on JSON data. *)
Lemma stringify_inj (a b : JsValue) :
  json_data a = true -> json_data b = true -> stringify a = stringify b -> a = b.
Proof.
  intros Ha Hb Heq.
  rewrite (stringify_text a Ha), (stringify_text b Hb) in Heq. injection Heq as Heq.
  apply (text_unambiguous a Ha b EmptyString EmptyString Hb eq_refl eq_refl).
  rewrite !append_empty. exact Heq.
Qed.

Local Close Scope char_scope.

(** ** findIntent with a context *)

Lemma same_json_spec (a b : JsValue) : same_json a b = true <-> stringify a = stringify b.
Proof. unfold same_json. apply bool_decide_eq_true. Qed.

Lemma intent_matches_with_context (intentName : string) (context : JsValue)
    (methodIntent : Intent) :
  truthy context = true ->
  intent_matches (JStr intentName) context methodIntent = true <->
  intent_name methodIntent = intentName
  /\ stringify (intent_context methodIntent) = stringify context.
Proof.
  intros Hgiven. unfold intent_matches. cbn [is_string]. rewrite Hgiven. cbn [negb orb].
  rewrite andb_true_iff, String.eqb_eq, same_json_spec. intuition congruence.
Qed.

(** C2 (as amended): [findIntent(intent, ctx)] with a context that is
    given.  When every discovery resolves, the result lists the owners of
    the declared intent entries that are kept, and an entry is kept if and
    only if its name equals [intent] and its declared context has the same
    JSON serialisation as [ctx].  For contexts made of JSON data (null,
    booleans, integers, strings, arrays, objects) that is the case exactly
    when the two contexts are the same value, with the same keys in the
    same order: contexts that differ in a value are excluded, and so are
    contexts with the same keys and values in a different key order. *)
Theorem findIntent_with_context_keeps_equal_serialisations
    (remote : Remote) (intentName : string) (context : JsValue) (platforms : list Platform)
    (issued issued' : list Call) (discovered : list (list Method)) :
  intentName <> "" ->
  truthy context = true ->
  Utils.validateContext context = Normal tt ->
  run remote (discover_all platforms) issued = (Resolved discovered, issued') ->
  owned (intent_matches (JStr intentName) context) (concat discovered) ->
  run remote (findIntent (JStr intentName) context platforms) issued
  = (Resolved (app_intent intentName
                 (map snd (hits (intent_matches (JStr intentName) context)
                                (concat discovered)))),
     issued')
  /\ (forall methodIntent : Intent,
         intent_matches (JStr intentName) context methodIntent = true <->
         intent_name methodIntent = intentName
         /\ stringify (intent_context methodIntent) = stringify context)
  /\ (forall methodIntent : Intent,
         json_data context = true ->
         json_data (intent_context methodIntent) = true ->
         intent_matches (JStr intentName) context methodIntent = true <->
         intent_name methodIntent = intentName /\ intent_context methodIntent = context).
Proof.
  intros Hname Hgiven Hvalid Hdiscovered Howned. split; [| split].
  - rewrite findIntent_scan, run_bind.
    assert (Utils.validateIntentAndContextParams (JStr intentName) context = Normal tt) as ->.
    { unfold Utils.validateIntentAndContextParams, Utils.validateIntent.
      cbn [truthy typeof]. apply String.eqb_neq in Hname. rewrite Hname. exact Hvalid. }
    cbn [lift run].
    rewrite (run_scan _ _ remote platforms _ issued issued' discovered Hdiscovered Howned).
    rewrite fold_push_app. reflexivity.
  - intros methodIntent. apply intent_matches_with_context. exact Hgiven.
  - intros methodIntent Hdata Hdeclared.
    rewrite (intent_matches_with_context intentName context methodIntent Hgiven).
    split; intros [Hsame Hcontext]; split; try exact Hsame.
    + apply stringify_inj; assumption.
    + rewrite Hcontext. reflexivity.
Qed.

Lemma findIntent_with_context_keeps_equal_serialisations_witness :
  run context_remote (findIntent (JStr "ViewChart") instrument [platform "A" 0]) []
  = (Resolved (app_intent "ViewChart" [ {| app_name := "exact" |} ]),
     [log (DiscoverMethods (peer 0))]).
Proof.
  apply (findIntent_with_context_keeps_equal_serialisations
           context_remote "ViewChart" instrument [platform "A" 0] []
           [log (DiscoverMethods (peer 0))]
           [ [method "a" [viewChart instrument] "exact";
              method "b" [viewChart reordered_instrument] "reordered";
              method "c" [viewChart another_instrument] "other"] ]).
  - discriminate.
  - reflexivity.
  - reflexivity.
  - reflexivity.
  - unfold owned. cbn. repeat constructor; discriminate.
Defined.

(** C2, counterexample: the two contexts hold the same value under every
    key, yet the entry declared for the one is not kept when the other is
    searched for, because their keys come in a different order. *)
Lemma findIntent_tells_key_orders_apart :
  (forall key : string, get instrument key = get reordered_instrument key) /\
  intent_matches (JStr "ViewChart") instrument (viewChart reordered_instrument) = false /\
  run context_remote (findIntent (JStr "ViewChart") reordered_instrument [platform "A" 0]) []
  = (Resolved (app_intent "ViewChart" [ {| app_name := "reordered" |} ]),
     [log (DiscoverMethods (peer 0))]).
Proof.
  split; [| split; reflexivity].
  intros key. cbn [get instrument reordered_instrument lookup_prop].
  destruct (String.eqb "type" key) eqn:Htype, (String.eqb "name" key) eqn:Hname;
    try reflexivity.
  apply String.eqb_eq in Htype, Hname. subst key. discriminate Hname.
Qed.

(** ** Loops and sequencing *)

Lemma run_for_each_app {A S : Type} (remote : Remote) (xs ys : list A)
    (body : A -> S -> Prog S) (s : S) (issued : list Call) :
  run remote (for_each (xs ++ ys) body s) issued
  = match run remote (for_each xs body s) issued with
    | (Resolved s', issued') => run remote (for_each ys body s') issued'
    | (Rejected e, issued') => (Rejected e, issued')
    end.
Proof.
  revert s issued. induction xs as [| x rest IH]; intros s issued; [reflexivity |].
  cbn [Datatypes.app]. rewrite !for_each_cons, !run_bind.
  destruct (run remote (body x s) issued) as [[s' | e] issued1]; [apply IH | reflexivity].
Qed.

(** A loop of calls that return at once. *)
Lemma run_for_each_perform {A : Type} (remote : Remote) (xs : list A)
    (call : A -> remoteE unit) (issued : list Call) :
  run remote (for_each xs (fun x _ => perform (call x)) tt) issued
  = (Resolved tt, issued ++ map (fun x => log (call x)) xs).
Proof.
  revert issued. induction xs as [| x rest IH]; intros issued.
  - cbn. rewrite app_nil_r. reflexivity.
  - rewrite for_each_cons, run_bind. unfold perform at 1. cbn [run].
    destruct (remote unit issued (call x)). rewrite IH, <- app_assoc. reflexivity.
Qed.

(** A loop that keeps or drops each element keeps elements of the list. *)
Lemma run_selecting {A : Type} (remote : Remote) (xs : list A)
    (body : A -> list A -> Prog (list A)) (kept selected : list A)
    (issued issued' : list Call) :
  (forall x kept issued selected issued',
      run remote (body x kept) issued = (Resolved selected, issued') ->
      selected = kept ++ [x] \/ selected = kept) ->
  run remote (for_each xs body kept) issued = (Resolved selected, issued') ->
  incl selected (kept ++ xs).
Proof.
  intros Hbody. revert kept issued.
  induction xs as [| x rest IH]; intros kept issued Hrun.
  - cbn in Hrun. inversion Hrun; subst. rewrite app_nil_r. apply incl_refl.
  - rewrite for_each_cons, run_bind in Hrun.
    destruct (run remote (body x kept) issued) as [[kept1 | e] issued1] eqn:Hstep;
      [| discriminate].
    apply IH in Hrun. destruct (Hbody _ _ _ _ _ Hstep) as [-> | ->].
    + rewrite <- app_assoc in Hrun. exact Hrun.
    + intros y Hy. apply Hrun in Hy. apply in_app_or in Hy as [Hy | Hy].
      * apply in_or_app. left. exact Hy.
      * apply in_or_app. right. right. exact Hy.
Qed.


(** ** Application names: the platform qualifier *)

(** [split] returns at least one piece. *)
Lemma split_not_nil (sep : ascii) (s : string) : split sep s <> [].
Proof.
  destruct s as [| c rest]; cbn [split]; [discriminate |].
  destruct (Ascii.eqb c sep); [discriminate |].
  destruct (split sep rest); discriminate.
Qed.

Lemma concat_cons (sep part : string) (parts : list string) :
  parts <> [] ->
  String.concat sep (part :: parts) = part +:+ sep +:+ String.concat sep parts.
Proof. destruct parts; [congruence | reflexivity]. Qed.

(** Joining the pieces with the separator gives the string back. *)
Lemma concat_split (s : string) : String.concat ":" (split ":" s) = s.
Proof.
  induction s as [| c rest IH]; [reflexivity |].
  cbn [split]. destruct (Ascii.eqb_spec c ":") as [-> | Hc].
  - rewrite concat_cons by apply split_not_nil. rewrite IH. reflexivity.
  - pose proof (split_not_nil ":" rest) as Hne.
    destruct (split ":" rest) as [| first others]; [congruence |].
    destruct others as [| second others].
    + cbn [String.concat] in *. rewrite IH. reflexivity.
    + rewrite concat_cons in * by discriminate.
      rewrite append_cons, IH. reflexivity.
Qed.

(** No piece holds the separator. *)
Lemma split_colon_free (s : string) : Forall (fun part => colon_free part = true) (split ":" s).
Proof.
  induction s as [| c rest IH]; cbn [split].
  - repeat constructor.
  - destruct (Ascii.eqb c ":") eqn:Hc.
    + constructor; [reflexivity | exact IH].
    + destruct (split ":" rest) as [| first others].
      * repeat constructor. cbn [colon_free]. rewrite Hc. reflexivity.
      * inversion IH; subst. constructor; [| assumption].
        cbn [colon_free]. rewrite Hc. assumption.
Qed.

Lemma split_whole (s : string) : colon_free s = true -> split ":" s = [s].
Proof.
  induction s as [| c rest IH]; [reflexivity |].
  cbn [colon_free split]. intros H. apply andb_true_iff in H as [Hc Hrest].
  apply negb_true_iff in Hc. rewrite Hc, (IH Hrest). reflexivity.
Qed.

(** The pieces of two strings joined by the separator. *)
Lemma split_append (a b : string) :
  split ":" (a +:+ ":" +:+ b) = split ":" a ++ split ":" b.
Proof.
  induction a as [| c rest IH].
  - rewrite append_nil. reflexivity.
  - rewrite append_cons. cbn [split]. rewrite IH.
    destruct (Ascii.eqb c ":"); [reflexivity |].
    pose proof (split_not_nil ":" rest) as Hne.
    destruct (split ":" rest) as [| first others]; [congruence | reflexivity].
Qed.

Lemma concat_snoc (sep : string) (parts : list string) (part : string) :
  parts <> [] ->
  String.concat sep (parts ++ [part]) = String.concat sep parts +:+ sep +:+ part.
Proof.
  induction parts as [| first others IH]; [congruence |]. intros _.
  destruct others as [| second others].
  - reflexivity.
  - change ((first :: second :: others) ++ [part]) with (first :: ((second :: others) ++ [part])).
    rewrite concat_cons by (destruct others; discriminate).
    rewrite IH by discriminate.
    rewrite (concat_cons sep first (second :: others)) by discriminate.
    rewrite !append_assoc. reflexivity.
Qed.

Lemma last_map_Some (parts : list string) (d : string) :
  parts <> [] -> List.last (map Some parts) None = Some (List.last parts d).
Proof.
  induction parts as [| first others IH]; [congruence |]. intros _.
  destruct others as [| second others]; [reflexivity |].
  cbn [map List.last] in *. apply IH. discriminate.
Qed.

Lemma length_split_whole (s : string) :
  (1 <? length (split ":" s))%nat = negb (colon_free s).
Proof.
  induction s as [| c rest IH]; [reflexivity |].
  cbn [split colon_free]. pose proof (split_not_nil ":" rest) as Hne.
  destruct (Ascii.eqb c ":"); cbn [negb andb].
  - destruct (split ":" rest); [congruence | reflexivity].
  - rewrite <- IH. destruct (split ":" rest) as [| first others]; [congruence | reflexivity].
Qed.

(** X1: when [getPlatformName] finds a platform name in [app], the name is
    the text after the last colon, it holds no colon itself, and [app] is
    [getApplicationName app], a colon and that platform name: the two
    functions cut the string at its last colon and lose nothing. *)
Theorem qualified_name_round_trip (app platformName : string) :
  getPlatformName app = Some platformName ->
  app = getApplicationName app +:+ ":" +:+ platformName /\ colon_free platformName = true.
Proof.
  unfold getPlatformName, getApplicationName.
  pose proof (concat_split app) as Hjoin.
  pose proof (split_colon_free app) as Hfree.
  pose proof (split_not_nil ":" app) as Hne.
  destruct (1 <? length (split ":" app))%nat eqn:Hlen; [| discriminate].
  rewrite (last_map_Some _ "" Hne). intros Hlast. injection Hlast as Hlast.
  rewrite (app_removelast_last "" Hne), Hlast in Hjoin, Hfree.
  split.
  - rewrite <- Hjoin at 1. apply concat_snoc.
    destruct (split ":" app) as [| first [| second others]]; cbn in Hlen |- *;
      [congruence | discriminate | discriminate].
  - apply Forall_app in Hfree as [_ Hfree]. inversion Hfree; assumption.
Qed.

Lemma qualified_name_round_trip_witness :
  getPlatformName "my:charts:B" = Some "B" /\
  "my:charts:B" = getApplicationName "my:charts:B" +:+ ":" +:+ "B" /\ colon_free "B" = true.
Proof.
  split; [reflexivity |].
  apply (qualified_name_round_trip "my:charts:B" "B"). reflexivity.
Defined.

(** The pieces of a qualified name: those of the application name, then the platform name. *)
Lemma split_qualified (appName platformName : string) :
  colon_free platformName = true ->
  split ":" (appName +:+ ":" +:+ platformName) = split ":" appName ++ [platformName]
  /\ (1 <? length (split ":" appName ++ [platformName]))%nat = true.
Proof.
  intros Hfree. rewrite split_append, (split_whole platformName Hfree).
  split; [reflexivity |].
  pose proof (split_not_nil ":" appName) as Hne.
  rewrite length_app. cbn [length]. apply Nat.ltb_lt.
  destruct (split ":" appName); [congruence | cbn [length]; lia].
Qed.

Lemma getPlatformName_qualified (appName platformName : string) :
  colon_free platformName = true ->
  getPlatformName (appName +:+ ":" +:+ platformName) = Some platformName.
Proof.
  intros Hfree. unfold getPlatformName.
  destruct (split_qualified appName platformName Hfree) as [-> ->].
  rewrite map_app. cbn [map]. apply last_last.
Qed.

Lemma getApplicationName_qualified (appName platformName : string) :
  colon_free platformName = true ->
  getApplicationName (appName +:+ ":" +:+ platformName) = appName.
Proof.
  intros Hfree. unfold getApplicationName.
  destruct (split_qualified appName platformName Hfree) as [-> ->].
  rewrite removelast_last. apply concat_split.
Qed.

(** X2: an application name, a colon and a platform name that holds no
    colon are read back as that platform name and that application name,
    whatever the application name is: it may itself hold colons, or be
    empty. *)
Theorem qualified_name_parses_at_last_colon (appName platformName : string) :
  colon_free platformName = true ->
  getPlatformName (appName +:+ ":" +:+ platformName) = Some platformName /\
  getApplicationName (appName +:+ ":" +:+ platformName) = appName.
Proof.
  intros Hfree. split.
  - apply getPlatformName_qualified. exact Hfree.
  - apply getApplicationName_qualified. exact Hfree.
Qed.

Lemma qualified_name_parses_at_last_colon_witness :
  getPlatformName ("my:charts" +:+ ":" +:+ "B") = Some "B" /\
  getApplicationName ("my:charts" +:+ ":" +:+ "B") = "my:charts".
Proof. apply (qualified_name_parses_at_last_colon "my:charts" "B"). reflexivity. Defined.

(** X3: a string with no colon has no platform name ([null]) and is its own
    application name; a string with a colon always has a platform name (it
    may be the empty string). *)
Theorem unqualified_name_is_the_application (app : string) :
  if colon_free app
  then getPlatformName app = None /\ getApplicationName app = app
  else exists platformName, getPlatformName app = Some platformName.
Proof.
  unfold getPlatformName, getApplicationName. rewrite length_split_whole.
  destruct (colon_free app); cbn [negb]; [split; reflexivity |].
  rewrite (last_map_Some _ "" (split_not_nil ":" app)). eauto.
Qed.

(** ** open with a platform qualifier *)

Lemma or_default_given (m d : string) : String.eqb m "" = false -> or_default m d = m.
Proof. unfold or_default. intros ->. reflexivity. Qed.

Lemma qualified_not_empty (appName platformName : string) :
  String.eqb (appName +:+ ":" +:+ platformName) "" = false.
Proof. destruct appName; [rewrite append_nil | rewrite append_cons]; reflexivity. Qed.

Lemma validateOpenParams_qualified (appName platformName : string) (context : JsValue) :
  Utils.validateContext context = Normal tt ->
  Utils.validateOpenParams (JStr (appName +:+ ":" +:+ platformName)) context = Normal tt.
Proof.
  intros Hvalid. unfold Utils.validateOpenParams. cbn [truthy typeof].
  rewrite qualified_not_empty, Hvalid. reflexivity.
Qed.

(** [open] of a name with a platform qualifier that is not empty: the
    platform is found by its name alone, and the error of a rejected
    invocation is the field as it stands then. *)
Lemma run_open_overlapped_qualified (remote : Remote) (overlap : Overlap) (appName platformName : string)
    (context : JsValue) (platforms : list Platform) (issued : list Call) :
  Utils.validateContext context = Normal tt ->
  platformName <> "" ->
  colon_free platformName = true ->
  run remote (open_overlapped overlap (JStr (appName +:+ ":" +:+ platformName)) context platforms) issued
  = match named_platforms platformName platforms with
    | [] =>
        (Rejected (Error ("There is no platform named " +:+ dq +:+ platformName +:+ dq)),
         issued)
    | [platform] =>
        (match remote _ issued (startApplication platform appName context) with
         | Resolved startInvokeResult => Resolved (result startInvokeResult)
         | Rejected _ => Rejected (unable_to_start (assigned_last overlap StartFailed appName))
         end,
         issued ++ [log (startApplication platform appName context)])
    | _ :: _ :: _ =>
        (Rejected (Error ("There are multiple platforms named "
                            +:+ dq +:+ platformName +:+ dq)),
         issued)
    end.
Proof.
  intros Hvalid Hnamed Hfree.
  pose proof (getPlatformName_qualified appName platformName Hfree) as Hplatform.
  pose proof (getApplicationName_qualified appName platformName Hfree) as Happ.
  unfold open_overlapped. rewrite (validateOpenParams_qualified _ _ _ Hvalid).
  cbn [lift bind string_of]. rewrite Hplatform, Happ.
  assert (Hgiven : given (Some platformName) = true).
  { cbn [given]. apply String.eqb_neq in Hnamed. rewrite Hnamed. reflexivity. }
  rewrite Hgiven. unfold getPlatform. rewrite Hgiven.
  change (default "" (Some platformName)) with platformName.
  unfold getUniquePlatform. fold (named_platforms platformName platforms).
  rewrite run_bind, !run_try_catch, run_bind, run_lift.
  destruct (named_platforms platformName platforms) as [| platform [| another more]].
  - cbn [run message]. rewrite !or_default_given by (rewrite append_cons; reflexivity).
    reflexivity.
  - cbn [run]. rewrite run_try_catch, run_bind, run_await.
    fold (startApplication platform appName context).
    destruct (remote _ issued (startApplication platform appName context)); reflexivity.
  - cbn [run message]. rewrite !or_default_given by (rewrite append_cons; reflexivity).
    reflexivity.
Qed.

(** A call of [open] that nothing overlaps. *)
Lemma open_overlapped_alone (app context : JsValue) (platforms : list Platform) :
  open_overlapped alone app context platforms = open app context platforms.
Proof. reflexivity. Qed.

Lemma run_open_qualified (remote : Remote) (appName platformName : string)
    (context : JsValue) (platforms : list Platform) (issued : list Call) :
  Utils.validateContext context = Normal tt ->
  platformName <> "" ->
  colon_free platformName = true ->
  run remote (open (JStr (appName +:+ ":" +:+ platformName)) context platforms) issued
  = match named_platforms platformName platforms with
    | [] =>
        (Rejected (Error ("There is no platform named " +:+ dq +:+ platformName +:+ dq)),
         issued)
    | [platform] =>
        (match remote _ issued (startApplication platform appName context) with
         | Resolved startInvokeResult => Resolved (result startInvokeResult)
         | Rejected _ => Rejected (unable_to_start appName)
         end,
         issued ++ [log (startApplication platform appName context)])
    | _ :: _ :: _ =>
        (Rejected (Error ("There are multiple platforms named "
                            +:+ dq +:+ platformName +:+ dq)),
         issued)
    end.
Proof.
  intros Hvalid Hnamed Hfree. rewrite <- open_overlapped_alone.
  exact (run_open_overlapped_qualified remote alone appName platformName context platforms
           issued Hvalid Hnamed Hfree).
Qed.

(** X4: [open("app:platform")] with a valid context, when exactly one
    platform of the engine has that name.  The call issues a single remote
    call, the invocation of that platform's [StartApplication] method with
    [{application, context}]: no platform is asked for its methods or its
    applications.  It resolves with the [result] of the invocation, and when
    the invocation is rejected it is rejected with "Unable to start
    application named", whatever the reason of the platform was; the
    application the message names is the one of the call of [open] that
    assigned the engine's field last: this call, or one that started while
    it awaited the platform. *)
Theorem open_qualified_starts_on_the_named_platform
    (remote : Remote) (overlap : Overlap) (appName platformName : string) (context : JsValue)
    (platforms : list Platform) (platform : Platform) (issued : list Call) :
  Utils.validateContext context = Normal tt ->
  platformName <> "" ->
  colon_free platformName = true ->
  named_platforms platformName platforms = [platform] ->
  run remote (open_overlapped overlap (JStr (appName +:+ ":" +:+ platformName)) context
                platforms) issued
  = (match remote _ issued (startApplication platform appName context) with
     | Resolved startInvokeResult => Resolved (result startInvokeResult)
     | Rejected _ => Rejected (unable_to_start (assigned_last overlap StartFailed appName))
     end,
     issued ++ [log (startApplication platform appName context)]).
Proof.
  intros Hvalid Hnamed Hfree Hunique.
  rewrite (run_open_overlapped_qualified remote overlap appName platformName context platforms
             issued Hvalid Hnamed Hfree), Hunique.
  reflexivity.
Qed.

Lemma open_qualified_starts_on_the_named_platform_witness :
  (exposes launcher "StartApplication" (platform "B" 1) = false /\
   run launcher (open_overlapped alone (JStr "charts:B") instrument three_platforms) []
   = (Resolved (JObj [("started",
                       JObj [("application", JStr "charts"); ("context", instrument)])]),
      [log (startApplication (platform "B" 1) "charts" instrument)])) /\
  run stalled (open_overlapped alone (JStr "editor:A") instrument [platform "A" 0]) []
  = (Rejected (unable_to_start "editor"),
     [log (startApplication (platform "A" 0) "editor" instrument)]) /\
  run stalled (open_overlapped (overtaken_by "charts") (JStr "editor:A") instrument
                 [platform "A" 0]) []
  = (Rejected (unable_to_start "charts"),
     [log (startApplication (platform "A" 0) "editor" instrument)]).
Proof.
  split; [split; [reflexivity |] | split].
  - apply (open_qualified_starts_on_the_named_platform
             launcher alone "charts" "B" instrument three_platforms (platform "B" 1) []);
      [reflexivity | discriminate | reflexivity | reflexivity].
  - apply (open_qualified_starts_on_the_named_platform
             stalled alone "editor" "A" instrument [platform "A" 0] (platform "A" 0) []);
      [reflexivity | discriminate | reflexivity | reflexivity].
  - apply (open_qualified_starts_on_the_named_platform
             stalled (overtaken_by "charts") "editor" "A" instrument [platform "A" 0]
             (platform "A" 0) []);
      [reflexivity | discriminate | reflexivity | reflexivity].
Defined.

(** X5: [open("app:platform")] with a valid context is rejected with "There
    is no platform named" when no platform of the engine has that name, and
    with "There are multiple platforms named" when more than one has; in
    both cases no remote call is issued. *)
Theorem open_qualified_rejects_unknown_and_ambiguous_platforms
    (remote : Remote) (appName platformName : string) (context : JsValue)
    (platforms : list Platform) (issued : list Call) :
  Utils.validateContext context = Normal tt ->
  platformName <> "" ->
  colon_free platformName = true ->
  (named_platforms platformName platforms = [] ->
   run remote (open (JStr (appName +:+ ":" +:+ platformName)) context platforms) issued
   = (Rejected (Error ("There is no platform named " +:+ dq +:+ platformName +:+ dq)),
      issued)) /\
  (1 < length (named_platforms platformName platforms) ->
   run remote (open (JStr (appName +:+ ":" +:+ platformName)) context platforms) issued
   = (Rejected (Error ("There are multiple platforms named " +:+ dq +:+ platformName +:+ dq)),
      issued)).
Proof.
  intros Hvalid Hnamed Hfree.
  rewrite (run_open_qualified remote appName platformName context platforms issued
             Hvalid Hnamed Hfree).
  destruct (named_platforms platformName platforms) as [| platform [| another more]];
    cbn [length]; split; intros H; try reflexivity; try discriminate; lia.
Qed.

Lemma open_qualified_rejects_unknown_and_ambiguous_platforms_witness :
  run launcher (open (JStr "editor:Z") instrument three_platforms) []
  = (Rejected (Error ("There is no platform named " +:+ dq +:+ "Z" +:+ dq)), []) /\
  run launcher (open (JStr "editor:A") instrument [platform "A" 0; platform "A" 1]) []
  = (Rejected (Error ("There are multiple platforms named " +:+ dq +:+ "A" +:+ dq)), []).
Proof.
  split.
  - apply (open_qualified_rejects_unknown_and_ambiguous_platforms
             launcher "editor" "Z" instrument three_platforms []);
      [reflexivity | discriminate | reflexivity | reflexivity].
  - apply (open_qualified_rejects_unknown_and_ambiguous_platforms
             launcher "editor" "A" instrument [platform "A" 0; platform "A" 1] []);
      [reflexivity | discriminate | reflexivity | cbn; lia].
Defined.

Lemma trailing_colon_not_given (appName : string) :
  getPlatformName (appName +:+ ":") = Some "" /\ given (getPlatformName (appName +:+ ":")) = false.
Proof.
  pose proof (getPlatformName_qualified appName "" eq_refl) as Hplatform.
  change (appName +:+ ":" +:+ "") with (appName +:+ ":") in Hplatform.
  rewrite Hplatform. split; reflexivity.
Qed.

(** X6: an application name that ends in a colon has the empty string for a
    platform name, which counts as none: [open] resolves the whole string,
    colon included, as an unqualified application name.  On a steady remote
    side whose discoveries resolve, and where no candidate platform lists
    an application of that name, the platforms are asked for their methods
    and applications and the call is rejected with "There are no platforms
    with application named" and the whole string. *)
Theorem open_trailing_colon_is_not_a_qualifier
    (remote : Remote) (appName : string) (context : JsValue) (platforms : list Platform)
    (issued : list Call) :
  steady remote ->
  Utils.validateContext context = Normal tt ->
  Forall (discoverable remote) platforms ->
  Forall (lists_at_most_once remote (appName +:+ ":")) platforms ->
  List.filter (offers remote (appName +:+ ":")) platforms = [] ->
  getPlatformName (appName +:+ ":") = Some "" /\
  run remote (open (JStr (appName +:+ ":")) context platforms) issued
  = (Rejected (Error ("There are no platforms with application named '"
                        +:+ (appName +:+ ":") +:+ "'.")),
     issued ++ resolution_calls remote platforms).
Proof.
  intros Hsteady Hvalid Hdiscoverable Hlists Hnone.
  destruct (trailing_colon_not_given appName) as [Hplatform Hgiven].
  split; [exact Hplatform |].
  unfold open.
  pose proof (validateOpenParams_qualified appName "" context Hvalid) as Hparams.
  change (appName +:+ ":" +:+ "") with (appName +:+ ":") in Hparams.
  rewrite Hparams. cbn [lift bind string_of]. rewrite Hgiven.
  rewrite run_bind, run_try_catch.
  rewrite (run_getPlatform_unqualified remote _ (appName +:+ ":") platforms issued
             Hsteady Hdiscoverable Hlists), Hnone.
  cbn [run message]. rewrite or_default_given by (rewrite append_cons; reflexivity).
  reflexivity.
Qed.

Lemma open_trailing_colon_is_not_a_qualifier_witness :
  getPlatformName ("editor" +:+ ":") = Some "" /\
  run launcher (open (JStr ("editor" +:+ ":")) instrument three_platforms) []
  = (Rejected (Error ("There are no platforms with application named '"
                        +:+ ("editor" +:+ ":") +:+ "'.")),
     [] ++ resolution_calls launcher three_platforms).
Proof.
  apply (open_trailing_colon_is_not_a_qualifier launcher "editor" instrument three_platforms []).
  - apply remote_of_steady.
  - reflexivity.
  - apply launcher_discoverable.
  - repeat constructor; intros listing Hlisting; cbn in Hlisting; inversion Hlisting; subst;
      eexists; (split; [reflexivity | simpl; lia]).
  - reflexivity.
Defined.

(** ** open without a qualifier: the other outcomes *)

(** X7: [open(app)] with an unqualified name, on a steady remote side whose
    discoveries resolve and whose application lists name [app] at most
    once, when exactly one candidate platform lists [app].  If that platform
    has no start-application capability the call is rejected with a
    [TypeError] of the engine, after one more discovery of the platform and
    without any invocation; if it has the capability and rejects the
    invocation, the call is rejected with "Unable to start application
    named", whatever the reason of the platform was; the application the
    message names is the one of the call of [open] that assigned the
    engine's field last: this call, or one that started while it awaited
    the platform. *)
Theorem open_unqualified_fails_on_the_chosen_platform
    (remote : Remote) (overlap : Overlap) (app : string) (context : JsValue)
    (platforms : list Platform) (platform : Platform) (issued : list Call) :
  steady remote ->
  Utils.validateOpenParams (JStr app) context = Normal tt ->
  given (getPlatformName app) = false ->
  Forall (discoverable remote) platforms ->
  Forall (lists_at_most_once remote app) platforms ->
  List.filter (offers remote app) platforms = [platform] ->
  (exposes remote "StartApplication" platform = false ->
   exists m,
     run remote (open_overlapped overlap (JStr app) context platforms) issued
     = (Rejected (TypeError m),
        issued ++ resolution_calls remote platforms
               ++ [log (DiscoverMethods (platformApi platform))])) /\
  (exposes remote "StartApplication" platform = true ->
   resolves (remote _ [] (startApplication platform app context)) = false ->
   run remote (open_overlapped overlap (JStr app) context platforms) issued
   = (Rejected (unable_to_start (assigned_last overlap StartFailed app)),
      issued ++ resolution_calls remote platforms
             ++ [log (DiscoverMethods (platformApi platform));
                 log (startApplication platform app context)])).
Proof.
  intros Hsteady Hvalid Hunqualified Hdiscoverable Hlists Hone.
  pose proof (fun defaultErrorMessage =>
                run_getPlatform_unqualified remote defaultErrorMessage app platforms issued
                  Hsteady Hdiscoverable Hlists) as Hresolution.
  rewrite Hone in Hresolution.
  unfold open_overlapped. rewrite Hvalid. cbn [lift bind string_of]. rewrite Hunqualified.
  rewrite run_bind, run_try_catch, Hresolution. split.
  - intros ->. eexists. reflexivity.
  - intros -> Hrejected.
    rewrite run_try_catch, run_bind, run_await. fold (startApplication platform app context).
    rewrite (Hsteady _ _ []).
    destruct (remote _ [] (startApplication platform app context)); [discriminate |].
    cbn [run]. rewrite <- !app_assoc. reflexivity.
Qed.

Lemma open_unqualified_fails_on_the_chosen_platform_witness :
  (exists m,
     run launcher (open_overlapped alone (JStr "charts") instrument
                     [platform "B" 1; platform "C" 2]) []
     = (Rejected (TypeError m),
        [] ++ resolution_calls launcher [platform "B" 1; platform "C" 2]
           ++ [log (DiscoverMethods (platformApi (platform "B" 1)))])) /\
  run stalled (open_overlapped (overtaken_by "charts") (JStr "editor") instrument
                 [platform "A" 0]) []
  = (Rejected (unable_to_start "charts"),
     [] ++ resolution_calls stalled [platform "A" 0]
        ++ [log (DiscoverMethods (platformApi (platform "A" 0)));
            log (startApplication (platform "A" 0) "editor" instrument)]).
Proof.
  split.
  - apply (open_unqualified_fails_on_the_chosen_platform
             launcher alone "charts" instrument [platform "B" 1; platform "C" 2]
             (platform "B" 1) []).
    + apply remote_of_steady.
    + reflexivity.
    + reflexivity.
    + repeat constructor; eexists; reflexivity.
    + repeat constructor; intros listing Hlisting; cbn in Hlisting; inversion Hlisting; subst;
        eexists; (split; [reflexivity | simpl; lia]).
    + reflexivity.
    + reflexivity.
  - apply (open_unqualified_fails_on_the_chosen_platform
             stalled (overtaken_by "charts") "editor" instrument [platform "A" 0]
             (platform "A" 0) []).
    + apply remote_of_steady.
    + reflexivity.
    + reflexivity.
    + repeat constructor; eexists; reflexivity.
    + repeat constructor; intros listing Hlisting; cbn in Hlisting; inversion Hlisting; subst;
        eexists; (split; [reflexivity | simpl; lia]).
    + reflexivity.
    + reflexivity.
    + reflexivity.
Defined.

(** X8: [open(app)] with an unqualified name, on a steady remote side whose
    discoveries resolve.  When the application list of a candidate platform
    names [app] more than once, and the candidates before it name it at most
    once, the call is rejected with "There are multiple applications named";
    the candidates after it are not asked for their applications and
    nothing is started, whatever the other platforms list. *)
Theorem open_rejects_an_application_listed_twice
    (remote : Remote) (app : string) (context : JsValue)
    (platforms before after : list Platform) (twice : Platform) (listing : InvokeResult)
    (named : list JsValue) (issued : list Call) :
  steady remote ->
  Utils.validateOpenParams (JStr app) context = Normal tt ->
  given (getPlatformName app) = false ->
  Forall (discoverable remote) platforms ->
  List.filter (exposes remote "ListApplications") platforms = before ++ twice :: after ->
  Forall (lists_at_most_once remote app) before ->
  remote _ [] (listApplications twice) = Resolved listing ->
  filter_applications app (result listing) = Normal named ->
  1 < length named ->
  run remote (open (JStr app) context platforms) issued
  = (Rejected (Error ("There are multiple applications named '" +:+ app +:+ "'.")),
     issued ++ map (fun platform => log (DiscoverMethods (platformApi platform))) platforms
            ++ map (fun platform => log (listApplications platform)) (before ++ [twice])).
Proof.
  intros Hsteady Hvalid Hunqualified Hdiscoverable Hcandidates Hbefore Hlisting Hnamed Hmany.
  unfold open. rewrite Hvalid. cbn [lift bind string_of]. rewrite Hunqualified.
  rewrite run_bind, run_try_catch.
  unfold getPlatform. cbn [given]. unfold platforms_supporting, platforms_with_app.
  rewrite run_bind, (run_platforms_supporting remote Hsteady _ _ _ _ Hdiscoverable).
  cbn [Datatypes.app]. rewrite Hcandidates, run_bind, run_for_each_app.
  rewrite (run_platforms_with_app remote Hsteady app before [] _ Hbefore).
  rewrite for_each_cons, !run_bind.
  unfold platformHasProvidedApp at 1.
  rewrite run_bind, run_try_catch, run_bind, run_await.
  fold (listApplications twice). rewrite (Hsteady _ _ []), Hlisting.
  cbn [run]. rewrite run_bind, run_lift, Hnamed.
  destruct named as [| one [| two more]]; cbn [length] in Hmany; try lia.
  cbn [run length Nat.ltb Nat.leb message].
  rewrite or_default_given by (rewrite append_cons; reflexivity).
  rewrite map_app, <- !app_assoc. reflexivity.
Qed.

Lemma open_rejects_an_application_listed_twice_witness :
  run twice (open (JStr "editor") instrument [platform "A" 0]) []
  = (Rejected (Error ("There are multiple applications named '" +:+ "editor" +:+ "'.")),
     [] ++ map (fun platform => log (DiscoverMethods (platformApi platform))) [platform "A" 0]
        ++ map (fun platform => log (listApplications platform)) ([] ++ [platform "A" 0])).
Proof.
  apply (open_rejects_an_application_listed_twice
           twice "editor" instrument [platform "A" 0] [] [] (platform "A" 0)
           {| result := JArr [named_application "editor"; named_application "editor"] |}
           [named_application "editor"; named_application "editor"] []).
  - apply remote_of_steady.
  - reflexivity.
  - reflexivity.
  - repeat constructor; eexists; reflexivity.
  - reflexivity.
  - constructor.
  - reflexivity.
  - reflexivity.
  - cbn. lia.
Defined.

(** ** open: what a resolved call has done *)

Lemma run_platforms_supporting_incl (remote : Remote) (methodName : string)
    (platforms supporting : list Platform) (issued issued' : list Call) :
  run remote (platforms_supporting methodName platforms) issued = (Resolved supporting, issued') ->
  incl supporting platforms.
Proof.
  unfold platforms_supporting. intros Hrun.
  apply run_selecting in Hrun; [exact Hrun |].
  clear. intros platform kept issued selected issued'.
  rewrite run_bind, run_await.
  destruct (remote _ issued (DiscoverMethods (platformApi platform))) as [platformMethods | e];
    [| discriminate].
  destruct (platformHasMethod platform platformMethods methodName); cbn [run];
    intros H; inversion H; auto.
Qed.

Lemma run_platforms_with_app_incl (remote : Remote) (appName : string)
    (platforms withApp : list Platform) (issued issued' : list Call) :
  run remote (platforms_with_app appName platforms) issued = (Resolved withApp, issued') ->
  incl withApp platforms.
Proof.
  unfold platforms_with_app. intros Hrun.
  apply run_selecting in Hrun; [exact Hrun |].
  clear. intros platform kept issued selected issued'.
  rewrite run_bind.
  destruct (run remote (platformHasProvidedApp platform appName) issued)
    as [[[|] | e] issued1]; cbn [run]; intros H; inversion H; auto.
Qed.

(** The platform a resolution hands back is one of the engine's. *)
Lemma run_getPlatform_member (remote : Remote) (defaultErrorMessage appName : string)
    (platformName : option string) (platforms : list Platform) (platform : Platform)
    (issued issued' : list Call) :
  run remote (getPlatform defaultErrorMessage appName platformName platforms) issued
  = (Resolved (Some platform), issued') ->
  In platform platforms.
Proof.
  unfold getPlatform. destruct (given platformName).
  - rewrite run_try_catch, run_bind, run_lift. unfold getUniquePlatform.
    destruct (List.filter _ platforms) as [| found [| another more]] eqn:Hfilter;
      cbn [run]; intros H; inversion H; subst.
    assert (Hin : In platform (List.filter
                                 (fun fdc3Platform =>
                                    String.eqb (name fdc3Platform) (default "" platformName))
                                 platforms)) by (rewrite Hfilter; left; reflexivity).
    apply List.filter_In in Hin as [Hin _]. exact Hin.
  - rewrite run_bind.
    destruct (run remote (platforms_supporting "ListApplications" platforms) issued)
      as [[listing | e] issued1] eqn:Hlisting; [| discriminate].
    rewrite run_bind.
    destruct (run remote (platforms_with_app appName listing) issued1)
      as [[withApp | e] issued2] eqn:HwithApp; [| discriminate].
    destruct withApp as [| one [| two more]]; cbn [run]; try discriminate.
    rewrite run_bind.
    destruct (run remote (platforms_supporting "StartApplication" [one]) issued2)
      as [[starting | e] issued3] eqn:Hstarting; [| discriminate].
    cbn [run]. intros H. inversion H as [[Hhead Hissued]].
    apply run_platforms_supporting_incl in Hlisting, Hstarting.
    apply run_platforms_with_app_incl in HwithApp.
    apply Hlisting, HwithApp, Hstarting.
    destruct starting as [| first others]; [discriminate |].
    cbn [head] in Hhead. inversion Hhead; subst. left. reflexivity.
Qed.

(** X9: whatever the remote side answers, when [open] resolves the last
    call it issued is the invocation of the [StartApplication] method of a
    platform of the engine with [{application, context}], that invocation
    was resolved, and the value [open] resolves with is its [result]. *)
Theorem open_resolves_only_with_a_started_application
    (remote : Remote) (app context : JsValue) (platforms : list Platform)
    (issued issued' : list Call) (value : JsValue) :
  run remote (open app context platforms) issued = (Resolved value, issued') ->
  exists (platform : Platform) (appName : string) (earlier : list Call)
         (started : InvokeResult),
    In platform platforms /\
    issued' = earlier ++ [log (startApplication platform appName context)] /\
    remote _ earlier (startApplication platform appName context) = Resolved started /\
    value = result started.
Proof.
  unfold open. rewrite run_bind, run_lift.
  destruct (Utils.validateOpenParams app context) as [[] | invalid]; [| discriminate].
  rewrite run_bind, run_try_catch.
  match goal with
  | |- context [run remote ?resolution issued] =>
      destruct (run remote resolution issued) as [[[platform |] | failure] earlier] eqn:Hfound
  end; cbn [run]; try discriminate.
  rewrite run_try_catch, run_bind, run_await.
  match goal with
  | |- context [JObj [("application", JStr ?appName); _]] =>
      fold (startApplication platform appName context);
      destruct (remote _ earlier (startApplication platform appName context))
        as [started | failure] eqn:Hstarted; cbn [run]; [| discriminate];
      intros H; inversion H; subst;
      exists platform, appName, earlier, started
  end.
  split; [| repeat split; exact Hstarted].
  destruct (given (getPlatformName (string_of app)));
    eapply run_getPlatform_member; exact Hfound.
Qed.

Lemma open_resolves_only_with_a_started_application_witness :
  exists (chosen : Platform) (appName : string) (earlier : list Call)
         (started : InvokeResult),
    In chosen three_platforms /\
    [log (DiscoverMethods (peer 0)); log (DiscoverMethods (peer 1));
     log (DiscoverMethods (peer 2));
     log (listApplications (platform "A" 0)); log (listApplications (platform "B" 1));
     log (DiscoverMethods (peer 0));
     log (startApplication (platform "A" 0) "editor" instrument)]
    = earlier ++ [log (startApplication chosen appName instrument)] /\
    launcher _ earlier (startApplication chosen appName instrument) = Resolved started /\
    JObj [("started", JObj [("application", JStr "editor"); ("context", instrument)])]
    = result started.
Proof.
  apply (open_resolves_only_with_a_started_application
           launcher (JStr "editor") instrument three_platforms []).
  reflexivity.
Defined.

(** ** raiseIntent: one platform, one method *)

(** X10: on a platform list that is not empty, [raiseIntent] does what it
    does on the first platform alone, whatever the arguments and whatever
    the remote side answers: it issues at most two remote calls, the
    discovery of the first platform and the invocation of one of its
    methods, and never calls another platform. *)
Theorem raiseIntent_asks_the_first_platform_only
    (remote : Remote) (intent context target : JsValue) (first : Platform)
    (rest : list Platform) (issued : list Call) :
  run remote (raiseIntent intent context target (first :: rest)) issued
  = run remote (raiseIntent intent context target [first]) issued /\
  exists calls : list Call,
    snd (run remote (raiseIntent intent context target (first :: rest)) issued)
    = issued ++ calls /\
    length calls <= 2 /\
    Forall (fun call =>
              call = log (DiscoverMethods (platformApi first)) \/
              exists method, call = invocation context first method) calls.
Proof.
  split; [apply raiseIntent_first_platform_decides |].
  unfold raiseIntent. rewrite run_bind, run_lift.
  destruct (Utils.validateRaiseIntent intent context target) as [[] | invalid].
  - rewrite run_bind, for_of_cons, !run_bind, run_await.
    destruct (remote _ issued (DiscoverMethods (platformApi first))) as [methods | e].
    + destruct (List.filter (with_intent intent target) methods) as [| method [| another more]].
      * exists [log (DiscoverMethods (platformApi first))].
        split; [reflexivity |]. split; [cbn; lia |]. repeat constructor.
      * rewrite run_bind, run_await.
        exists [log (DiscoverMethods (platformApi first)); invocation context first method].
        split.
        -- rewrite <- app_assoc.
           destruct (remote _ _ (Invoke (platformApi first) (ByMethod method) context));
             reflexivity.
        -- split; [cbn; lia |].
           constructor; [left; reflexivity |]. constructor; [right; eauto | constructor].
      * exists [log (DiscoverMethods (platformApi first))].
        split; [reflexivity |]. split; [cbn; lia |]. repeat constructor.
    + exists [log (DiscoverMethods (platformApi first))].
      split; [reflexivity |]. split; [cbn; lia |]. repeat constructor.
  - exists []. split; [cbn; now rewrite app_nil_r |]. split; [cbn; lia | constructor].
Qed.

(** X11: when [raiseIntent] resolves on a platform list that is not empty,
    the discovery of the first platform was resolved, exactly one of the
    discovered methods passes the filter for the intent and the target, that
    method was invoked once with the context, and the value is the [result]
    of the invocation; those two calls are all it issued. *)
Theorem raiseIntent_resolves_only_for_a_single_method
    (remote : Remote) (intent context target : JsValue) (first : Platform)
    (rest : list Platform) (issued issued' : list Call) (value : JsValue) :
  run remote (raiseIntent intent context target (first :: rest)) issued
  = (Resolved value, issued') ->
  exists (methods : list Method) (method : Method) (invokeResult : InvokeResult),
    remote _ issued (DiscoverMethods (platformApi first)) = Resolved methods /\
    List.filter (with_intent intent target) methods = [method] /\
    remote _ (issued ++ [log (DiscoverMethods (platformApi first))])
           (Invoke (platformApi first) (ByMethod method) context) = Resolved invokeResult /\
    value = result invokeResult /\
    issued' = issued ++ [log (DiscoverMethods (platformApi first));
                         invocation context first method].
Proof.
  unfold raiseIntent. rewrite run_bind, run_lift.
  destruct (Utils.validateRaiseIntent intent context target) as [[] | invalid];
    [| discriminate].
  rewrite run_bind, for_of_cons, !run_bind, run_await.
  destruct (remote _ issued (DiscoverMethods (platformApi first))) as [methods | e] eqn:Hfirst;
    [| discriminate].
  destruct (List.filter (with_intent intent target) methods) as [| method [| another more]]
    eqn:Hfilter; try discriminate.
  rewrite run_bind, run_await.
  destruct (remote _ _ (Invoke (platformApi first) (ByMethod method) context))
    as [invokeResult | e] eqn:Hinvoke; [| discriminate].
  cbn [run default]. intros H. inversion H; subst.
  exists methods, method, invokeResult. rewrite <- app_assoc.
  split; [reflexivity |]. split; [exact Hfilter |]. split; [exact Hinvoke |].
  split; reflexivity.
Qed.

Lemma raiseIntent_resolves_only_for_a_single_method_witness :
  exists (methods : list Method) (method : Method) (invokeResult : InvokeResult),
    chart_remote _ [] (DiscoverMethods (platformApi (platform "B" 1))) = Resolved methods /\
    List.filter (with_intent (JStr "ViewChart") JUndefined) methods = [method] /\
    chart_remote _ ([] ++ [log (DiscoverMethods (platformApi (platform "B" 1)))])
                 (Invoke (platformApi (platform "B" 1)) (ByMethod method) instrument)
    = Resolved invokeResult /\
    instrument = result invokeResult /\
    [log (DiscoverMethods (peer 1)); log (Invoke (peer 1) (ByMethod chart_method) instrument)]
    = [] ++ [log (DiscoverMethods (platformApi (platform "B" 1)));
             invocation instrument (platform "B" 1) method].
Proof.
  apply (raiseIntent_resolves_only_for_a_single_method
           chart_remote (JStr "ViewChart") instrument JUndefined (platform "B" 1)
           [platform "A" 0] []).
  reflexivity.
Defined.

(** ** The scan: when it resolves, and when a discovery is rejected *)

Lemma peers_known_owned (keep : Intent -> bool) (methods : list Method) :
  peers_known methods -> owned keep methods.
Proof.
  unfold peers_known, owned, entries. induction 1 as [| method rest Hpeer Hrest IH].
  - constructor.
  - cbn [flat_map]. apply Forall_app. split; [| exact IH].
    apply Forall_map. apply Stdlib.Lists.List.Forall_forall. intros methodIntent _ _. exact Hpeer.
Qed.

Section Scanned.

Context {S : Type} (keep : Intent -> bool) (add : Intent -> AppMetadata -> S -> S).

(** The loop over the declared intents of a method fails only at an entry
    that is kept and has no owner. *)
Lemma scan_intents_outcome (method : Method) (intents : list Intent) (s : S) :
  Forall (fun methodIntent => keep methodIntent = true -> method_peer method <> None) intents
  \/ exists e, for_each intents (scan_intent keep add method) s = Throw e.
Proof.
  revert s. induction intents as [| methodIntent rest IH]; intros s.
  - left. constructor.
  - rewrite for_each_cons. unfold scan_intent at 1.
    destruct (keep methodIntent) eqn:Hkeep.
    + unfold owner. destruct (method_peer method) as [peer |] eqn:Hpeer.
      * cbn [bind].
        destruct (IH (add methodIntent {| app_name := applicationName peer |} s))
          as [Hrest | Hthrown]; [left | right; exact Hthrown].
        constructor; [intros _; discriminate | exact Hrest].
      * right. eexists. reflexivity.
    + cbn [bind]. destruct (IH s) as [Hrest | Hthrown]; [left | right; exact Hthrown].
      constructor; [intros Hkept; congruence | exact Hrest].
Qed.

Lemma scan_methods_outcome (methods : list Method) (s : S) :
  owned keep methods \/ exists e, for_each methods (scan_method keep add) s = Throw e.
Proof.
  revert s. induction methods as [| method rest IH]; intros s.
  - left. constructor.
  - rewrite for_each_cons. unfold scan_method at 1.
    destruct (scan_intents_outcome method (declared_intents method) s) as [Hfirst | [e Hthrown]].
    + rewrite (scan_intents keep add method _ s Hfirst). cbn [bind].
      match goal with
      | |- context [for_each rest _ ?s'] => destruct (IH s') as [Hrest | Hthrown]
      end; [left | right; exact Hthrown].
      change (method :: rest) with ([method] ++ rest). apply owned_app. split; [| exact Hrest].
      unfold owned, entries. cbn [flat_map]. rewrite app_nil_r. apply Forall_map. exact Hfirst.
    + right. exists e. rewrite Hthrown. reflexivity.
Qed.

(** When the scan resolves, every discovery was resolved, the entries kept
    were owned and the result is the fold of [add] over the hits. *)
Lemma run_scan_resolved (remote : Remote) (platforms : list Platform) (s r : S)
    (issued issued' : list Call) :
  run remote (scan keep add platforms s) issued = (Resolved r, issued') ->
  exists discovered : list (list Method),
    run remote (discover_all platforms) issued = (Resolved discovered, issued') /\
    owned keep (concat discovered) /\
    r = fold_left (add_hit add) (hits keep (concat discovered)) s.
Proof.
  unfold scan. revert s issued.
  induction platforms as [| platform rest IH]; intros s issued Hrun.
  - cbn in Hrun. inversion Hrun; subst. exists []. repeat split. constructor.
  - rewrite for_each_cons, !run_bind, run_await in Hrun.
    cbn [discover_all]. rewrite run_bind, run_await.
    destruct (remote _ issued (DiscoverMethods (platformApi platform))) as [methods | e];
      [| discriminate].
    destruct (scan_methods_outcome methods s) as [Howned | [e Hthrown]].
    + rewrite (scan_methods keep add methods s Howned) in Hrun. cbn [run] in Hrun.
      destruct (IH _ _ Hrun) as (others & Hothers & Hownedothers & ->).
      exists (methods :: others). rewrite run_bind, Hothers. cbn [run concat].
      split; [reflexivity |]. split.
      * apply owned_app. split; assumption.
      * rewrite hits_app, fold_left_app. reflexivity.
    + rewrite Hthrown in Hrun. discriminate Hrun.
Qed.

(** A discovery that is rejected ends the scan: nothing is collected and
    no later platform is asked. *)
Lemma run_scan_rejected (remote : Remote) (before after : list Platform) (failing : Platform)
    (s : S) (issued issued' : list Call) (discovered : list (list Method)) (e : JsError) :
  run remote (discover_all before) issued = (Resolved discovered, issued') ->
  owned keep (concat discovered) ->
  remote _ issued' (DiscoverMethods (platformApi failing)) = Rejected e ->
  run remote (scan keep add (before ++ failing :: after) s) issued
  = (Rejected e, issued' ++ [log (DiscoverMethods (platformApi failing))]).
Proof.
  intros Hbefore Howned Hfailing.
  pose proof (run_scan keep add remote before s issued issued' discovered Hbefore Howned)
    as Hscan.
  unfold scan in *. rewrite run_for_each_app, Hscan.
  rewrite for_each_cons, !run_bind, run_await, Hfailing. reflexivity.
Qed.

End Scanned.

Lemma validateIntent_named (intentName : string) :
  intentName <> "" -> Utils.validateIntent (JStr intentName) = Normal tt.
Proof.
  intros Hname. unfold Utils.validateIntent. cbn [truthy typeof].
  apply String.eqb_neq in Hname. rewrite Hname. reflexivity.
Qed.

Lemma validateRaiseIntent_named (intentName : string) (context target : JsValue) :
  Utils.validateRaiseIntent (JStr intentName) context target = Normal tt ->
  intentName <> "".
Proof.
  unfold Utils.validateRaiseIntent, Utils.validateIntentAndContextParams, Utils.validateIntent.
  cbn [truthy]. intros Hvalid ->. discriminate Hvalid.
Qed.

Lemma validateIntentAndContextParams_context (intent context : JsValue) :
  Utils.validateIntentAndContextParams intent context = Normal tt ->
  Utils.validateContext context = Normal tt.
Proof.
  unfold Utils.validateIntentAndContextParams.
  destruct (Utils.validateIntent intent) as [[] | e]; [auto | discriminate].
Qed.

(** When the scan found nothing, no declared intent was kept. *)
Lemma no_hit_not_kept (keep : Intent -> bool) (methods : list Method) :
  owned keep methods ->
  hits keep methods = [] ->
  forall (method : Method) (methodIntent : Intent),
    In method methods -> In methodIntent (declared_intents method) ->
    keep methodIntent = false.
Proof.
  unfold owned, hits. intros Howned Hnone method methodIntent Hmethod Hintent.
  assert (Hentry : In (method, methodIntent) (entries methods)).
  { unfold entries. apply in_flat_map. exists method. split; [exact Hmethod |].
    apply in_map. exact Hintent. }
  rewrite Stdlib.Lists.List.Forall_forall in Howned. specialize (Howned _ Hentry).
  destruct (keep methodIntent) eqn:Hkeep; [| reflexivity].
  assert (Hhit : hit_of keep (method, methodIntent) <> []).
  { unfold hit_of. cbn [fst snd] in *. rewrite Hkeep.
    destruct (method_peer method); [discriminate | exfalso; apply (Howned Hkeep); reflexivity]. }
  exfalso. apply Hhit.
  induction (entries methods) as [| entry rest IH]; [destruct Hentry |].
  cbn [flat_map] in Hnone. apply app_eq_nil in Hnone as [Hfirst Hrest].
  destruct Hentry as [-> | Hin]; [exact Hfirst | apply IH; assumption].
Qed.

(** X12: when [findIntent(intent)] resolves with an empty [apps] list, a
    call [raiseIntent(intent, context, target)] with valid arguments made on
    the same platforms in the same state is rejected with "There is no
    method with intent" after the discovery of the first platform. *)
Theorem raiseIntent_rejects_an_intent_findIntent_does_not_list
    (remote : Remote) (intentName : string) (context target : JsValue)
    (first : Platform) (rest : list Platform) (issued issued' : list Call)
    (appIntent : AppIntent) :
  Utils.validateRaiseIntent (JStr intentName) context target = Normal tt ->
  run remote (findIntent (JStr intentName) JUndefined (first :: rest)) issued
  = (Resolved appIntent, issued') ->
  apps appIntent = [] ->
  run remote (raiseIntent (JStr intentName) context target (first :: rest)) issued
  = (Rejected (Error ("There is no method with intent " +:+ dq +:+ intentName +:+ dq)),
     issued ++ [log (DiscoverMethods (platformApi first))]).
Proof.
  intros Hvalid Hfound Hnone.
  pose proof (validateRaiseIntent_named _ _ _ Hvalid) as Hname.
  rewrite findIntent_scan, run_bind in Hfound.
  unfold Utils.validateIntentAndContextParams in Hfound.
  rewrite (validateIntent_named intentName Hname) in Hfound. cbn [lift run] in Hfound.
  apply run_scan_resolved in Hfound as (discovered & Hdiscovered & Howned & ->).
  rewrite fold_push_app in Hnone. cbn [apps Datatypes.app] in Hnone.
  apply map_eq_nil in Hnone.
  cbn [discover_all] in Hdiscovered. rewrite run_bind, run_await in Hdiscovered.
  destruct (remote _ issued (DiscoverMethods (platformApi first))) as [methods | e] eqn:Hfirst;
    [| discriminate].
  rewrite run_bind in Hdiscovered.
  destruct (run remote (discover_all rest) _) as [[others | e] issued1]; [| discriminate].
  cbn [run] in Hdiscovered. inversion Hdiscovered; subst. clear Hdiscovered.
  cbn [concat] in Howned, Hnone.
  apply owned_app in Howned as [Howned _].
  rewrite hits_app in Hnone. apply app_eq_nil in Hnone as [Hnone _].
  rewrite (raiseIntent_cardinality remote _ context target first rest issued methods
             Hvalid Hfirst).
  assert (List.filter (with_intent (JStr intentName) target) methods = []) as ->;
    [| reflexivity].
  assert (Hall : forall method, In method methods ->
                   with_intent (JStr intentName) target method = false).
  { intros method Hmethod.
    destruct (with_intent (JStr intentName) target method) eqn:Hwith; [| reflexivity].
    apply with_intent_spec in Hwith as [(methodIntent & Hin & Hnamed) _].
    pose proof (no_hit_not_kept _ methods Howned Hnone method methodIntent Hmethod Hin)
      as Hkept.
    rewrite intent_matches_without_context in Hkept. unfold named_intent in Hkept.
    rewrite Hnamed, String.eqb_refl in Hkept. discriminate Hkept. }
  clear -Hall. induction methods as [| method more IH]; [reflexivity |].
  cbn [List.filter]. rewrite (Hall method (or_introl eq_refl)).
  apply IH. intros other Hother. apply Hall. right. exact Hother.
Qed.

Lemma raiseIntent_rejects_an_intent_findIntent_does_not_list_witness :
  run chart_remote
      (raiseIntent (JStr "ViewNews") instrument JUndefined [platform "A" 0; platform "B" 1]) []
  = (Rejected (Error ("There is no method with intent " +:+ dq +:+ "ViewNews" +:+ dq)),
     [] ++ [log (DiscoverMethods (platformApi (platform "A" 0)))]).
Proof.
  apply (raiseIntent_rejects_an_intent_findIntent_does_not_list
           chart_remote "ViewNews" instrument JUndefined (platform "A" 0) [platform "B" 1] []
           [log (DiscoverMethods (peer 0)); log (DiscoverMethods (peer 1))]
           (app_intent "ViewNews" []));
    reflexivity.
Defined.

Lemma same_json_sym (a b : JsValue) : same_json a b = same_json b a.
Proof. unfold same_json. apply bool_decide_ext. split; congruence. Qed.

Lemma intent_matches_for_context (intentName : string) (context : JsValue)
    (methodIntent : Intent) :
  truthy context = true ->
  intent_matches (JStr intentName) context methodIntent
  = named_intent intentName methodIntent && for_context context methodIntent.
Proof.
  intros Hgiven. unfold intent_matches, named_intent, for_context. cbn [is_string].
  rewrite Hgiven, same_json_sym. reflexivity.
Qed.

(** The hits of a conjunction are the hits of one part, filtered by the other. *)
Lemma hits_andb (f g : Intent -> bool) (methods : list Method) :
  hits (fun methodIntent => f methodIntent && g methodIntent) methods
  = List.filter (fun hit => f (fst hit)) (hits g methods).
Proof.
  unfold hits. induction (entries methods) as [| entry rest IH]; [reflexivity |].
  cbn [flat_map]. rewrite List.filter_app, IH. f_equal.
  unfold hit_of. destruct (g (snd entry)).
  - rewrite andb_true_r. destruct (method_peer (fst entry)).
    + cbn [List.filter fst]. destruct (f (snd entry)); reflexivity.
    + destruct (f (snd entry)); reflexivity.
  - rewrite andb_false_r. reflexivity.
Qed.

Lemma owned_weaken (keep keep' : Intent -> bool) (methods : list Method) :
  (forall methodIntent, keep' methodIntent = true -> keep methodIntent = true) ->
  owned keep methods -> owned keep' methods.
Proof.
  intros Hsub Howned. unfold owned in *. eapply Forall_impl; [exact Howned |].
  intros entry Hentry Hkept. apply Hentry, Hsub, Hkept.
Qed.

Lemma filter_absent (found : list (string * AppMetadata)) (intentName : string) :
  existsb (String.eqb intentName) (map fst found) = false ->
  List.filter (fun hit : string * AppMetadata => String.eqb (fst hit) intentName) found = [].
Proof.
  induction found as [| hit rest IH]; [reflexivity |].
  cbn [map existsb List.filter]. rewrite (String.eqb_sym (fst hit) intentName).
  destruct (String.eqb intentName (fst hit)); cbn [orb]; [discriminate | exact IH].
Qed.

(** The entry [find] returns for a name among the groups. *)
Lemma find_group (found : list (string * AppMetadata)) (intentName : string) :
  match List.find (named intentName) (group_by_intent found) with
  | Some group => apps group
  | None => []
  end
  = map snd (List.filter (fun hit => String.eqb (fst hit) intentName) found).
Proof.
  unfold group_by_intent.
  rewrite (find_named intentName
             (fun x => map snd (List.filter (fun hit : string * AppMetadata =>
                                               String.eqb (fst hit) x) found))).
  rewrite first_seen_distinct.
  destruct (existsb (String.eqb intentName) (map fst found)) eqn:Hseen.
  - reflexivity.
  - rewrite (filter_absent found intentName Hseen). reflexivity.
Qed.

Lemma filter_named_hits (intentName : string) (found : list (Intent * AppMetadata)) :
  map snd (List.filter (fun hit => String.eqb (fst hit) intentName) (map named_hit found))
  = map snd (List.filter (fun hit => named_intent intentName (fst hit)) found).
Proof.
  induction found as [| hit rest IH]; [reflexivity |].
  cbn [map List.filter]. unfold named_hit at 1, named_intent at 1. cbn [fst snd].
  rewrite (String.eqb_sym (intent_name (fst hit)) intentName).
  destruct (String.eqb intentName (intent_name (fst hit))); cbn [map]; rewrite IH; reflexivity.
Qed.

(** X13: for a context that is given, whenever [findIntentsByContext(ctx)]
    resolves, [findIntent(intent, ctx)] called in the same state resolves
    too, after the same calls; its [apps] are the [apps] of the entry named
    [intent] in the result of [findIntentsByContext], in the same order, and
    the empty list when no entry has that name. *)
Theorem findIntent_lists_the_group_of_findIntentsByContext
    (remote : Remote) (intentName : string) (context : JsValue) (platforms : list Platform)
    (issued issued' : list Call) (appIntents : list AppIntent) :
  intentName <> "" ->
  truthy context = true ->
  run remote (findIntentsByContext context platforms) issued = (Resolved appIntents, issued') ->
  exists appIntent : AppIntent,
    run remote (findIntent (JStr intentName) context platforms) issued
    = (Resolved appIntent, issued') /\
    intent_of appIntent = intentName /\
    apps appIntent = match List.find (named intentName) appIntents with
                     | Some group => apps group
                     | None => []
                     end.
Proof.
  intros Hname Hgiven.
  rewrite findIntentsByContext_scan, run_bind, run_lift.
  destruct (Utils.validateContext context) as [[] | invalid] eqn:Hvalid; [| discriminate].
  intros Hrun. fold (for_context context) in Hrun.
  apply run_scan_resolved in Hrun as (discovered & Hdiscovered & Howned & ->).
  rewrite fold_record_match, find_group, filter_named_hits.
  eexists. split; [| split].
  - rewrite findIntent_scan, run_bind. unfold Utils.validateIntentAndContextParams.
    rewrite (validateIntent_named intentName Hname), Hvalid. cbn [lift run].
    rewrite (run_scan _ _ remote platforms _ issued issued' discovered Hdiscovered).
    + rewrite fold_push_app. reflexivity.
    + apply (owned_weaken (for_context context)); [| exact Howned].
      intros methodIntent. rewrite (intent_matches_for_context _ _ _ Hgiven).
      intros Hkept. apply andb_true_iff in Hkept as [_ Hkept]. exact Hkept.
  - reflexivity.
  - cbn [apps Datatypes.app string_of intent].
    rewrite (hits_ext _ (fun methodIntent =>
                           named_intent intentName methodIntent
                           && for_context context methodIntent)).
    + rewrite hits_andb. reflexivity.
    + intros methodIntent. apply intent_matches_for_context. exact Hgiven.
Qed.

Lemma findIntent_lists_the_group_of_findIntentsByContext_witness :
  exists appIntent : AppIntent,
    run call_remote (findIntent (JStr "Call") contact [platform "A" 0; platform "B" 1]) []
    = (Resolved appIntent, [log (DiscoverMethods (peer 0)); log (DiscoverMethods (peer 1))]) /\
    intent_of appIntent = "Call" /\
    apps appIntent = [ {| app_name := "phone" |}; {| app_name := "messenger" |} ].
Proof.
  apply (findIntent_lists_the_group_of_findIntentsByContext
           call_remote "Call" contact [platform "A" 0; platform "B" 1] []
           [log (DiscoverMethods (peer 0)); log (DiscoverMethods (peer 1))]
           [ app_intent "Call" [ {| app_name := "phone" |}; {| app_name := "messenger" |} ];
             app_intent "Chat" [ {| app_name := "messenger" |} ] ]).
  - discriminate.
  - reflexivity.
  - reflexivity.
Defined.

(** X14: [findIntent] and [findIntentsByContext] do not survive a platform
    that is down.  When the platforms before it answer their discovery with
    methods that name their peer and the discovery of a platform is
    rejected, both calls are rejected with the reason of that discovery;
    that discovery is the last call issued, so the platforms after it are
    never asked and nothing collected so far is returned. *)
Theorem find_operations_stop_at_a_rejected_discovery
    (remote : Remote) (intent context : JsValue) (before after : list Platform)
    (failing : Platform) (issued issued' : list Call) (discovered : list (list Method))
    (e : JsError) :
  Utils.validateIntentAndContextParams intent context = Normal tt ->
  run remote (discover_all before) issued = (Resolved discovered, issued') ->
  peers_known (concat discovered) ->
  remote _ issued' (DiscoverMethods (platformApi failing)) = Rejected e ->
  run remote (findIntent intent context (before ++ failing :: after)) issued
  = (Rejected e, issued' ++ [log (DiscoverMethods (platformApi failing))]) /\
  run remote (findIntentsByContext context (before ++ failing :: after)) issued
  = (Rejected e, issued' ++ [log (DiscoverMethods (platformApi failing))]).
Proof.
  intros Hvalid Hbefore Hpeers Hfailing. split.
  - rewrite findIntent_scan, run_bind, Hvalid. cbn [lift run].
    apply (run_scan_rejected _ _ remote before after failing _ issued issued' discovered e);
      [exact Hbefore | apply peers_known_owned; exact Hpeers | exact Hfailing].
  - rewrite findIntentsByContext_scan, run_bind,
      (validateIntentAndContextParams_context intent context Hvalid).
    cbn [lift run].
    apply (run_scan_rejected _ _ remote before after failing _ issued issued' discovered e);
      [exact Hbefore | apply peers_known_owned; exact Hpeers | exact Hfailing].
Qed.

Lemma find_operations_stop_at_a_rejected_discovery_witness :
  run listening (findIntent (JStr "ViewChart") instrument three_platforms) []
  = (Rejected (Error "platform is down"),
     [log (DiscoverMethods (peer 0))] ++ [log (DiscoverMethods (peer 1))]) /\
  run listening (findIntentsByContext instrument three_platforms) []
  = (Rejected (Error "platform is down"),
     [log (DiscoverMethods (peer 0))] ++ [log (DiscoverMethods (peer 1))]).
Proof.
  apply (find_operations_stop_at_a_rejected_discovery
           listening (JStr "ViewChart") instrument [platform "A" 0] [platform "C" 2]
           (platform "B" 1) [] [log (DiscoverMethods (peer 0))]
           [ [listener "A"; method "Fdc3.A.Other" [] "A"] ] (Error "platform is down")).
  - reflexivity.
  - reflexivity.
  - repeat constructor; discriminate.
  - reflexivity.
Defined.

Lemma group_by_intent_names (found : list (string * AppMetadata)) :
  map intent_of (group_by_intent found) = first_seen (map fst found).
Proof.
  unfold group_by_intent. rewrite map_map. cbn [intent_of app_intent intent intent_metadata_name].
  apply map_id.
Qed.

Lemma filter_named_not_nil (found : list (string * AppMetadata)) (intentName : string) :
  In intentName (map fst found) ->
  map snd (List.filter (fun hit => String.eqb (fst hit) intentName) found) <> [].
Proof.
  induction found as [| hit rest IH]; cbn [map In List.filter]; [tauto |].
  intros [Hfirst | Hrest].
  - rewrite Hfirst, String.eqb_refl. discriminate.
  - destruct (String.eqb (fst hit) intentName); [discriminate | auto].
Qed.

Lemma group_by_intent_well_grouped (found : list (string * AppMetadata)) :
  List.NoDup (map intent_of (group_by_intent found)) /\
  Forall (fun appIntent =>
            apps appIntent <> [] /\
            displayName (intent appIntent) = intent_metadata_name (intent appIntent))
         (group_by_intent found).
Proof.
  split.
  - rewrite group_by_intent_names. apply first_seen_once.
  - unfold group_by_intent. apply Forall_map. apply Stdlib.Lists.List.Forall_forall.
    intros intentName Hin.
    cbn [app_intent apps intent displayName intent_metadata_name]. split; [| reflexivity].
    apply filter_named_not_nil. apply first_seen_In. exact Hin.
Qed.

(** X15: whenever [findIntentsByContext] resolves, whatever the remote side
    answered, no two entries of the result have the same intent name, every
    entry lists at least one application, and the display name of every
    entry is its name. *)
Theorem findIntentsByContext_result_is_well_grouped
    (remote : Remote) (context : JsValue) (platforms : list Platform)
    (issued issued' : list Call) (appIntents : list AppIntent) :
  run remote (findIntentsByContext context platforms) issued = (Resolved appIntents, issued') ->
  List.NoDup (map intent_of appIntents) /\
  Forall (fun appIntent =>
            apps appIntent <> [] /\
            displayName (intent appIntent) = intent_metadata_name (intent appIntent))
         appIntents.
Proof.
  rewrite findIntentsByContext_scan, run_bind, run_lift.
  destruct (Utils.validateContext context) as [[] | invalid]; [| discriminate].
  intros Hrun. apply run_scan_resolved in Hrun as (discovered & _ & _ & ->).
  rewrite fold_record_match. apply group_by_intent_well_grouped.
Qed.

Lemma findIntentsByContext_result_is_well_grouped_witness :
  List.NoDup (map intent_of
                  [ app_intent "Call" [ {| app_name := "phone" |}; {| app_name := "messenger" |} ];
                    app_intent "Chat" [ {| app_name := "messenger" |} ] ]) /\
  Forall (fun appIntent =>
            apps appIntent <> [] /\
            displayName (intent appIntent) = intent_metadata_name (intent appIntent))
         [ app_intent "Call" [ {| app_name := "phone" |}; {| app_name := "messenger" |} ];
           app_intent "Chat" [ {| app_name := "messenger" |} ] ].
Proof.
  apply (findIntentsByContext_result_is_well_grouped
           call_remote contact [platform "A" 0; platform "B" 1] []
           [log (DiscoverMethods (peer 0)); log (DiscoverMethods (peer 1))]).
  reflexivity.
Defined.

Lemma intent_matches_falsy (intent context : JsValue) (methodIntent : Intent) :
  truthy context = false ->
  intent_matches intent context methodIntent = intent_matches intent JUndefined methodIntent.
Proof. intros Hfalsy. unfold intent_matches. rewrite Hfalsy. reflexivity. Qed.

Section Extensional.

Context {S : Type} (keep keep' : Intent -> bool) (add : Intent -> AppMetadata -> S -> S).
Context (Hsame : forall methodIntent, keep methodIntent = keep' methodIntent).

Lemma scan_intents_ext (method : Method) (intents : list Intent) (s : S) :
  for_each intents (scan_intent keep add method) s
  = for_each intents (scan_intent keep' add method) s.
Proof.
  revert s. induction intents as [| methodIntent rest IH]; intros s; [reflexivity |].
  rewrite !for_each_cons. unfold scan_intent at 1 3. rewrite <- Hsame.
  destruct (keep methodIntent).
  - unfold owner. destruct (method_peer method); cbn [bind]; [apply IH | reflexivity].
  - cbn [bind]. apply IH.
Qed.

Lemma scan_methods_ext (methods : list Method) (s : S) :
  for_each methods (scan_method keep add) s = for_each methods (scan_method keep' add) s.
Proof.
  revert s. induction methods as [| method rest IH]; intros s; [reflexivity |].
  rewrite !for_each_cons. unfold scan_method at 1 3. rewrite scan_intents_ext.
  destruct (for_each (declared_intents method) (scan_intent keep' add method) s)
    as [s' | e | X call k] eqn:Hstep.
  - cbn [bind]. apply IH.
  - reflexivity.
  - exfalso. clear -Hstep. revert s Hstep.
    induction (declared_intents method) as [| methodIntent more IHm]; intros s Hstep.
    + discriminate Hstep.
    + rewrite for_each_cons in Hstep. unfold scan_intent at 1 in Hstep.
      destruct (keep' methodIntent).
      * unfold owner in Hstep. destruct (method_peer method); cbn [bind] in Hstep;
          [eapply IHm; exact Hstep | discriminate Hstep].
      * cbn [bind] in Hstep. eapply IHm; exact Hstep.
Qed.

(** The scan depends on [keep] only through its values. *)
Lemma run_scan_ext (remote : Remote) (platforms : list Platform) (s : S)
    (issued : list Call) :
  run remote (scan keep add platforms s) issued
  = run remote (scan keep' add platforms s) issued.
Proof.
  unfold scan. revert s issued.
  induction platforms as [| platform rest IH]; intros s issued; [reflexivity |].
  rewrite !for_each_cons, !run_bind, !run_await.
  destruct (remote _ issued (DiscoverMethods (platformApi platform))) as [methods | e];
    [| reflexivity].
  rewrite scan_methods_ext.
  destruct (run remote (for_each methods (scan_method keep' add) s) _) as [[s' | e] issued1];
    [apply IH | reflexivity].
Qed.

End Extensional.

(** X16: [findIntent] takes a context that is falsy ([null], [false], [0],
    the empty string) for no context at all: it is not rejected by
    validation and does not filter by context, so the call does what
    [findIntent(intent)] does, for every intent and whatever the remote
    side answers. *)
Theorem findIntent_takes_a_falsy_context_for_none
    (remote : Remote) (intent context : JsValue) (platforms : list Platform)
    (issued : list Call) :
  truthy context = false ->
  run remote (findIntent intent context platforms) issued
  = run remote (findIntent intent JUndefined platforms) issued.
Proof.
  intros Hfalsy. rewrite !findIntent_scan, !run_bind.
  assert (Hvalid : Utils.validateIntentAndContextParams intent context
                   = Utils.validateIntentAndContextParams intent JUndefined).
  { unfold Utils.validateIntentAndContextParams, Utils.validateContext.
    rewrite Hfalsy. reflexivity. }
  rewrite Hvalid.
  destruct (run remote (lift (Utils.validateIntentAndContextParams intent JUndefined)) issued)
    as [[[] | e] issued1]; [| reflexivity].
  apply run_scan_ext. intros methodIntent. apply intent_matches_falsy. exact Hfalsy.
Qed.

Lemma findIntent_takes_a_falsy_context_for_none_witness :
  run two_chart_remote (findIntent (JStr "ViewChart") JNull [platform "A" 0; platform "B" 1]) []
  = run two_chart_remote
        (findIntent (JStr "ViewChart") JUndefined [platform "A" 0; platform "B" 1]) [].
Proof.
  apply (findIntent_takes_a_falsy_context_for_none
           two_chart_remote (JStr "ViewChart") JNull [platform "A" 0; platform "B" 1] []).
  reflexivity.
Defined.

(** ** Contexts with properties that are not serialised *)

(** The text of an object is written from its members. *)
Lemma stringify_object (props : list (string * JsValue)) :
  stringify (JObj props) = Some ("{" +:+ String.concat "," (members props) +:+ "}").
Proof.
  cbn [stringify].
  match goal with
  | |- Some ("{" +:+ String.concat "," ?written +:+ "}") = _ =>
      assert (written = members props) as ->; [| reflexivity]
  end.
  induction props as [| [k x] rest IH]; [reflexivity |].
  cbn [members]. rewrite IH. reflexivity.
Qed.

Lemma members_skip (props more : list (string * JsValue)) (key : string) (x : JsValue) :
  stringify x = None ->
  members (props ++ (key, x) :: more) = members (props ++ more).
Proof.
  intros Hnone. induction props as [| [k y] rest IH].
  - cbn [Datatypes.app members]. rewrite Hnone. reflexivity.
  - cbn [Datatypes.app members]. rewrite IH. reflexivity.
Qed.

Lemma same_json_skip (props more : list (string * JsValue)) (key : string) (other : JsValue) :
  same_json (JObj (props ++ (key, JUndefined) :: more)) other
  = same_json (JObj (props ++ more)) other.
Proof.
  unfold same_json. rewrite !stringify_object, (members_skip props more key JUndefined eq_refl).
  reflexivity.
Qed.

(** X17: the comparison both find operations make, equality of the
    [JSON.stringify] texts, does not see a property whose value is
    [undefined]: a context with such a property matches exactly the declared
    contexts that the context without it matches, in [findIntent] and in
    [findIntentsByContext], and a declared context with such a property is
    matched exactly as the one without it. *)
Theorem context_match_ignores_undefined_properties
    (intent context : JsValue) (props more : list (string * JsValue)) (key : string)
    (methodIntent : Intent) :
  intent_matches intent (JObj (props ++ (key, JUndefined) :: more)) methodIntent
  = intent_matches intent (JObj (props ++ more)) methodIntent /\
  for_context (JObj (props ++ (key, JUndefined) :: more)) methodIntent
  = for_context (JObj (props ++ more)) methodIntent /\
  intent_matches intent context
    {| intent_name := intent_name methodIntent;
       intent_context := JObj (props ++ (key, JUndefined) :: more) |}
  = intent_matches intent context
      {| intent_name := intent_name methodIntent; intent_context := JObj (props ++ more) |}.
Proof.
  unfold intent_matches, for_context. cbn [truthy negb orb intent_name intent_context].
  rewrite same_json_skip.
  rewrite (same_json_sym (intent_context methodIntent)), same_json_skip.
  rewrite (same_json_sym context), same_json_skip.
  rewrite (same_json_sym (JObj (props ++ more)) (intent_context methodIntent)).
  rewrite (same_json_sym (JObj (props ++ more)) context).
  repeat split; reflexivity.
Qed.

(** ** broadcast: the context, and one delivery *)

(** X18: [broadcast] throws "Context is mandatory parameter" when its
    context is missing or any other falsy value, and it returns normally,
    having started its deliveries, exactly when the context is given and
    well formed; in every other case it throws and starts nothing. *)
Theorem broadcast_requires_a_well_formed_context
    (context : JsValue) (platforms : list Platform) :
  (truthy context = false ->
   broadcast context platforms = Abrupt (Error "Context is mandatory parameter")) /\
  ((exists tasks, broadcast context platforms = Normal tasks) <->
   truthy context = true /\ malformed_context context = false).
Proof.
  unfold broadcast. split.
  - intros ->. reflexivity.
  - destruct (truthy context) eqn:Hgiven; cbn [negb].
    + destruct (malformed_context context) eqn:Hcontext.
      * destruct (validateContext_malformed context Hcontext) as [m ->].
        split; [intros [tasks H]; discriminate H | intros [_ H]; discriminate H].
      * rewrite (validateContext_well_formed context Hcontext).
        split; [auto | eauto].
    + split; [intros [tasks H]; discriminate H | intros [H _]; discriminate H].
Qed.

Lemma broadcast_requires_a_well_formed_context_witness :
  broadcast JNull three_platforms = Abrupt (Error "Context is mandatory parameter") /\
  exists tasks, broadcast contact three_platforms = Normal tasks.
Proof.
  destruct (broadcast_requires_a_well_formed_context JNull three_platforms) as [Hmissing _].
  destruct (broadcast_requires_a_well_formed_context contact three_platforms) as [_ Hgiven].
  split.
  - apply Hmissing. reflexivity.
  - apply Hgiven. split; reflexivity.
Defined.

(** The loop over the context listeners of one platform. *)
Lemma run_deliver_to (remote : Remote) (context : JsValue) (platform : Platform)
    (accepts : Method -> bool) (listeners : list Method) (issued : list Call) :
  (forall (issued' : list Call) (method : Method),
      In method listeners ->
      resolves (remote _ issued' (Invoke (platformApi platform) (ByMethod method) context))
      = accepts method) ->
  run remote (deliver_to context platform listeners) issued
  = (Resolved tt,
     issued ++ map (invocation context platform) (through_first_failure accepts listeners)).
Proof.
  revert issued. induction listeners as [| method rest IH]; intros issued Haccepts.
  - cbn. rewrite app_nil_r. reflexivity.
  - unfold deliver_to in *. rewrite run_try_catch, for_each_cons, !run_bind, run_await.
    pose proof (Haccepts issued method (or_introl eq_refl)) as Hfirst.
    cbn [through_first_failure]. rewrite <- Hfirst.
    destruct (remote _ issued (Invoke (platformApi platform) (ByMethod method) context))
      as [answer | e]; cbn [resolves run map].
    + specialize (IH (issued ++ [invocation context platform method])).
      rewrite run_try_catch in IH. unfold invocation at 1 in IH.
      destruct (run remote _ (issued ++ [log (Invoke (platformApi platform) (ByMethod method) context)]))
        as [[[] | e] issued1].
      * cbn [run] in IH |- *.
        rewrite IH by (intros; apply Haccepts; right; assumption).
        rewrite <- app_assoc. reflexivity.
      * cbn [run] in IH |- *.
        rewrite IH by (intros; apply Haccepts; right; assumption).
        rewrite <- app_assoc. reflexivity.
    + reflexivity.
Qed.

(** X19: the delivery [broadcast] starts for one platform whose discovery
    resolves invokes the context listeners of the platform in the order
    discovered and stops at the first invocation that is rejected: the
    listeners after it are not invoked, and the delivery ends without an
    error.  [accepts] tells which listeners resolve their invocation. *)
Theorem broadcast_stops_at_the_first_rejected_listener
    (remote : Remote) (context : JsValue) (platform : Platform) (methods : list Method)
    (accepts : Method -> bool) (issued : list Call) :
  remote _ issued (DiscoverMethods (platformApi platform)) = Resolved methods ->
  (forall (issued' : list Call) (method : Method),
      In method (context_listeners platform methods) ->
      resolves (remote _ issued' (Invoke (platformApi platform) (ByMethod method) context))
      = accepts method) ->
  run remote (deliver context platform) issued
  = (Resolved tt,
     issued ++ log (DiscoverMethods (platformApi platform))
            :: map (invocation context platform)
                   (through_first_failure accepts (context_listeners platform methods))).
Proof.
  intros Hdiscovery Haccepts.
  pose proof (run_deliver_to remote context platform accepts
                (context_listeners platform methods)
                (issued ++ [log (DiscoverMethods (platformApi platform))]) Haccepts) as Hrest.
  unfold deliver_to in Hrest. rewrite run_try_catch in Hrest.
  unfold deliver. rewrite run_try_catch, run_bind, run_await, Hdiscovery.
  fold (context_listeners platform methods).
  destruct (run remote _ (issued ++ [log (DiscoverMethods (platformApi platform))]))
    as [[[] | e] issued1]; rewrite Hrest, <- app_assoc; reflexivity.
Qed.

Lemma broadcast_stops_at_the_first_rejected_listener_witness :
  run moody (deliver contact (platform "A" 0)) []
  = (Resolved tt,
     [] ++ log (DiscoverMethods (peer 0))
        :: map (invocation contact (platform "A" 0))
               (through_first_failure
                  (fun method => resolves (moody_invoke (ByMethod method) contact))
                  (context_listeners (platform "A" 0) moody_listeners))) /\
  through_first_failure (fun method => resolves (moody_invoke (ByMethod method) contact))
                        (context_listeners (platform "A" 0) moody_listeners)
  = [method "Fdc3.A.ContextListener" [] "one"; method "Fdc3.A.ContextListener" [] "two"].
Proof.
  split; [| reflexivity].
  apply (broadcast_stops_at_the_first_rejected_listener
           moody contact (platform "A" 0) moody_listeners
           (fun method => resolves (moody_invoke (ByMethod method) contact)) []).
  - reflexivity.
  - intros issued' method _. reflexivity.
Defined.

(** ** Listeners *)

(** X20: [addContextListener] with a callable handler never fails: it adds
    the handler to the "add-context" channel of the registry and registers
    one method on every platform, in the order of the platforms, each named
    [Fdc3.<platform name>.ContextListener]; it issues no other call.  The
    name it registers on a platform is the name by which [broadcast] picks
    the context listeners of that platform. *)
Theorem addContextListener_registers_on_every_platform
    (remote : Remote) (handler : JsValue) (platforms : list Platform)
    (registry : CallbackRegistry) (issued : list Call) :
  bad_handler handler = false ->
  run remote (addContextListener handler platforms registry) issued
  = (Resolved ({| unsubscribe_key := next_key registry |},
               snd (registry_add "add-context" handler registry)),
     issued ++ map (fun platform =>
                      log (Register (platformApi platform)
                                    (context_listener_implementation platform)))
                   platforms) /\
  forall (platform : Platform) (method : Method),
    is_context_listener platform method
    = String.eqb (method_name method)
                 (implementation_name (context_listener_implementation platform)).
Proof.
  intros Hhandler. split; [| reflexivity].
  unfold addContextListener, bad_handler in *.
  apply orb_false_elim in Hhandler as [Hgiven Hcallable].
  rewrite Hgiven, Hcallable. cbn [registry_add].
  rewrite run_bind.
  rewrite (run_for_each_perform remote platforms
             (fun platform => Register (platformApi platform)
                                       (context_listener_implementation platform))).
  reflexivity.
Qed.

Lemma addContextListener_registers_on_every_platform_witness :
  run bare (addContextListener (JFun 1) three_platforms empty_registry) []
  = (Resolved ({| unsubscribe_key := 0 |},
               {| callbacks := [(0, ("add-context", JFun 1))]; next_key := 1 |}),
     [log (Register (peer 0) (context_listener_implementation (platform "A" 0)));
      log (Register (peer 1) (context_listener_implementation (platform "B" 1)));
      log (Register (peer 2) (context_listener_implementation (platform "C" 2)))]).
Proof.
  apply (addContextListener_registers_on_every_platform
           bare (JFun 1) three_platforms empty_registry []).
  reflexivity.
Defined.

Lemma run_addIntentListener (remote : Remote) (intent handler : JsValue)
    (platforms : list Platform) (registry : CallbackRegistry) (issued : list Call) :
  bad_string intent = false ->
  bad_handler handler = false ->
  run remote (addIntentListener intent handler platforms registry) issued
  = (Resolved ({| unsubscribe_key := next_key registry |},
               snd (registry_add "add-intent" handler registry)),
     issued ++ map (fun platform =>
                      log (OnMethodRegistered (platformApi platform) (intent_hook intent)))
                   platforms).
Proof.
  intros Hintent Hhandler. unfold addIntentListener, Utils.validateAddIntentListener.
  rewrite (validateIntent_good intent Hintent).
  unfold bad_handler in Hhandler. apply orb_false_elim in Hhandler as [Hgiven Hcallable].
  rewrite Hgiven, Hcallable. cbn [lift bind registry_add].
  rewrite run_bind.
  rewrite (run_for_each_perform remote platforms
             (fun platform => OnMethodRegistered (platformApi platform) (intent_hook intent))).
  reflexivity.
Qed.

(** X21: [addIntentListener] with a non-empty string for an intent and a
    callable handler never fails: it adds the handler to the "add-intent"
    channel of the registry and hands one hook for the intent to
    [onMethodRegistered] of every platform, in the order of the platforms;
    it issues no other call. *)
Theorem addIntentListener_hooks_every_platform
    (remote : Remote) (intent handler : JsValue) (platforms : list Platform)
    (registry : CallbackRegistry) (issued : list Call) :
  bad_string intent = false ->
  bad_handler handler = false ->
  run remote (addIntentListener intent handler platforms registry) issued
  = (Resolved ({| unsubscribe_key := next_key registry |},
               snd (registry_add "add-intent" handler registry)),
     issued ++ map (fun platform =>
                      log (OnMethodRegistered (platformApi platform) (intent_hook intent)))
                   platforms).
Proof.
  intros Hintent Hhandler. unfold addIntentListener, Utils.validateAddIntentListener.
  rewrite (validateIntent_good intent Hintent).
  unfold bad_handler in Hhandler. apply orb_false_elim in Hhandler as [Hgiven Hcallable].
  rewrite Hgiven, Hcallable. cbn [lift bind registry_add].
  rewrite run_bind.
  rewrite (run_for_each_perform remote platforms
             (fun platform => OnMethodRegistered (platformApi platform) (intent_hook intent))).
  reflexivity.
Qed.

Lemma addIntentListener_hooks_every_platform_witness :
  run bare (addIntentListener (JStr "ViewChart") (JFun 1) three_platforms empty_registry) []
  = (Resolved ({| unsubscribe_key := 0 |},
               {| callbacks := [(0, ("add-intent", JFun 1))]; next_key := 1 |}),
     [log (OnMethodRegistered (peer 0) (intent_hook (JStr "ViewChart")));
      log (OnMethodRegistered (peer 1) (intent_hook (JStr "ViewChart")));
      log (OnMethodRegistered (peer 2) (intent_hook (JStr "ViewChart")))]).
Proof.
  apply (addIntentListener_hooks_every_platform
           bare (JStr "ViewChart") (JFun 1) three_platforms empty_registry []);
    reflexivity.
Defined.

Lemma registry_execute_added (channel : string) (handler argument : JsValue)
    (registry : CallbackRegistry) :
  In (handler, argument)
     (registry_execute channel argument (snd (registry_add channel handler registry))).
Proof.
  unfold registry_execute, registry_add. cbn [snd callbacks].
  rewrite List.filter_app, map_app. apply in_or_app. right.
  cbn [List.filter fst snd]. rewrite String.eqb_refl. left. reflexivity.
Qed.

Lemma registry_execute_kept (channel other : string) (handler callback argument : JsValue)
    (registry : CallbackRegistry) :
  In (callback, argument) (registry_execute channel argument registry) ->
  In (callback, argument)
     (registry_execute channel argument (snd (registry_add other handler registry))).
Proof.
  unfold registry_execute, registry_add. cbn [snd callbacks].
  rewrite List.filter_app, map_app. intros Hin. apply in_or_app. left. exact Hin.
Qed.

Lemma on_method_registered_runs (intentName : string) (method : Method)
    (methodIntent : Intent) (callback : JsValue) (registry : CallbackRegistry) :
  In methodIntent (declared_intents method) ->
  intent_name methodIntent = intentName ->
  In (callback, intent_context methodIntent)
     (registry_execute "add-intent" (intent_context methodIntent) registry) ->
  In (callback, intent_context methodIntent)
     (on_method_registered (intent_hook (JStr intentName)) method registry).
Proof.
  intros Hdeclared Hnamed Hrun. unfold on_method_registered. apply in_flat_map.
  exists methodIntent. split; [exact Hdeclared |].
  cbn [intent_hook hook_intent hook_channel is_string].
  rewrite Hnamed, String.eqb_refl. exact Hrun.
Qed.

(** X22: every intent handler sits on the one "add-intent" channel, so a
    hook runs all of them.  After [addIntentListener(intent, handler)] and
    then [addIntentListener(other, otherHandler)], when a platform reports a
    method that declares [intent], the hook installed for [intent] calls
    both [handler] and [otherHandler] with the declared context, whatever
    intent [otherHandler] was added for. *)
Theorem intent_listeners_share_one_channel
    (remote : Remote) (intentName otherName : string) (handler otherHandler : JsValue)
    (platforms : list Platform) (registry : CallbackRegistry) (issued : list Call) :
  intentName <> "" ->
  otherName <> "" ->
  bad_handler handler = false ->
  bad_handler otherHandler = false ->
  exists (first second : Listener) (registry1 registry2 : CallbackRegistry)
         (issued1 issued2 : list Call),
    run remote (addIntentListener (JStr intentName) handler platforms registry) issued
    = (Resolved (first, registry1), issued1) /\
    run remote (addIntentListener (JStr otherName) otherHandler platforms registry1) issued1
    = (Resolved (second, registry2), issued2) /\
    forall (method : Method) (methodIntent : Intent),
      In methodIntent (declared_intents method) ->
      intent_name methodIntent = intentName ->
      In (handler, intent_context methodIntent)
         (on_method_registered (intent_hook (JStr intentName)) method registry2) /\
      In (otherHandler, intent_context methodIntent)
         (on_method_registered (intent_hook (JStr intentName)) method registry2).
Proof.
  intros Hname Hother Hhandler Hotherhandler.
  assert (Hgood : forall s, s <> "" -> bad_string (JStr s) = false).
  { intros s Hs. unfold bad_string. cbn [truthy typeof].
    apply String.eqb_neq in Hs. rewrite Hs. reflexivity. }
  do 6 eexists. split; [| split].
  - apply run_addIntentListener; [apply Hgood; exact Hname | exact Hhandler].
  - apply run_addIntentListener; [apply Hgood; exact Hother | exact Hotherhandler].
  - intros method methodIntent Hdeclared Hnamed. split.
    + apply on_method_registered_runs; [exact Hdeclared | exact Hnamed |].
      apply registry_execute_kept, registry_execute_added.
    + apply on_method_registered_runs; [exact Hdeclared | exact Hnamed |].
      apply registry_execute_added.
Qed.

Lemma intent_listeners_share_one_channel_witness :
  exists (first second : Listener) (registry1 registry2 : CallbackRegistry)
         (issued1 issued2 : list Call),
    run bare (addIntentListener (JStr "ViewChart") (JFun 1) [platform "A" 0] empty_registry) []
    = (Resolved (first, registry1), issued1) /\
    run bare (addIntentListener (JStr "ViewNews") (JFun 2) [platform "A" 0] registry1) issued1
    = (Resolved (second, registry2), issued2) /\
    forall (method : Method) (methodIntent : Intent),
      In methodIntent (declared_intents method) ->
      intent_name methodIntent = "ViewChart" ->
      In (JFun 1, intent_context methodIntent)
         (on_method_registered (intent_hook (JStr "ViewChart")) method registry2) /\
      In (JFun 2, intent_context methodIntent)
         (on_method_registered (intent_hook (JStr "ViewChart")) method registry2).
Proof.
  apply (intent_listeners_share_one_channel
           bare "ViewChart" "ViewNews" (JFun 1) (JFun 2) [platform "A" 0] empty_registry []);
    [discriminate | discriminate | reflexivity | reflexivity].
Defined.

(** ** Fdc3Bus: connections that are refused *)

Lemma connectUntilReady_never_throws (ticks : nat) (interopPlatform : InteropPlatform)
    (methods : list MethodImplementation) :
  never_throws (Utils.connectUntilReady ticks interopPlatform methods).
Proof.
  induction ticks as [| ticks IH]; cbn [Utils.connectUntilReady]; constructor.
  intros [interopPeer | e]; [constructor | exact IH].
Qed.

(** Whatever the platforms answer, the connections are not rejected. *)
Lemma run_connect_all_settles (remote : Remote) (ticks : nat)
    (interopPlatforms : list InteropPlatform) (methods : list MethodImplementation)
    (issued : list Call) :
  exists (outcome : option (list InteropPeer)) (issued' : list Call),
    run remote (Utils.connect_all ticks interopPlatforms methods) issued
    = (Resolved outcome, issued').
Proof.
  unfold Utils.connect_all.
  assert (Hstart : Forall2 (fun _ : InteropPlatform => never_throws) interopPlatforms
                     (map (fun interopPlatform =>
                             Utils.connectUntilReady ticks interopPlatform methods)
                          interopPlatforms)).
  { induction interopPlatforms as [| interopPlatform rest IH]; cbn [map]; constructor;
      [apply connectUntilReady_never_throws | exact IH]. }
  destruct (run_ticking remote (fun _ _ (_ : InteropPlatform) => never_throws)
              (fun _ _ _ _ _ H => H)
              (fun _ issued0 _ task H => advance_never_throws remote task issued0 H)
              ticks 0 _ _ issued Hstart) as (tasks & calls & Hrun & Hend).
  assert (Hsafe : Forall never_throws tasks).
  { clear -Hend. induction Hend; constructor; assumption. }
  destruct (promise_all_never_throws tasks Hsafe) as [outcome Hpromise].
  exists outcome, (issued ++ calls). rewrite run_bind, Hrun, Hpromise. reflexivity.
Qed.

(** X23: the only rejection of [Fdc3Bus] is the one for duplicate types.
    Whatever the remote side answers, when [Fdc3Bus] is rejected the reason
    is "Multiple platforms have the same type.", two descriptors share a
    type and no connection was attempted: a platform that refuses a
    connection never makes [Fdc3Bus] fail. *)
Theorem Fdc3Bus_rejects_for_duplicate_types_only
    (remote : Remote) (ticks : nat) (interopPlatforms : list InteropPlatform)
    (methods : list MethodImplementation) (issued issued' : list Call) (e : JsError) :
  run remote (Fdc3Bus ticks interopPlatforms methods) issued = (Rejected e, issued') ->
  e = Error "Multiple platforms have the same type." /\
  issued' = issued /\
  ~ NoDup (map type interopPlatforms).
Proof.
  unfold Fdc3Bus, Utils.interopPlatformsToPlatforms.
  destruct (length (map type interopPlatforms)
            =? size (list_to_set (map type interopPlatforms) : gset string))%nat eqn:Hsize;
    cbn [negb].
  - rewrite !run_bind.
    destruct (run_connect_all_settles remote ticks interopPlatforms methods issued)
      as (outcome & issued1 & ->).
    cbn [run]. discriminate.
  - cbn [run]. intros Hrun. inversion Hrun; subst. repeat split.
    intros Hnodup. apply duplicate_types_detected in Hnodup. congruence.
Qed.

Lemma Fdc3Bus_rejects_for_duplicate_types_only_witness :
  run slow (Fdc3Bus 3 [descriptor "A"; descriptor "B"; descriptor "A"] []) []
  = (Rejected (Error "Multiple platforms have the same type."), []) /\
  ~ NoDup (map type [descriptor "A"; descriptor "B"; descriptor "A"]).
Proof.
  assert (Hrun : run slow (Fdc3Bus 3 [descriptor "A"; descriptor "B"; descriptor "A"] []) []
                 = (Rejected (Error "Multiple platforms have the same type."), []))
    by (vm_compute; reflexivity).
  split; [exact Hrun |].
  exact (proj2 (proj2 (Fdc3Bus_rejects_for_duplicate_types_only
                         slow 3 [descriptor "A"; descriptor "B"; descriptor "A"] [] [] []
                         (Error "Multiple platforms have the same type.") Hrun))).
Defined.

Section Refusing.

Context (remote : Remote) (methods : list MethodImplementation) (stuck : InteropPlatform).
Context (Hrefused : forall issued,
            resolves (remote _ issued (attempt stuck methods)) = false).

Lemma waiting_on_turn (issued : list Call) (interopPlatform : InteropPlatform)
    (task : Prog (option InteropPeer)) :
  waiting_on methods stuck interopPlatform task ->
  waiting_on methods stuck interopPlatform (fst (advance remote task issued)).
Proof.
  intros [Hsafe Hstuck]. split; [apply advance_never_throws; exact Hsafe |].
  intros Hhere. destruct (Hstuck Hhere) as [[| ticks] ->].
  - exists 0. reflexivity.
  - cbn [Utils.connectUntilReady advance fst]. fold (attempt stuck methods).
    pose proof (Hrefused issued) as Hanswer.
    destruct (remote _ issued (attempt stuck methods)); [discriminate | eauto].
Qed.

Lemma promise_all_waiting (interopPlatforms : list InteropPlatform)
    (tasks : list (Prog (option InteropPeer))) :
  Forall2 (waiting_on methods stuck) interopPlatforms tasks ->
  (exists outcome, Utils.promise_all tasks = Ret outcome) /\
  (In stuck interopPlatforms -> Utils.promise_all tasks = Ret None).
Proof.
  induction 1 as [| interopPlatform task rest others [Hsafe Hstuck] Hrest [[outcome IH] IHin]].
  - split; [eexists; reflexivity | intros []].
  - cbn [Utils.promise_all]. split.
    + destruct Hsafe as [[a |] | X call k Hk]; rewrite IH; cbn [bind]; eauto.
    + intros [Hhere | Hin].
      * destruct (Hstuck Hhere) as [[| ticks] ->]; cbn [Utils.connectUntilReady];
          rewrite IH; reflexivity.
      * rewrite (IHin Hin). destruct Hsafe as [[a |] | X call k Hk]; reflexivity.
Qed.

Lemma run_connect_all_waiting (ticks : nat) (interopPlatforms : list InteropPlatform)
    (issued : list Call) :
  exists (outcome : option (list InteropPeer)) (issued' : list Call),
    run remote (Utils.connect_all ticks interopPlatforms methods) issued
    = (Resolved outcome, issued') /\
    (In stuck interopPlatforms -> outcome = None).
Proof.
  unfold Utils.connect_all.
  assert (Hstart : Forall2 (waiting_on methods stuck) interopPlatforms
                     (map (fun interopPlatform =>
                             Utils.connectUntilReady ticks interopPlatform methods)
                          interopPlatforms)).
  { induction interopPlatforms as [| interopPlatform rest IH]; cbn [map]; constructor;
      [| exact IH].
    split; [apply connectUntilReady_never_throws |]. intros ->. eauto. }
  destruct (run_ticking remote (fun _ _ => waiting_on methods stuck)
              (fun _ _ _ _ _ H => H) (fun _ issued0 i task => waiting_on_turn issued0 i task)
              ticks 0 _ _ issued Hstart) as (tasks & calls & Hrun & Hend).
  destruct (promise_all_waiting _ _ Hend) as [[outcome Hpromise] Hnone].
  exists outcome, (issued ++ calls). rewrite run_bind, Hrun, Hpromise.
  split; [reflexivity |]. intros Hin. specialize (Hnone Hin). congruence.
Qed.

End Refusing.

(** X24: when the types are distinct and one of the platforms turns every
    connection attempt down, the promise of [Fdc3Bus] is still pending
    however many ticks are observed: it is not rejected, and it is not
    resolved with the platforms that did connect. *)
Theorem Fdc3Bus_waits_for_every_platform
    (remote : Remote) (ticks : nat) (interopPlatforms : list InteropPlatform)
    (methods : list MethodImplementation) (stuck : InteropPlatform) (issued : list Call) :
  NoDup (map type interopPlatforms) ->
  In stuck interopPlatforms ->
  (forall issued', resolves (remote _ issued' (attempt stuck methods)) = false) ->
  fst (run remote (Fdc3Bus ticks interopPlatforms methods) issued) = Resolved None.
Proof.
  intros Hnodup Hin Hrefused. unfold Fdc3Bus, Utils.interopPlatformsToPlatforms.
  apply duplicate_types_detected in Hnodup. rewrite Hnodup. cbn [negb].
  rewrite !run_bind.
  destruct (run_connect_all_waiting remote methods stuck Hrefused ticks interopPlatforms issued)
    as (outcome & issued1 & -> & Hnone).
  rewrite (Hnone Hin). reflexivity.
Qed.

Lemma Fdc3Bus_waits_for_every_platform_witness :
  fst (run deaf (Fdc3Bus 5 [descriptor "A"; descriptor "B"; descriptor "C"] []) [])
  = Resolved None.
Proof.
  apply (Fdc3Bus_waits_for_every_platform
           deaf 5 [descriptor "A"; descriptor "B"; descriptor "C"] [] (descriptor "B") []).
  - apply (bool_decide_unpack _). vm_compute. exact I.
  - right. left. reflexivity.
  - intros issued'. reflexivity.
Defined.

(** X25: [connectUntilReady] retries through rejections and stops at the
    first success.  When the first [refused] attempts are rejected and the
    next one resolves with a peer, within the ticks observed, it resolves
    with that peer after exactly [refused + 1] attempts, all made under the
    same application name with the same methods. *)
Theorem connectUntilReady_stops_at_the_first_success
    (remote : Remote) (ticks refused : nat) (interopPlatform : InteropPlatform)
    (methods : list MethodImplementation) (issued : list Call) (interopPeer : InteropPeer) :
  refused < ticks ->
  (forall k, k < refused ->
     resolves (remote _ (issued ++ repeat (log (attempt interopPlatform methods)) k)
                      (attempt interopPlatform methods)) = false) ->
  remote _ (issued ++ repeat (log (attempt interopPlatform methods)) refused)
         (attempt interopPlatform methods) = Resolved interopPeer ->
  run remote (Utils.connectUntilReady ticks interopPlatform methods) issued
  = (Resolved (Some interopPeer),
     issued ++ repeat (log (attempt interopPlatform methods)) (S refused)).
Proof.
  revert ticks issued. induction refused as [| refused IH]; intros ticks issued Hticks Hrefused Hok.
  - destruct ticks as [| ticks]; [lia |].
    cbn [Utils.connectUntilReady run repeat]. fold (attempt interopPlatform methods).
    cbn [repeat] in Hok. rewrite app_nil_r in Hok. rewrite Hok. reflexivity.
  - destruct ticks as [| ticks]; [lia |].
    cbn [Utils.connectUntilReady run]. fold (attempt interopPlatform methods).
    pose proof (Hrefused 0 ltac:(lia)) as Hfirst. cbn [repeat] in Hfirst.
    rewrite app_nil_r in Hfirst.
    destruct (remote _ issued (attempt interopPlatform methods)); [discriminate |].
    rewrite (IH ticks (issued ++ [log (attempt interopPlatform methods)])).
    + rewrite <- app_assoc. reflexivity.
    + lia.
    + intros k Hk. rewrite <- app_assoc. apply (Hrefused (S k)). lia.
    + rewrite <- app_assoc. exact Hok.
Qed.

Lemma connectUntilReady_stops_at_the_first_success_witness :
  run slow (Utils.connectUntilReady 5 (descriptor "A") []) []
  = (Resolved (Some (peer 0)), [] ++ repeat (log (attempt (descriptor "A") [])) 3).
Proof.
  apply (connectUntilReady_stops_at_the_first_success slow 5 2 (descriptor "A") [] [] (peer 0)).
  - lia.
  - intros k Hk. destruct k as [| [| k]]; [reflexivity | reflexivity | lia].
  - reflexivity.
Defined.

Section Connected.

Context (remote : Remote) (methods : list MethodImplementation).

Lemma timer_of_later (issued more : list Call) (interopPlatform : InteropPlatform)
    (task : Prog (option InteropPeer)) :
  timer_of remote methods issued interopPlatform task ->
  timer_of remote methods (issued ++ more) interopPlatform task.
Proof.
  intros [Htimer | (interopPeer & Htask & Hconnected)]; [left; exact Htimer |].
  right. exists interopPeer. split; [exact Htask | apply connected_later; exact Hconnected].
Qed.

Lemma timer_of_turn (issued : list Call) (interopPlatform : InteropPlatform)
    (task : Prog (option InteropPeer)) :
  timer_of remote methods issued interopPlatform task ->
  timer_of remote methods (snd (advance remote task issued)) interopPlatform
           (fst (advance remote task issued)).
Proof.
  intros [[[| ticks] ->] | (interopPeer & -> & Hconnected)].
  - left. exists 0. reflexivity.
  - cbn [Utils.connectUntilReady advance fst snd]. fold (attempt interopPlatform methods).
    destruct (remote _ issued (attempt interopPlatform methods)) as [interopPeer | e] eqn:Hanswer.
    + right. exists interopPeer. split; [reflexivity |].
      exists issued, []. split; [reflexivity | exact Hanswer].
    + left. exists ticks. reflexivity.
  - right. exists interopPeer. split; [reflexivity | exact Hconnected].
Qed.

(** When [Promise.all] has resolved with peers, each is the peer of a
    connection that was resolved. *)
Lemma promise_all_resolved (issued : list Call) (interopPlatforms : list InteropPlatform)
    (tasks : list (Prog (option InteropPeer))) (interopPeers : list InteropPeer) :
  Forall2 (timer_of remote methods issued) interopPlatforms tasks ->
  Utils.promise_all tasks = Ret (Some interopPeers) ->
  Forall2 (connected remote methods issued) interopPlatforms interopPeers.
Proof.
  intros Htimers. revert interopPeers.
  induction Htimers as [| interopPlatform task rest others Hfirst Hrest IH];
    intros interopPeers Hall.
  - cbn in Hall. inversion Hall. constructor.
  - cbn [Utils.promise_all] in Hall.
    destruct (promise_all_settles others) as [[outcome Hothers] | [e Hothers]];
      rewrite Hothers in *.
    + destruct Hfirst as [[[| ticks] ->] | (interopPeer & -> & Hconnected)];
        cbn [Utils.connectUntilReady bind] in Hall; try discriminate Hall.
      destruct outcome as [peers |]; cbn [option_map] in Hall; inversion Hall; subst.
      constructor; [exact Hconnected | apply IH; reflexivity].
    + destruct Hfirst as [[[| ticks] ->] | (interopPeer & -> & Hconnected)];
        cbn [Utils.connectUntilReady bind] in Hall; discriminate Hall.
Qed.

Lemma connect_all_resolved (ticks : nat) (interopPlatforms : list InteropPlatform)
    (issued issued' : list Call) (interopPeers : list InteropPeer) :
  run remote (Utils.connect_all ticks interopPlatforms methods) issued
  = (Resolved (Some interopPeers), issued') ->
  Forall2 (connected remote methods issued') interopPlatforms interopPeers.
Proof.
  unfold Utils.connect_all. rewrite run_bind.
  assert (Hstart : Forall2 (timer_of remote methods issued) interopPlatforms
                     (map (fun interopPlatform =>
                             Utils.connectUntilReady ticks interopPlatform methods)
                          interopPlatforms)).
  { induction interopPlatforms as [| interopPlatform rest IH]; cbn [map]; constructor;
      [left; eauto | exact IH]. }
  destruct (run_ticking remote (fun _ => timer_of remote methods)
              (fun _ => timer_of_later) (fun _ => timer_of_turn)
              ticks 0 _ _ issued Hstart) as (tasks & calls & Hrun & Hend).
  rewrite Hrun. intros Hpromise. apply run_promise_all in Hpromise as [-> Hpromise].
  eapply promise_all_resolved; [exact Hend | exact Hpromise].
Qed.

End Connected.

Lemma to_platforms_built (interopPlatforms : list InteropPlatform)
    (interopPeers : list InteropPeer) :
  length interopPlatforms = length interopPeers ->
  Forall2 built_from interopPlatforms (Utils.to_platforms interopPlatforms interopPeers).
Proof.
  revert interopPeers.
  induction interopPlatforms as [| interopPlatform rest IH]; intros [| interopPeer peers] Hlen;
    cbn in Hlen |- *; try discriminate; constructor.
  - repeat split.
  - apply IH. lia.
Qed.

Lemma built_names (interopPlatforms : list InteropPlatform) (platforms : list Platform) :
  Forall2 built_from interopPlatforms platforms ->
  map name platforms = map type interopPlatforms.
Proof.
  induction 1 as [| interopPlatform platform rest others [Hname _] _ IH]; [reflexivity |].
  cbn [map]. rewrite Hname, IH. reflexivity.
Qed.

(** Distinct names: at most one platform answers to a name. *)
Lemma named_at_most_once (platformName : string) (platforms : list Platform) :
  NoDup (map name platforms) -> length (named_platforms platformName platforms) <= 1.
Proof.
  unfold named_platforms. induction platforms as [| platform rest IH]; intros Hnodup.
  - cbn. lia.
  - cbn [map] in Hnodup. apply NoDup_cons in Hnodup as [Hfresh Hrest].
    cbn [List.filter]. destruct (String.eqb_spec (name platform) platformName) as [Hname | Hname].
    + assert (List.filter (fun fdc3Platform => String.eqb (name fdc3Platform) platformName) rest
              = []) as ->; [| cbn; lia].
      clear -Hfresh Hname. induction rest as [| other more IHr]; [reflexivity |].
      cbn [List.filter]. cbn [map] in Hfresh. apply not_elem_of_cons in Hfresh as [Hother Hmore].
      destruct (String.eqb_spec (name other) platformName) as [Hsame | _]; [congruence |].
      apply IHr. exact Hmore.
    + apply IH. exact Hrest.
Qed.

(** X26: whenever [Fdc3Bus] resolves, whatever the remote side answered,
    the engine has one platform per descriptor, in order: named by the
    type of the descriptor, with its version, an empty [config], the
    [online] flag and the status of the peer, and holding the peer that a
    connection attempt for that descriptor was resolved with.  No two
    platforms of the engine have the same name, so [getUniquePlatform]
    finds at most one platform for any name. *)
Theorem Fdc3Bus_resolves_with_one_platform_per_descriptor
    (remote : Remote) (ticks : nat) (interopPlatforms : list InteropPlatform)
    (methods : list MethodImplementation) (issued issued' : list Call)
    (platforms : list Platform) :
  run remote (Fdc3Bus ticks interopPlatforms methods) issued
  = (Resolved (Some platforms), issued') ->
  Forall2 built_from interopPlatforms platforms /\
  Forall2 (connected remote methods issued') interopPlatforms (map platformApi platforms) /\
  forall platformName : string, length (named_platforms platformName platforms) <= 1.
Proof.
  unfold Fdc3Bus.
  destruct (length (map type interopPlatforms)
            =? size (list_to_set (map type interopPlatforms) : gset string))%nat eqn:Hsize;
    cbn [negb]; [| discriminate].
  apply duplicate_types_detected in Hsize.
  unfold Utils.interopPlatformsToPlatforms. rewrite !run_bind.
  destruct (run remote (Utils.connect_all ticks interopPlatforms methods) issued)
    as [[[interopPeers |] | e] issued1] eqn:Hconnect; cbn [run option_map]; try discriminate.
  intros H. inversion H; subst. clear H.
  pose proof (connect_all_resolved remote methods ticks interopPlatforms issued issued'
                interopPeers Hconnect) as Hconnected.
  pose proof (Forall2_length _ _ _ Hconnected) as Hlength.
  pose proof (to_platforms_built interopPlatforms interopPeers Hlength) as Hbuilt.
  destruct (to_platforms_names interopPlatforms interopPeers Hlength) as [Hnames Hapis].
  split; [exact Hbuilt |]. split; [rewrite Hapis; exact Hconnected |].
  intros platformName. apply named_at_most_once. rewrite Hnames. exact Hsize.
Qed.

Lemma Fdc3Bus_resolves_with_one_platform_per_descriptor_witness :
  Forall2 built_from [descriptor "A"; descriptor "B"] [platform "A" 0; platform "B" 1] /\
  Forall2 (connected slow []
             [log (attempt (descriptor "A") []); log (attempt (descriptor "B") []);
              log (attempt (descriptor "A") []); log (attempt (descriptor "A") [])])
          [descriptor "A"; descriptor "B"]
          (map platformApi [platform "A" 0; platform "B" 1]) /\
  forall platformName : string,
    length (named_platforms platformName [platform "A" 0; platform "B" 1]) <= 1.
Proof.
  apply (Fdc3Bus_resolves_with_one_platform_per_descriptor
           slow 3 [descriptor "A"; descriptor "B"] [] []).
  vm_compute. reflexivity.
Defined.

(** ** Validation: the context errors *)

(** X27: once the string argument is a non-empty string and the target, if
    given, is a string, [validateOpenParams],
    [validateIntentAndContextParams] and [validateRaiseIntent] accept
    exactly the contexts [validateContext] accepts and fail with the very
    error it fails with: the [try]/[catch] of [validateOpenParams] changes
    nothing. *)
Theorem validators_pass_context_errors_on_unchanged
    (argument : string) (context target : JsValue) :
  argument <> "" ->
  malformed_target target = false ->
  Utils.validateOpenParams (JStr argument) context = Utils.validateContext context /\
  Utils.validateIntentAndContextParams (JStr argument) context = Utils.validateContext context /\
  Utils.validateRaiseIntent (JStr argument) context target = Utils.validateContext context.
Proof.
  intros Hargument Htarget.
  unfold Utils.validateOpenParams, Utils.validateRaiseIntent,
    Utils.validateIntentAndContextParams.
  rewrite (validateIntent_named argument Hargument). cbn [truthy typeof].
  apply String.eqb_neq in Hargument. rewrite Hargument. cbn [negb String.eqb Ascii.eqb Bool.eqb].
  unfold malformed_target in Htarget. rewrite Htarget.
  split; [| split; [reflexivity |]].
  - destruct (malformed_context context) eqn:Hcontext.
    + destruct (validateContext_malformed context Hcontext) as [m ->]. reflexivity.
    + rewrite (validateContext_well_formed context Hcontext). reflexivity.
  - destruct (Utils.validateContext context) as [[] | e]; reflexivity.
Qed.

Lemma validators_pass_context_errors_on_unchanged_witness :
  Utils.validateOpenParams (JStr "charts") (JObj [("name", JStr "IBM")])
  = Utils.validateContext (JObj [("name", JStr "IBM")]) /\
  Utils.validateIntentAndContextParams (JStr "charts") (JObj [("name", JStr "IBM")])
  = Utils.validateContext (JObj [("name", JStr "IBM")]) /\
  Utils.validateRaiseIntent (JStr "charts") (JObj [("name", JStr "IBM")]) (JStr "B")
  = Utils.validateContext (JObj [("name", JStr "IBM")]).
Proof.
  apply (validators_pass_context_errors_on_unchanged
           "charts" (JObj [("name", JStr "IBM")]) (JStr "B"));
    [discriminate | reflexivity].
Defined.
